(** * Generic streaming client (client/genericclient/stream.go)

    A shallow embedding of the generic streaming client of Kitex: the
    streaming-mode registry kept in a [sync.Map], the method-info hook that
    resolves a method name to a descriptor, the stream acquirer and the three
    streaming handles with their send / receive / close protocol.

    The code is sequential Go that reads and writes a shared registry and
    talks to a transport.  It is embedded as a state monad over a [World]
    (the heap of service-info objects and of registries, the log of calls made
    on the transport, and the log of descriptor lookups) whose results are a
    value, a Go [error], or a panic.  The transport is an oracle: what it
    answers to a call may depend on the whole log so far.

    The file has the embedding first, then the notions the statements use and
    a few instances, then the properties, and last concrete runs of the
    properties on an echo service. *)

From Stdlib Require Import String List.
From stdpp Require Import gmap strings list fin_maps.
Import ListNotations.

Set Default Proof Using "Type".

(** ** Data of package [serviceinfo] and [generic] used by the file *)

(** Modelled from the spec: [serviceinfo.StreamingMode] is declared outside
    this file; the spec enumerates it as None, ClientStreaming,
    ServerStreaming, Bidirectional. *)
Inductive StreamingMode :=
  | StreamingNone
  | StreamingClient
  | StreamingServer
  | StreamingBidirectional.

#[global] Instance StreamingMode_eq_dec : EqDecision StreamingMode.
Proof. solve_decision. Defined.

(** The four keys of [svcInfo.Methods] this file indexes with: the string
    constants [serviceinfo.GenericMethod], [GenericClientStreamingMethod],
    [GenericServerStreamingMethod], [GenericBidirectionalStreamingMethod].
    Their spelling is declared outside this file; only which of the four is
    selected matters here. *)
Inductive MethodKey :=
  | GenericMethod_key
  | GenericClientStreamingMethod
  | GenericServerStreamingMethod
  | GenericBidirectionalStreamingMethod.

#[global] Instance MethodKey_eq_dec : EqDecision MethodKey.
Proof. solve_decision. Defined.

(** Go [error] values.  [errors_New] covers [errors.New] and [fmt.Errorf]
    of this file; an error produced by a collaborator (transport, client
    construction) is a [Foreign] one, identified by what the collaborator
    chose to report. *)
Inductive error :=
  | errors_New (msg : string)
  | Foreign (what : string).

#[global] Instance error_eq_dec : EqDecision error.
Proof. solve_decision. Defined.

Definition ErrInvalidClient : error := errors_New "invalid generic client"%string.
Definition ErrNotSupportStreaming : error := errors_New "client not support streaming"%string.

(** [getGenericStreamingMethodInfoKey], lines 102-113. *)
Definition getGenericStreamingMethodInfoKey (streamingMode : StreamingMode) : MethodKey :=
  match streamingMode with
  | StreamingClient => GenericClientStreamingMethod
  | StreamingServer => GenericServerStreamingMethod
  | StreamingBidirectional => GenericBidirectionalStreamingMethod
  | _ => GenericMethod_key
  end.

(** What [g.GetMethod] hands back for a method the schema knows. *)
Record Method := {
  Method_StreamingMode : StreamingMode;
  Method_Oneway : bool;
}.

(** A [generic.Generic]: whether it carries schema (IDL) information, and
    its method lookup [g.GetMethod(nil, name)]. *)
Record Generic := {
  HasIDLInfo : bool;
  GetMethod : string -> Method + error;
}.

(** ** Results and sequencing

    A Go call returns a value, returns a non-nil [error], or panics.  [Go W A]
    is a computation over a state [W] with such a result. *)

Inductive result (A : Type) :=
  | Ok (a : A)
  | Err (e : error)
  | Panic.
Arguments Ok {A} a.
Arguments Err {A} e.
Arguments Panic {A}.

Definition Go (W A : Type) : Type := W -> result A * W.

Definition ret {W A} (a : A) : Go W A := fun w => (Ok a, w).
Definition fail {W A} (e : error) : Go W A := fun w => (Err e, w).
Definition panic {W A} : Go W A := fun w => (Panic, w).

(** Sequencing as the file does it: [if err != nil { return nil, err }]. *)
Definition bind {W A B} (c : Go W A) (k : A -> Go W B) : Go W B :=
  fun w =>
    match c w with
    | (Ok a, w') => k a w'
    | (Err e, w') => (Err e, w')
    | (Panic, w') => (Panic, w')
    end.

Definition modify {W} (f : W -> W) : Go W unit := fun w => (Ok tt, f w).
Definition read {W A} (f : W -> A) : Go W A := fun w => (Ok (f w), w).

Declare Scope go_scope.
Delimit Scope go_scope with go.
Notation "x <- c ;; k" := (bind c (fun x => k))
  (at level 100, c at next level, right associativity) : go_scope.
Notation "c ;;; k" := (bind c (fun _ => k))
  (at level 100, right associativity) : go_scope.
Local Open Scope go_scope.

Section GenericClient.

(** Opaque to this layer: request / response payloads ([interface{}]),
    per-call options ([callopt.Option]) and client options
    ([client.Option] supplied by the caller). *)
Context {Payload CallOption ClientOption : Type}.

(** ** Envelopes *)

(** [generic.Args]: the request envelope. *)
Record Args := {
  Args_Method : string;
  Args_Request : Payload;
}.

(** [generic.Result]: the result envelope. *)
Record Result := {
  Result_Success : Payload;
}.

Definition GetSuccess (r : Result) : Payload := Result_Success r.

Definition set_Method (a : Args) (m : string) : Args :=
  {| Args_Method := m; Args_Request := Args_Request a |}.

Definition set_Request (a : Args) (req : Payload) : Args :=
  {| Args_Method := Args_Method a; Args_Request := req |}.

(** The dynamic type of what [NewArgs()] / [NewResult()] return; the file
    asserts a [generic.Args] resp. [generic.Result] pointer on them. *)
Inductive any :=
  | any_Args (a : Args)
  | any_Result (r : Result)
  | any_other.

(** An entry of [svcInfo.Methods]. *)
Record MethodInfoImpl := {
  impl_NewArgs : any;
  impl_NewResult : any;
  impl_OneWay : bool;
}.

(** A [serviceinfo.MethodInfo] interface value as this file produces it:
    either the map entry itself ([None] is the nil interface that indexing a
    missing key yields), or the wrapper [&methodInfo{MethodInfo: m, oneway: o}]
    of lines 93-96, which embeds the entry and overrides the oneway flag. *)
Inductive MethodInfo :=
  | FromMethods (m : option MethodInfoImpl)
  | WithOneway (m : option MethodInfoImpl) (oneway : bool).

Definition embedded (mi : MethodInfo) : option MethodInfoImpl :=
  match mi with
  | FromMethods m => m
  | WithOneway m _ => m
  end.

(** ** Context and call options *)

Inductive Context_ :=
  | ctx_Background
  | ctx_WithCallOptions (parent : Context_) (callOpts : list CallOption).

(** [client.NewCtxWithCallOptions]. *)
Definition NewCtxWithCallOptions (ctx : Context_) (callOpts : list CallOption) : Context_ :=
  ctx_WithCallOptions ctx callOpts.

(** ** The transport collaborator *)

(** Calls made on the transport, in the order they are made.  A raw stream
    is named by the position of the [EvStream] call that opened it. *)
Inductive event :=
  | EvStream (ctx : Context_) (method : string)
  | EvSendMsg (stream : nat) (m : Args)
  | EvRecvMsg (stream : nat)
  | EvClose (stream : nat).

(** The behaviour of a [client.Streaming] and of the raw streams it opens.
    Each answer may depend on everything that happened before the call.
    [None] is a nil error. *)
Record Transport := {
  tp_Stream : list event -> Context_ -> string -> option error;
  tp_SendMsg : list event -> nat -> Args -> option error;
  tp_RecvMsg : list event -> nat -> Result -> Result + error;
  tp_Close : list event -> nat -> option error;
}.

(** A [streaming.Stream] value. *)
Record Stream := {
  stream_id : nat;
  stream_tp : Transport;
}.

(** The value [client.NewClient] returns: [as_Streaming] is what the type
    assertion [kc.(client.Streaming)] finds. *)
Record KClient := {
  as_Streaming : option Transport;
}.

(** ** Service-info objects *)

(** The variables the function literal of lines 79-97 captures: the generic,
    the registry pointer and the pointer [svcInfo] itself. *)
Record Closure := {
  cap_g : Generic;
  cap_mp : option nat;
  cap_svcInfo : nat;
}.

(** A [serviceinfo.ServiceInfo] object: the method table and the hook
    [GenericMethod] (nil until someone installs one).  The file holds such
    objects by pointer. *)
Record ServiceInfo := {
  Methods : MethodKey -> option MethodInfoImpl;
  GenericMethod : option Closure;
}.

(** A call [svcInfo.MethodInfo(name)] that returned: made when [lk_time]
    calls had been made on the transport, on the object at [lk_svcInfo], for
    the name [lk_name], returning [lk_result]. *)
Record lookup := {
  lk_time : nat;
  lk_svcInfo : nat;
  lk_name : string;
  lk_result : MethodInfo;
}.

(** ** World *)

(** [svcInfos] is the heap of [ServiceInfo] objects, addressed by pointer; an
    address that holds no object stands for the nil pointer.  [syncMaps] is
    the heap of [sync.Map] objects, addressed by the pointer stored in
    [modeMap]; the file stores only [StreamingMode] values under method
    names.  [trace] is the log of transport calls, [lookups] the log of
    descriptor lookups. *)
Record World := {
  svcInfos : gmap nat ServiceInfo;
  syncMaps : gmap nat (gmap string StreamingMode);
  trace : list event;
  lookups : list lookup;
}.

(** The world with the calls [evs] added to the transport log. *)
Definition logged (evs : list event) (w : World) : World :=
  {| svcInfos := svcInfos w; syncMaps := syncMaps w; trace := trace w ++ evs;
     lookups := lookups w |}.

Definition log (e : event) (w : World) : World := logged [e] w.

(** The world with one more descriptor lookup on record. *)
Definition looked_up (l : lookup) (w : World) : World :=
  {| svcInfos := svcInfos w; syncMaps := syncMaps w; trace := trace w;
     lookups := lookups w ++ [l] |}.

Definition contents (p : nat) (w : World) : gmap string StreamingMode :=
  default ∅ (syncMaps w !! p).

(** [sync.Map.Load]. *)
Definition Load (p : nat) (key : string) (w : World) : option StreamingMode :=
  contents p w !! key.

(** [sync.Map.LoadOrStore]: stores only when the key is absent. *)
Definition LoadOrStore (p : nat) (key : string) (value : StreamingMode) (w : World) : World :=
  match Load p key w with
  | Some _ => w
  | None => {| svcInfos := svcInfos w;
               syncMaps := <[p := <[key := value]> (contents p w)]> (syncMaps w);
               trace := trace w; lookups := lookups w |}
  end.

(** [&sync.Map{}]: a new, empty map at an unused address. *)
Definition new_syncMap (w : World) : nat * World :=
  let p := fresh (dom (syncMaps w)) in
  (p, {| svcInfos := svcInfos w; syncMaps := <[p := ∅]> (syncMaps w); trace := trace w;
         lookups := lookups w |}).

(** A new [ServiceInfo] object at an unused address. *)
Definition new_ServiceInfo (obj : ServiceInfo) : Go World nat :=
  fun w =>
    let p := fresh (dom (svcInfos w)) in
    (Ok p, {| svcInfos := <[p := obj]> (svcInfos w); syncMaps := syncMaps w;
              trace := trace w; lookups := lookups w |}).

(** [svcInfo.Methods[key]] through the pointer [svcInfo]; [None] is the nil
    interface that indexing a missing key yields. *)
Definition Methods_at (svcInfo : nat) (key : MethodKey) : Go World (option MethodInfoImpl) :=
  fun w =>
    match svcInfos w !! svcInfo with
    | Some obj => (Ok (Methods obj key), w)
    | None => (Panic, w)
    end.

(** [svcInfo.GenericMethod = f] through the pointer [svcInfo]. *)
Definition set_GenericMethod (svcInfo : nat) (f : Closure) : Go World unit :=
  fun w =>
    match svcInfos w !! svcInfo with
    | Some obj =>
        (Ok tt, {| svcInfos := <[svcInfo := {| Methods := Methods obj;
                                              GenericMethod := Some f |}]> (svcInfos w);
                   syncMaps := syncMaps w; trace := trace w; lookups := lookups w |})
    | None => (Panic, w)
    end.

(** ** The generic client *)

(** [genericServiceClient].  [svcInfo] is the pointer to the service info the
    caller handed to the constructor, [modeMap] the pointer to the registry,
    nil when the generic carries schema information. *)
Record genericServiceClient := {
  svcInfo : nat;
  kClient : KClient;
  sClient : Transport;
  g : Generic;
  modeMap : option nat;
}.

(** A value of interface type [Client]: a [*genericServiceClient], or some
    other implementation. *)
Inductive Client :=
  | GenericServiceClient (gCli : genericServiceClient)
  | OtherClient.

(** The options handed to [client.NewClient], lines 57-60. *)
Inductive client_Option :=
  | WithGeneric (g : Generic)
  | WithDestService (destService : string)
  | Supplied (o : ClientOption).

(** The body of the function literal of lines 79-97, over the variables it
    captures.  [mp.Load] through a nil [*sync.Map] dereferences nil. *)
Definition GenericMethod_func (g : Generic) (mp : option nat) (svcInfo : nat)
    (name : string) : Go World MethodInfo :=
  let key := GenericMethod_key in
  if negb (HasIDLInfo g) then
    match mp with
    | None => panic
    | Some mp =>
        found <- read (Load mp name) ;;
        let key := match found with
                   | Some mode => getGenericStreamingMethodInfoKey mode
                   | None => key
                   end in
        m <- Methods_at svcInfo key ;;
        ret (FromMethods m)
    end
  else
    match GetMethod g name with
    | inr err =>
        m <- Methods_at svcInfo key ;;
        ret (FromMethods m)
    | inl n =>
        let key := getGenericStreamingMethodInfoKey (Method_StreamingMode n) in
        m <- Methods_at svcInfo key ;;
        ret (WithOneway m (Method_Oneway n))
    end.

(** What the hook found in the object at [svcInfo] answers for [name]; with
    no hook installed every name gets the default descriptor, and the nil
    pointer is dereferenced. *)
Definition hook_answer (svcInfo : nat) (name : string) : Go World MethodInfo :=
  fun w =>
    match svcInfos w !! svcInfo with
    | None => (Panic, w)
    | Some obj =>
        match GenericMethod obj with
        | Some f => GenericMethod_func (cap_g f) (cap_mp f) (cap_svcInfo f) name w
        | None => (Ok (FromMethods (Methods obj GenericMethod_key)), w)
        end
    end.

(** Modelled from the spec: [ServiceInfo.MethodInfo] is declared outside this
    file.  By the spec it is the method-info hook the constructor installs,
    resolving a method name to a descriptor; with no hook installed every
    name gets the default descriptor.  A call that returns is put on record
    in [lookups]. *)
Definition ServiceInfo_MethodInfo (svcInfo : nat) (name : string) : Go World MethodInfo :=
  mi <- hook_answer svcInfo name ;;
  modify (fun w => looked_up {| lk_time := length (trace w); lk_svcInfo := svcInfo;
                                lk_name := name; lk_result := mi |} w) ;;;
  ret mi.

(** ** Raw stream operations *)

(** [Stream.SendMsg], [Stream.RecvMsg], [Stream.Close]: each is one call on
    the transport, logged whatever its outcome.  [RecvMsg] fills the holder
    it is given. *)
Definition SendMsg (s : Stream) (m : Args) : Go World unit :=
  fun w =>
    let w' := log (EvSendMsg (stream_id s) m) w in
    match tp_SendMsg (stream_tp s) (trace w) (stream_id s) m with
    | Some err => (Err err, w')
    | None => (Ok tt, w')
    end.

Definition RecvMsg (s : Stream) (holder : Result) : Go World Result :=
  fun w =>
    let w' := log (EvRecvMsg (stream_id s)) w in
    match tp_RecvMsg (stream_tp s) (trace w) (stream_id s) holder with
    | inr err => (Err err, w')
    | inl filled => (Ok filled, w')
    end.

Definition Close (s : Stream) : Go World unit :=
  fun w =>
    let w' := log (EvClose (stream_id s)) w in
    match tp_Close (stream_tp s) (trace w) (stream_id s) with
    | Some err => (Err err, w')
    | None => (Ok tt, w')
    end.

(** Method calls through a [MethodInfo] interface value: a nil interface, or
    a wrapper around a nil one, dereferences nil. *)
Definition NewArgs (mi : MethodInfo) : Go World any :=
  match embedded mi with
  | Some m => ret (impl_NewArgs m)
  | None => panic
  end.

Definition NewResult (mi : MethodInfo) : Go World any :=
  match embedded mi with
  | Some m => ret (impl_NewResult m)
  | None => panic
  end.

(** The unchecked assertions to a [generic.Args] pointer and to a
    [generic.Result] pointer. *)
Definition assert_Args (v : any) : Go World Args :=
  match v with
  | any_Args a => ret a
  | _ => panic
  end.

Definition assert_Result (v : any) : Go World Result :=
  match v with
  | any_Result r => ret r
  | _ => panic
  end.

(** ** Construction, lines 52-100 *)

(** [client.NewClient] and [generic.ServiceInfoWithGeneric] belong to other
    packages.  [client.NewClient] is given the world it is called in, the
    pointer [svcInfo] and the options; it is taken to leave the objects of
    this file alone.  [generic.ServiceInfoWithGeneric] is taken by the object
    it builds for a generic, a new one at each call. *)
Variable client_NewClient : World -> nat -> list client_Option -> KClient + error.
Variable generic_ServiceInfoWithGeneric : Generic -> ServiceInfo.

(** [NewStreamingClientWithServiceInfo], lines 56-100.  The assertion
    [kc.(client.Streaming)] of line 73 is unchecked.  The client keeps the
    caller's pointer [svcInfo] (line 71), and the assignment of line 79
    writes the hook into the object it points to, replacing whatever hook
    was there.  [runtime.SetFinalizer] (line 77) arranges for the client's
    [Close] to run when the collector frees it; collection is outside this
    model. *)
Definition NewStreamingClientWithServiceInfo (destService : string) (g : Generic)
    (svcInfo : nat) (opts : list ClientOption) : Go World Client :=
  let options : list client_Option := [] in
  let options := options ++ [WithGeneric g] in
  let options := options ++ [WithDestService destService] in
  let options := options ++ map Supplied opts in
  made <- read (fun w => client_NewClient w svcInfo options) ;;
  match made with
  | inr err => fail err
  | inl kc =>
      mp <- (if negb (HasIDLInfo g)
             then (fun w => let (p, w') := new_syncMap w in (Ok (Some p), w'))
             else ret None) ;;
      sc <- match as_Streaming kc with
            | Some sc => ret sc
            | None => panic
            end ;;
      let cli := {| svcInfo := svcInfo; kClient := kc; sClient := sc; g := g;
                    modeMap := mp |} in
      set_GenericMethod svcInfo {| cap_g := g; cap_mp := mp; cap_svcInfo := svcInfo |} ;;;
      ret (GenericServiceClient cli)
  end.

(** [NewStreamingClient], lines 52-54. *)
Definition NewStreamingClient (destService : string) (g : Generic)
    (opts : list ClientOption) : Go World Client :=
  svcInfo <- new_ServiceInfo (generic_ServiceInfoWithGeneric g) ;;
  NewStreamingClientWithServiceInfo destService g svcInfo opts.

(** ** Stream acquisition, lines 229-241 *)

(** [getStream].  The first assertion, on [genericCli], is unchecked; the
    second, on [kClient], is checked.  The raw stream opened is named by the
    position of its [EvStream] call in the log. *)
Definition getStream (ctx : Context_) (genericCli : Client) (method : string)
    (callOpts : list CallOption) : Go World Stream :=
  let ctx := NewCtxWithCallOptions ctx callOpts in
  match genericCli with
  | OtherClient => panic
  | GenericServiceClient gCli =>
      match as_Streaming (kClient gCli) with
      | None => fail ErrNotSupportStreaming
      | Some streamClient =>
          fun w =>
            let w' := log (EvStream ctx method) w in
            match tp_Stream streamClient (trace w) ctx method with
            | Some err => (Err err, w')
            | None => (Ok {| stream_id := length (trace w); stream_tp := streamClient |}, w')
            end
      end
  end.

(** The guarded registration every factory starts with:
    [if gCli.modeMap != nil { gCli.modeMap.LoadOrStore(method, mode) }]. *)
Definition recordMode (gCli : genericServiceClient) (method : string)
    (mode : StreamingMode) : Go World unit :=
  match modeMap gCli with
  | Some mp => modify (LoadOrStore mp method mode)
  | None => ret tt
  end.

(** ** Client streaming, lines 115-152 *)

Record deprecatedClientStreamingClient := {
  cs_Stream : Stream;
  cs_method : string;
  cs_methodInfo : MethodInfo;
}.

Definition NewClientStreaming (ctx : Context_) (genericCli : Client) (method : string)
    (callOpts : list CallOption) : Go World deprecatedClientStreamingClient :=
  match genericCli with
  | OtherClient => fail ErrInvalidClient
  | GenericServiceClient gCli =>
      recordMode gCli method StreamingClient ;;;
      stream <- getStream ctx genericCli method callOpts ;;
      mi <- ServiceInfo_MethodInfo (svcInfo gCli) method ;;
      ret {| cs_Stream := stream; cs_method := method; cs_methodInfo := mi |}
  end.

Definition deprecatedClientStreamingClient_Send (cs : deprecatedClientStreamingClient)
    (req : Payload) : Go World unit :=
  v <- NewArgs (cs_methodInfo cs) ;;
  _args <- assert_Args v ;;
  let _args := set_Method _args (cs_method cs) in
  let _args := set_Request _args req in
  SendMsg (cs_Stream cs) _args.

Definition deprecatedClientStreamingClient_CloseAndRecv
    (cs : deprecatedClientStreamingClient) : Go World Payload :=
  Close (cs_Stream cs) ;;;
  v <- NewResult (cs_methodInfo cs) ;;
  _result <- assert_Result v ;;
  _result <- RecvMsg (cs_Stream cs) _result ;;
  ret (GetSuccess _result).

(** ** Server streaming, lines 154-191 *)

Record deprecatedServerStreamingClient := {
  ss_Stream : Stream;
  ss_methodInfo : MethodInfo;
}.

Definition NewServerStreaming (ctx : Context_) (genericCli : Client) (method : string)
    (req : Payload) (callOpts : list CallOption) : Go World deprecatedServerStreamingClient :=
  match genericCli with
  | OtherClient => fail ErrInvalidClient
  | GenericServiceClient gCli =>
      recordMode gCli method StreamingServer ;;;
      stream <- getStream ctx genericCli method callOpts ;;
      mtInfo <- ServiceInfo_MethodInfo (svcInfo gCli) method ;;
      let ss := {| ss_Stream := stream; ss_methodInfo := mtInfo |} in
      v <- NewArgs mtInfo ;;
      _args <- assert_Args v ;;
      let _args := set_Method _args method in
      let _args := set_Request _args req in
      SendMsg (ss_Stream ss) _args ;;;
      Close (ss_Stream ss) ;;;
      ret ss
  end.

Definition deprecatedServerStreamingClient_Recv
    (ss : deprecatedServerStreamingClient) : Go World Payload :=
  v <- NewResult (ss_methodInfo ss) ;;
  _result <- assert_Result v ;;
  _result <- RecvMsg (ss_Stream ss) _result ;;
  ret (GetSuccess _result).

(** ** Bidirectional streaming, lines 193-227 *)

Record deprecatedBidirectionalStreamingClient := {
  bs_Stream : Stream;
  bs_method : string;
  bs_methodInfo : MethodInfo;
}.

Definition NewBidirectionalStreaming (ctx : Context_) (genericCli : Client) (method : string)
    (callOpts : list CallOption) : Go World deprecatedBidirectionalStreamingClient :=
  match genericCli with
  | OtherClient => fail ErrInvalidClient
  | GenericServiceClient gCli =>
      recordMode gCli method StreamingBidirectional ;;;
      stream <- getStream ctx genericCli method callOpts ;;
      mi <- ServiceInfo_MethodInfo (svcInfo gCli) method ;;
      ret {| bs_Stream := stream; bs_method := method; bs_methodInfo := mi |}
  end.

Definition deprecatedBidirectionalStreamingClient_Send
    (bs : deprecatedBidirectionalStreamingClient) (req : Payload) : Go World unit :=
  v <- NewArgs (bs_methodInfo bs) ;;
  _args <- assert_Args v ;;
  let _args := set_Method _args (bs_method bs) in
  let _args := set_Request _args req in
  SendMsg (bs_Stream bs) _args.

Definition deprecatedBidirectionalStreamingClient_Recv
    (bs : deprecatedBidirectionalStreamingClient) : Go World Payload :=
  v <- NewResult (bs_methodInfo bs) ;;
  _result <- assert_Result v ;;
  _result <- RecvMsg (bs_Stream bs) _result ;;
  ret (GetSuccess _result).

(** ** Client programs

    A caller holds the handles the factories gave it and calls the public
    operations in any order.  A [Session] is the world together with those
    handles; an [action] names a handle by its position (an action on a
    position that holds no handle does nothing).  A caller may go on after an
    error, and after a panic it recovered from.  The actions are the
    operations this file defines; the raw [SendMsg], [RecvMsg] and [Close]
    that a handle also exposes through the embedded stream belong to the
    transport. *)

Record Session := {
  world : World;
  clientStreams : list deprecatedClientStreamingClient;
  serverStreams : list deprecatedServerStreamingClient;
  bidiStreams : list deprecatedBidirectionalStreamingClient;
}.

Definition set_world (w : World) (s : Session) : Session :=
  {| world := w; clientStreams := clientStreams s;
     serverStreams := serverStreams s; bidiStreams := bidiStreams s |}.

Definition keep_cs (cs : deprecatedClientStreamingClient) (s : Session) : Session :=
  {| world := world s; clientStreams := clientStreams s ++ [cs];
     serverStreams := serverStreams s; bidiStreams := bidiStreams s |}.

Definition keep_ss (ss : deprecatedServerStreamingClient) (s : Session) : Session :=
  {| world := world s; clientStreams := clientStreams s;
     serverStreams := serverStreams s ++ [ss]; bidiStreams := bidiStreams s |}.

Definition keep_bs (bs : deprecatedBidirectionalStreamingClient) (s : Session) : Session :=
  {| world := world s; clientStreams := clientStreams s;
     serverStreams := serverStreams s; bidiStreams := bidiStreams s ++ [bs] |}.

Definition forget {A} (_ : A) (s : Session) : Session := s.

Inductive action :=
  | act_NewStreamingClient (destService : string) (g : Generic) (opts : list ClientOption)
  | act_NewStreamingClientWithServiceInfo (destService : string) (g : Generic)
      (svcInfo : nat) (opts : list ClientOption)
  | act_NewClientStreaming (ctx : Context_) (genericCli : Client) (method : string)
      (callOpts : list CallOption)
  | act_NewServerStreaming (ctx : Context_) (genericCli : Client) (method : string)
      (req : Payload) (callOpts : list CallOption)
  | act_NewBidirectionalStreaming (ctx : Context_) (genericCli : Client) (method : string)
      (callOpts : list CallOption)
  | act_cs_Send (i : nat) (req : Payload)
  | act_cs_CloseAndRecv (i : nat)
  | act_ss_Recv (i : nat)
  | act_bs_Send (i : nat) (req : Payload)
  | act_bs_Recv (i : nat).

(** Run a computation on the session's world and keep what it returned. *)
Definition on_world {A} (c : Go World A) (keep : A -> Session -> Session)
    (s : Session) : result unit * Session :=
  match c (world s) with
  | (Ok a, w') => (Ok tt, keep a (set_world w' s))
  | (Err e, w') => (Err e, set_world w' s)
  | (Panic, w') => (Panic, set_world w' s)
  end.

Definition on_handle {H A} (h : option H) (op : H -> Go World A)
    (s : Session) : result unit * Session :=
  match h with
  | Some h => on_world (op h) forget s
  | None => (Ok tt, s)
  end.

Definition perform (a : action) (s : Session) : result unit * Session :=
  match a with
  | act_NewStreamingClient destService g opts =>
      on_world (NewStreamingClient destService g opts) forget s
  | act_NewStreamingClientWithServiceInfo destService g svcInfo opts =>
      on_world (NewStreamingClientWithServiceInfo destService g svcInfo opts) forget s
  | act_NewClientStreaming ctx genericCli method callOpts =>
      on_world (NewClientStreaming ctx genericCli method callOpts) keep_cs s
  | act_NewServerStreaming ctx genericCli method req callOpts =>
      on_world (NewServerStreaming ctx genericCli method req callOpts) keep_ss s
  | act_NewBidirectionalStreaming ctx genericCli method callOpts =>
      on_world (NewBidirectionalStreaming ctx genericCli method callOpts) keep_bs s
  | act_cs_Send i req =>
      on_handle (clientStreams s !! i) (fun cs => deprecatedClientStreamingClient_Send cs req) s
  | act_cs_CloseAndRecv i =>
      on_handle (clientStreams s !! i) deprecatedClientStreamingClient_CloseAndRecv s
  | act_ss_Recv i =>
      on_handle (serverStreams s !! i) deprecatedServerStreamingClient_Recv s
  | act_bs_Send i req =>
      on_handle (bidiStreams s !! i) (fun bs => deprecatedBidirectionalStreamingClient_Send bs req) s
  | act_bs_Recv i =>
      on_handle (bidiStreams s !! i) deprecatedBidirectionalStreamingClient_Recv s
  end.

Definition step (a : action) (s : Session) : Session := snd (perform a s).

Definition run (acts : list action) (s : Session) : Session :=
  fold_left (fun s a => step a s) acts s.

(** The factory calls: with which arguments, recording which mode. *)
Record FactoryCall := {
  fc_ctx : Context_;
  fc_client : Client;
  fc_method : string;
  fc_callOpts : list CallOption;
  fc_mode : StreamingMode;
}.

Definition factory (a : action) : option FactoryCall :=
  match a with
  | act_NewClientStreaming ctx genericCli method callOpts =>
      Some {| fc_ctx := ctx; fc_client := genericCli; fc_method := method;
              fc_callOpts := callOpts; fc_mode := StreamingClient |}
  | act_NewServerStreaming ctx genericCli method _ callOpts =>
      Some {| fc_ctx := ctx; fc_client := genericCli; fc_method := method;
              fc_callOpts := callOpts; fc_mode := StreamingServer |}
  | act_NewBidirectionalStreaming ctx genericCli method callOpts =>
      Some {| fc_ctx := ctx; fc_client := genericCli; fc_method := method;
              fc_callOpts := callOpts; fc_mode := StreamingBidirectional |}
  | _ => None
  end.

(** ** Notions used in the statements *)

(** A client for a generic without schema information, its registry at
    [mp]. *)
Definition schema_absent (gCli : genericServiceClient) (mp : nat) : Prop :=
  HasIDLInfo (g gCli) = false /\ modeMap gCli = Some mp.

(** A client for a generic with schema information: no registry. *)
Definition schema_present (gCli : genericServiceClient) : Prop :=
  HasIDLInfo (g gCli) = true /\ modeMap gCli = None.

(** The hook the constructor makes for a client: closed over the client's
    generic, registry pointer and service info. *)
Definition own_hook (gCli : genericServiceClient) : Closure :=
  {| cap_g := g gCli; cap_mp := modeMap gCli; cap_svcInfo := svcInfo gCli |}.

(** In world [w] the hook found in the client's service info is the client's
    own: no later constructor call has replaced it. *)
Definition installed (gCli : genericServiceClient) (w : World) : Prop :=
  exists obj, svcInfos w !! svcInfo gCli = Some obj /\ GenericMethod obj = Some (own_hook gCli).

(** A hook as the constructor of this file makes them for the object at [p]:
    closed over [p], and over a registry when its generic has no schema
    information. *)
Definition sound_hook (p : nat) (f : Closure) : Prop :=
  cap_svcInfo f = p /\ (HasIDLInfo (cap_g f) = false -> cap_mp f <> None).

(** Resolving a name on a client: the hook of lines 79-97 over the client's
    own generic, registry and method table. *)
Definition resolve (gCli : genericServiceClient) (name : string) : Go World MethodInfo :=
  GenericMethod_func (g gCli) (modeMap gCli) (svcInfo gCli) name.

(** Every slot of the method table holds a descriptor that makes generic
    envelopes. *)
Definition generic_table (svcInfo : ServiceInfo) : Prop :=
  forall key, exists impl a r,
    Methods svcInfo key = Some impl /\
    impl_NewArgs impl = any_Args a /\
    impl_NewResult impl = any_Result r.

(** In world [w] the pointer [p] holds a service info with a generic method
    table whose hook, if one is installed, is a constructor's. *)
Definition serves (p : nat) (w : World) : Prop :=
  exists obj,
    svcInfos w !! p = Some obj /\ generic_table obj /\
    forall f, GenericMethod obj = Some f -> sound_hook p f.

(** Modelled from the spec: the recorded or declared mode selects the
    descriptor slot to return.  Each streaming mode selects the slot named
    after it, mode None the default slot of plain calls.  Written from the
    names of the slots, apart from the selector of lines 102-113, so that
    the statements say which slot a resolution returns and the selector is
    compared with it. *)
Definition slot_named_after (mode : StreamingMode) : MethodKey :=
  match mode with
  | StreamingNone => GenericMethod_key
  | StreamingClient => GenericClientStreamingMethod
  | StreamingServer => GenericServerStreamingMethod
  | StreamingBidirectional => GenericBidirectionalStreamingMethod
  end.

(** Action [a] is not a constructor call over the service info at [p]. *)
Definition keeps_hook (p : nat) (a : action) : Prop :=
  match a with
  | act_NewStreamingClientWithServiceInfo _ _ svcInfo _ => svcInfo <> p
  | _ => True
  end.

(** The registry of [w'] has every entry of the registry of [w]. *)
Definition registry_le (w w' : World) : Prop :=
  forall p key mode, Load p key w = Some mode -> Load p key w' = Some mode.

(** Computation [c] only adds to the registries. *)
Definition grows {A} (c : Go World A) : Prop :=
  forall w, registry_le w (snd (c w)).

(** Keeping a returned handle leaves the world alone. *)
Definition world_preserving {A} (keep : A -> Session -> Session) : Prop :=
  forall a s, world (keep a s) = world s.

(** A descriptor whose [NewArgs] / [NewResult] make generic envelopes. *)
Definition makes_Args (mi : MethodInfo) : Prop :=
  exists impl a, embedded mi = Some impl /\ impl_NewArgs impl = any_Args a.

Definition makes_Result (mi : MethodInfo) (holder : Result) : Prop :=
  exists impl, embedded mi = Some impl /\ impl_NewResult impl = any_Result holder.

(** What a read hands to the caller. *)
Definition received (answer : Result + error) : result Payload :=
  match answer with
  | inl filled => Ok (GetSuccess filled)
  | inr err => Err err
  end.

Definition sent (answer : option error) : result unit :=
  match answer with
  | None => Ok tt
  | Some err => Err err
  end.

(** The caller goes on to the next call whatever the previous one returned. *)
Definition and_then {A B} (c : Go World A) (k : Go World B) : Go World B :=
  fun w => k (snd (c w)).

(** The world once a factory has made its registration. *)
Definition recorded (gCli : genericServiceClient) (method : string) (mode : StreamingMode)
    (w : World) : World :=
  match modeMap gCli with
  | Some mp => LoadOrStore mp method mode w
  | None => w
  end.

(** The eager protocol of the server-streaming constructor once stream and
    descriptor are there: send the request, signal end-of-send. *)
Definition eager_send_close (stream : Stream) (mtInfo : MethodInfo) (method : string)
    (req : Payload) : Go World deprecatedServerStreamingClient :=
  let ss := {| ss_Stream := stream; ss_methodInfo := mtInfo |} in
  v <- NewArgs mtInfo ;;
  _args <- assert_Args v ;;
  let _args := set_Method _args method in
  let _args := set_Request _args req in
  SendMsg (ss_Stream ss) _args ;;;
  Close (ss_Stream ss) ;;;
  ret ss.

(** Stream [sid] was opened by a request for method [m]. *)
Definition opened_for (tr : list event) (sid : nat) (m : string) : Prop :=
  exists ctx, tr !! sid = Some (EvStream ctx m).

(** The record of the lookup a factory makes for the stream [sid] it has just
    opened: on the service info at [p], for name [m], returning [mi]. *)
Definition lookup_for (sid p : nat) (m : string) (mi : MethodInfo) : lookup :=
  {| lk_time := S sid; lk_svcInfo := p; lk_name := m; lk_result := mi |}.

(** The descriptor lookup made for stream [sid] - the one made when the
    opening of [sid] was the last call on the transport - was a lookup of
    name [m] and returned [mi]. *)
Definition resolved_for (w : World) (sid : nat) (mi : MethodInfo) (m : string) : Prop :=
  exists p, lookup_for sid p m mi ∈ lookups w.

(** Every request envelope in the log carries the method name its stream was
    opened for, which is the name the descriptor lookup for that stream was
    made with. *)
Definition routed (w : World) : Prop :=
  forall i sid args,
    trace w !! i = Some (EvSendMsg sid args) ->
    opened_for (trace w) sid (Args_Method args) /\
    exists mi, resolved_for w sid mi (Args_Method args).

(** Every handle the caller holds wraps a stream opened for a method name,
    and its descriptor is what the lookup made for that stream, with that
    name, returned; for the client-streaming and bidirectional handles the
    name is the one they keep. *)
Definition handles_for_method (s : Session) : Prop :=
  let w := world s in
  (forall cs, cs ∈ clientStreams s ->
     opened_for (trace w) (stream_id (cs_Stream cs)) (cs_method cs) /\
     resolved_for w (stream_id (cs_Stream cs)) (cs_methodInfo cs) (cs_method cs)) /\
  (forall ss, ss ∈ serverStreams s ->
     exists m, opened_for (trace w) (stream_id (ss_Stream ss)) m /\
               resolved_for w (stream_id (ss_Stream ss)) (ss_methodInfo ss) m) /\
  (forall bs, bs ∈ bidiStreams s ->
     opened_for (trace w) (stream_id (bs_Stream bs)) (bs_method bs) /\
     resolved_for w (stream_id (bs_Stream bs)) (bs_methodInfo bs) (bs_method bs)).

(** Lookups on record were made in the past, and no two at the same time:
    the lookup made for a stream is the only one. *)
Definition lookups_ordered (w : World) : Prop :=
  (forall l, l ∈ lookups w -> lk_time l <= length (trace w)) /\
  (forall l1 l2, l1 ∈ lookups w -> l2 ∈ lookups w -> lk_time l1 = lk_time l2 -> l1 = l2).

(** The invariant of a caller's session. *)
Definition session_ok (s : Session) : Prop :=
  routed (world s) /\ handles_for_method s /\ lookups_ordered (world s).

(** A descriptor that makes generic envelopes of both kinds. *)
Definition generic_descriptor (mi : MethodInfo) : Prop :=
  makes_Args mi /\ exists holder, makes_Result mi holder.

(** Every handle the caller holds has such a descriptor. *)
Definition handles_generic (s : Session) : Prop :=
  (forall cs, cs ∈ clientStreams s -> generic_descriptor (cs_methodInfo cs)) /\
  (forall ss, ss ∈ serverStreams s -> generic_descriptor (ss_methodInfo ss)) /\
  (forall bs, bs ∈ bidiStreams s -> generic_descriptor (bs_methodInfo bs)).

(** A client value a factory copes with in world [w]: not a generic client
    at all, or a generic client over a service info with a generic method
    table and a constructor's hook. *)
Definition fit (w : World) (genericCli : Client) : Prop :=
  match genericCli with
  | OtherClient => True
  | GenericServiceClient gCli => serves (svcInfo gCli) w
  end.

(** The factory calls on clients fit in [w] and the operations on handles. *)
Definition supplied (w : World) (a : action) : Prop :=
  match a with
  | act_NewStreamingClient _ _ _ => False
  | act_NewStreamingClientWithServiceInfo _ _ _ _ => False
  | act_NewClientStreaming _ genericCli _ _ => fit w genericCli
  | act_NewServerStreaming _ genericCli _ _ _ => fit w genericCli
  | act_NewBidirectionalStreaming _ genericCli _ _ => fit w genericCli
  | _ => True
  end.

(** No call of the program [acts], run from [s], panics. *)
Fixpoint never_panics (acts : list action) (s : Session) : Prop :=
  match acts with
  | [] => True
  | a :: acts => fst (perform a s) <> Panic /\ never_panics acts (step a s)
  end.

(** The options the constructor hands to [client.NewClient]. *)
Definition options_of (destService : string) (g0 : Generic) (opts : list ClientOption)
    : list client_Option :=
  [WithGeneric g0; WithDestService destService] ++ map Supplied opts.

(** How many times the log [evs] has a close of stream [sid]. *)
Fixpoint closes (sid : nat) (evs : list event) : nat :=
  match evs with
  | [] => 0
  | EvClose s :: evs => (if decide (s = sid) then 1 else 0) + closes sid evs
  | _ :: evs => closes sid evs
  end.

(** The call [c], which acquires its raw stream as the first thing it does on
    the transport, has closed that stream exactly once by the time it is
    over. *)
Definition closed_once {A} (c : Go World A) (w : World) : Prop :=
  closes (length (trace w)) (drop (length (trace w)) (trace (snd (c w)))) = 1.

(** ** Instances

    An echo service reached through a generic without schema information,
    over transports that accept everything, refuse to open a stream, fail on
    the first send, or fail on the close.  [blank] is the payload of a
    freshly made envelope, [reply] the payload the transport answers with. *)

Variables blank reply : Payload.

(** The descriptor in slot [key]: its fresh request envelope carries the
    slot's name, so that the descriptors of different slots differ. *)
Definition slot_name (key : MethodKey) : string :=
  match key with
  | GenericMethod_key => "generic"
  | GenericClientStreamingMethod => "client-streaming"
  | GenericServerStreamingMethod => "server-streaming"
  | GenericBidirectionalStreamingMethod => "bidirectional"
  end%string.

Definition generic_impl (key : MethodKey) : MethodInfoImpl :=
  {| impl_NewArgs := any_Args {| Args_Method := slot_name key; Args_Request := blank |};
     impl_NewResult := any_Result {| Result_Success := blank |};
     impl_OneWay := false |}.

Definition full_table : MethodKey -> option MethodInfoImpl :=
  fun key => Some (generic_impl key).

Definition echo_table : ServiceInfo :=
  {| Methods := full_table; GenericMethod := None |}.

(** A method table with the default slot only. *)
Definition unary_only_table : ServiceInfo :=
  {| Methods := fun key => match key with
                           | GenericMethod_key => Some (generic_impl key)
                           | _ => None
                           end;
     GenericMethod := None |}.

Definition binary_generic : Generic :=
  {| HasIDLInfo := false; GetMethod := fun _ => inr (Foreign "no schema"%string) |}.

(** A generic with schema information that knows one method of each mode:
    [Upload], [Watch], [Chat] and the plain, fire-and-forget [Ping]. *)
Definition idl_generic : Generic :=
  {| HasIDLInfo := true;
     GetMethod := fun name =>
       if String.eqb name "Upload"%string
       then inl {| Method_StreamingMode := StreamingClient; Method_Oneway := false |}
       else if String.eqb name "Watch"%string
       then inl {| Method_StreamingMode := StreamingServer; Method_Oneway := false |}
       else if String.eqb name "Chat"%string
       then inl {| Method_StreamingMode := StreamingBidirectional; Method_Oneway := false |}
       else if String.eqb name "Ping"%string
       then inl {| Method_StreamingMode := StreamingNone; Method_Oneway := true |}
       else inr (Foreign "unknown method"%string) |}.

Definition reliable : Transport :=
  {| tp_Stream := fun _ _ _ => None;
     tp_SendMsg := fun _ _ _ => None;
     tp_RecvMsg := fun _ _ _ => inl {| Result_Success := reply |};
     tp_Close := fun _ _ => None |}.

Definition refusing : Transport :=
  {| tp_Stream := fun _ _ _ => Some (Foreign "connection refused"%string);
     tp_SendMsg := fun _ _ _ => None;
     tp_RecvMsg := fun _ _ _ => inl {| Result_Success := reply |};
     tp_Close := fun _ _ => None |}.

Definition broken_pipe : Transport :=
  {| tp_Stream := fun _ _ _ => None;
     tp_SendMsg := fun _ _ _ => Some (Foreign "broken pipe"%string);
     tp_RecvMsg := fun _ _ _ => inl {| Result_Success := reply |};
     tp_Close := fun _ _ => None |}.

Definition close_fails : Transport :=
  {| tp_Stream := fun _ _ _ => None;
     tp_SendMsg := fun _ _ _ => None;
     tp_RecvMsg := fun _ _ _ => inl {| Result_Success := reply |};
     tp_Close := fun _ _ => Some (Foreign "close failed"%string) |}.

(** The service infos the caller has before it builds a client: the echo
    table at address 0, the table with the default slot only at address 1. *)
Definition tables : gmap nat ServiceInfo :=
  {[0 := echo_table; 1 := unary_only_table]}.

Definition new_world : World :=
  {| svcInfos := tables; syncMaps := ∅; trace := []; lookups := [] |}.

(** The registry pointer of the first client built for [g0]. *)
Definition registry_of (g0 : Generic) : option nat :=
  if HasIDLInfo g0 then None else Some 0.

(** The client the constructor builds in [new_world] for [g0] over the
    service info at [p] and transport [tp], and the world it leaves: the hook
    installed at [p], the registry, if any, at address 0. *)
Definition client_at (p : nat) (g0 : Generic) (tp : Transport) : genericServiceClient :=
  {| svcInfo := p;
     kClient := {| as_Streaming := Some tp |};
     sClient := tp;
     g := g0;
     modeMap := registry_of g0 |}.

Definition with_hook (f : Closure) (obj : ServiceInfo) : ServiceInfo :=
  {| Methods := Methods obj; GenericMethod := Some f |}.

Definition served (p : nat) (g0 : Generic) : World :=
  {| svcInfos :=
       alter (with_hook {| cap_g := g0; cap_mp := registry_of g0; cap_svcInfo := p |}) p tables;
     syncMaps := if HasIDLInfo g0 then ∅ else {[0 := ∅]};
     trace := [];
     lookups := [] |}.

Definition echo_client (tp : Transport) : genericServiceClient :=
  client_at 0 binary_generic tp.

Definition unary_only_client : genericServiceClient := client_at 1 binary_generic reliable.

(** A client whose underlying client does not implement streaming. *)
Definition without_streaming : genericServiceClient :=
  {| svcInfo := 0;
     kClient := {| as_Streaming := None |};
     sClient := reliable;
     g := binary_generic;
     modeMap := Some 0 |}.

Definition echo_call (tp : Transport) : Client := GenericServiceClient (echo_client tp).

Definition fresh_world : World := served 0 binary_generic.

Definition unary_world : World := served 1 binary_generic.

Definition session_in (w : World) : Session :=
  {| world := w; clientStreams := []; serverStreams := []; bidiStreams := [] |}.

Definition fresh_session : Session := session_in fresh_world.

(** Three behaviours of [client.NewClient]. *)
Definition NewClient_over (tp : Transport)
    : World -> nat -> list client_Option -> KClient + error :=
  fun _ _ _ => inl {| as_Streaming := Some tp |}.

Definition NewClient_without_streaming
    : World -> nat -> list client_Option -> KClient + error :=
  fun _ _ _ => inl {| as_Streaming := None |}.

Definition NewClient_failing
    : World -> nat -> list client_Option -> KClient + error :=
  fun _ _ _ => inr (Foreign "dial failed"%string).

Definition opened_Echo : event :=
  EvStream (ctx_WithCallOptions ctx_Background []) "Echo"%string.

Definition envelope (req : Payload) : Args :=
  {| Args_Method := "Echo"%string; Args_Request := req |}.

(** The handle [NewClientStreaming] returns for [Echo] in [fresh_world], and
    the world it leaves. *)
Definition echo_handle (tp : Transport) : deprecatedClientStreamingClient :=
  {| cs_Stream := {| stream_id := 0; stream_tp := tp |};
     cs_method := "Echo"%string;
     cs_methodInfo := FromMethods (Some (generic_impl GenericClientStreamingMethod)) |}.

Definition echo_opened : World :=
  looked_up {| lk_time := 1; lk_svcInfo := 0; lk_name := "Echo"%string;
               lk_result := FromMethods (Some (generic_impl GenericClientStreamingMethod)) |}
    (log opened_Echo (LoadOrStore 0 "Echo"%string StreamingClient fresh_world)).

(** [fresh_world] once the client has learned a mode for three names: [Echo]
    client streaming, [Watch] server streaming, [Chat] bidirectional. *)
Definition learned_world : World :=
  LoadOrStore 0 "Chat"%string StreamingBidirectional
    (LoadOrStore 0 "Watch"%string StreamingServer
       (LoadOrStore 0 "Echo"%string StreamingClient fresh_world)).

(** ** A conversation on a bidirectional handle

    The caller of a bidirectional handle sends and receives in any order. *)

Inductive bidi_call :=
  | bidi_Send (req : Payload)
  | bidi_Recv.

Inductive bidi_answer :=
  | answer_Send (r : result unit)
  | answer_Recv (r : result Payload).

Definition bidi_do (bs : deprecatedBidirectionalStreamingClient) (c : bidi_call)
    (w : World) : bidi_answer * World :=
  match c with
  | bidi_Send req =>
      let (r, w') := deprecatedBidirectionalStreamingClient_Send bs req w in
      (answer_Send r, w')
  | bidi_Recv =>
      let (r, w') := deprecatedBidirectionalStreamingClient_Recv bs w in
      (answer_Recv r, w')
  end.

(** The calls one after the other, whatever each returned. *)
Fixpoint bidi_run (bs : deprecatedBidirectionalStreamingClient) (calls : list bidi_call)
    (w : World) : list bidi_answer * World :=
  match calls with
  | [] => ([], w)
  | c :: calls =>
      let (a, w') := bidi_do bs c w in
      let (answers, w'') := bidi_run bs calls w' in
      (a :: answers, w'')
  end.

(** The one call on the transport a call on the handle stands for. *)
Definition bidi_event (bs : deprecatedBidirectionalStreamingClient) (c : bidi_call) : event :=
  match c with
  | bidi_Send req =>
      EvSendMsg (stream_id (bs_Stream bs))
        {| Args_Method := bs_method bs; Args_Request := req |}
  | bidi_Recv => EvRecvMsg (stream_id (bs_Stream bs))
  end.

(** What the transport answers to those calls, made from log [tr] on. *)
Fixpoint bidi_answers (bs : deprecatedBidirectionalStreamingClient) (holder : Result)
    (tr : list event) (calls : list bidi_call) : list bidi_answer :=
  match calls with
  | [] => []
  | c :: calls =>
      let tp := stream_tp (bs_Stream bs) in
      let sid := stream_id (bs_Stream bs) in
      match c with
      | bidi_Send req =>
          answer_Send (sent (tp_SendMsg tp tr sid
                               {| Args_Method := bs_method bs; Args_Request := req |}))
      | bidi_Recv => answer_Recv (received (tp_RecvMsg tp tr sid holder))
      end :: bidi_answers bs holder (tr ++ [bidi_event bs c]) calls
  end.

(** An action on a handle the caller holds. *)
Definition on_a_handle (a : action) : Prop :=
  match a with
  | act_cs_Send _ _ | act_cs_CloseAndRecv _ | act_ss_Recv _
  | act_bs_Send _ _ | act_bs_Recv _ => True
  | _ => False
  end.

(** The mode that decides the descriptor of a factory call for [name] that
    would record [mode]: the one already recorded, if any. *)
Definition deciding_mode (mp : nat) (name : string) (mode : StreamingMode)
    (w : World) : StreamingMode :=
  default mode (Load mp name w).

(** The descriptor the schema of [g0] gives a name, over table [svc]. *)
Definition schema_descriptor (g0 : Generic) (svc : ServiceInfo) (name : string) : MethodInfo :=
  match GetMethod g0 name with
  | inl n =>
      WithOneway (Methods svc (slot_named_after (Method_StreamingMode n)))
        (Method_Oneway n)
  | inr _ => FromMethods (Methods svc GenericMethod_key)
  end.

(** ** Repeated calls on the client-streaming and server-streaming handles *)

(** The world after the caller has sent each of [reqs] in turn on [cs],
    going on whatever each [Send] returned. *)
Fixpoint cs_send_all (cs : deprecatedClientStreamingClient) (reqs : list Payload)
    (w : World) : World :=
  match reqs with
  | [] => w
  | req :: reqs => cs_send_all cs reqs (snd (deprecatedClientStreamingClient_Send cs req w))
  end.

(** [n] calls of [Recv] on [ss], one after the other. *)
Fixpoint ss_recv_times (ss : deprecatedServerStreamingClient) (n : nat) (w : World)
    : list (result Payload) * World :=
  match n with
  | 0 => ([], w)
  | S n =>
      let (r, w') := deprecatedServerStreamingClient_Recv ss w in
      let (rs, w'') := ss_recv_times ss n w' in
      (r :: rs, w'')
  end.

(** What the transport [tp] answers to [n] reads on stream [sid], made from
    log [tr] on. *)
Fixpoint read_answers (tp : Transport) (sid : nat) (holder : Result) (tr : list event)
    (n : nat) : list (result Payload) :=
  match n with
  | 0 => []
  | S n =>
      received (tp_RecvMsg tp tr sid holder) ::
      read_answers tp sid holder (tr ++ [EvRecvMsg sid]) n
  end.

(** Action [a] is not a factory call for [name] on a client whose registry
    is at [mp]. *)
Definition spares (mp : nat) (name : string) (a : action) : Prop :=
  match factory a with
  | Some fc =>
      match fc_client fc with
      | GenericServiceClient gCli => modeMap gCli <> Some mp \/ fc_method fc <> name
      | OtherClient => True
      end
  | None => True
  end.

(** How many times the log [evs] has a read on stream [sid]. *)
Fixpoint reads (sid : nat) (evs : list event) : nat :=
  match evs with
  | [] => 0
  | EvRecvMsg s :: evs => (if decide (s = sid) then 1 else 0) + reads sid evs
  | _ :: evs => reads sid evs
  end.

(** ** Further instances *)

(** The client the constructor builds for the generic with schema
    information over the echo table: no registry. *)
Definition idl_client (tp : Transport) : genericServiceClient := client_at 0 idl_generic tp.

Definition idl_world : World := served 0 idl_generic.

(** The handle [NewClientStreaming] returns for [Echo] on a client whose
    method table has the default slot only: its descriptor is nil. *)
Definition bare_handle (tp : Transport) : deprecatedClientStreamingClient :=
  {| cs_Stream := {| stream_id := 0; stream_tp := tp |};
     cs_method := "Echo"%string;
     cs_methodInfo := FromMethods None |}.

(** A bidirectional handle on stream 0 for method [Chat]. *)
Definition chat_handle (tp : Transport) : deprecatedBidirectionalStreamingClient :=
  {| bs_Stream := {| stream_id := 0; stream_tp := tp |};
     bs_method := "Chat"%string;
     bs_methodInfo := FromMethods (Some (generic_impl GenericBidirectionalStreamingMethod)) |}.

(** A transport that answers each read with [reply] until two reads have been
    made on the stream, and with an end-of-stream error from then on. *)
Definition two_replies : Transport :=
  {| tp_Stream := fun _ _ _ => None;
     tp_SendMsg := fun _ _ _ => None;
     tp_RecvMsg := fun tr sid _ =>
       if decide (reads sid tr < 2)
       then inl {| Result_Success := reply |}
       else inr (Foreign "EOF"%string);
     tp_Close := fun _ _ => None |}.

(** * Properties *)

(** ** The registry only grows *)

Lemma registry_le_refl w : registry_le w w.
Proof. by intros p key mode. Qed.

Lemma registry_le_trans w1 w2 w3 :
  registry_le w1 w2 -> registry_le w2 w3 -> registry_le w1 w3.
Proof. intros H12 H23 p key mode H. by apply H23, H12. Qed.

Lemma registry_le_same_maps w w' :
  syncMaps w' = syncMaps w -> registry_le w w'.
Proof. intros E p key mode. unfold Load, contents. by rewrite E. Qed.

Lemma Load_log p key e w : Load p key (log e w) = Load p key w.
Proof. reflexivity. Qed.

Lemma trace_log e w : trace (log e w) = trace w ++ [e].
Proof. reflexivity. Qed.

Lemma Load_LoadOrStore_absent p key mode w :
  Load p key w = None -> Load p key (LoadOrStore p key mode w) = Some mode.
Proof.
  intros Hnone. unfold LoadOrStore. rewrite Hnone.
  unfold Load, contents; simpl.
  rewrite lookup_insert_eq; simpl. by rewrite lookup_insert_eq.
Qed.

Lemma Load_LoadOrStore_present p key mode0 mode w :
  Load p key w = Some mode0 -> LoadOrStore p key mode w = w.
Proof. intros Hsome. unfold LoadOrStore. by rewrite Hsome. Qed.

Lemma LoadOrStore_grows q key' mode' w : registry_le w (LoadOrStore q key' mode' w).
Proof.
  intros p key mode Hload. unfold LoadOrStore.
  destruct (Load q key' w) eqn:Hq; [done|].
  unfold Load, contents in *; simpl.
  destruct (decide (q = p)) as [->|Hne].
  - rewrite lookup_insert_eq; simpl.
    destruct (decide (key' = key)) as [->|Hk]; [congruence|].
    by rewrite lookup_insert_ne.
  - by rewrite lookup_insert_ne.
Qed.

Lemma new_syncMap_grows w : registry_le w (snd (new_syncMap w)).
Proof.
  intros p key mode. unfold new_syncMap, Load, contents; simpl.
  destruct (syncMaps w !! p) as [m|] eqn:Hp; simpl; [intros Hload|by rewrite lookup_empty].
  rewrite lookup_insert_ne; [by rewrite Hp|].
  intros Heq. assert (Hin : p ∈ dom (syncMaps w)) by (apply elem_of_dom; eauto).
  rewrite <- Heq in Hin. by apply is_fresh in Hin.
Qed.

Lemma grows_ret {A} (a : A) : grows (ret a).
Proof. intros w. apply registry_le_refl. Qed.

Lemma grows_fail {A} e : grows (@fail World A e).
Proof. intros w. apply registry_le_refl. Qed.

Lemma grows_panic {A} : grows (@panic World A).
Proof. intros w. apply registry_le_refl. Qed.

Lemma grows_read {A} (f : World -> A) : grows (read f).
Proof. intros w. apply registry_le_refl. Qed.

Lemma grows_bind {A B} (c : Go World A) (k : A -> Go World B) :
  grows c -> (forall a, grows (k a)) -> grows (bind c k).
Proof.
  intros Hc Hk w. unfold bind. specialize (Hc w).
  destruct (c w) as [[a|e|] w']; simpl in *; [|done..].
  eapply registry_le_trans; [exact Hc|apply Hk].
Qed.

Lemma grows_LoadOrStore p key mode : grows (modify (LoadOrStore p key mode)).
Proof. intros w. apply LoadOrStore_grows. Qed.

Lemma grows_SendMsg st m : grows (SendMsg st m).
Proof. intros w. unfold SendMsg. by case_match; apply registry_le_same_maps. Qed.

Lemma grows_RecvMsg st holder : grows (RecvMsg st holder).
Proof. intros w. unfold RecvMsg. by case_match; apply registry_le_same_maps. Qed.

Lemma grows_Close st : grows (Close st).
Proof. intros w. unfold Close. by case_match; apply registry_le_same_maps. Qed.

Lemma grows_new_syncMap :
  grows (fun w => let (p, w') := new_syncMap w in (Ok (Some p), w')).
Proof.
  intros w. pose proof (new_syncMap_grows w) as H.
  by destruct (new_syncMap w).
Qed.

Lemma grows_getStream_open (tp : Transport) ctx method :
  grows (fun w =>
           let w' := log (EvStream ctx method) w in
           match tp_Stream tp (trace w) ctx method with
           | Some err => (Err err, w')
           | None => (Ok {| stream_id := length (trace w); stream_tp := tp |}, w')
           end).
Proof. intros w. simpl. by case_match; apply registry_le_same_maps. Qed.

Create HintDb grows discriminated.
#[local] Hint Resolve grows_ret grows_fail grows_panic grows_read grows_LoadOrStore
  grows_SendMsg grows_RecvMsg grows_Close grows_new_syncMap grows_getStream_open : grows.

(** Decompose a computation along its binds and case distinctions. *)
Ltac grows_step :=
  first [ solve [auto with grows]
        | apply grows_bind; [|intros ?]
        | case_match ].

Ltac solve_grows := repeat grows_step.

Lemma grows_NewArgs mi : grows (NewArgs mi).
Proof. unfold NewArgs. solve_grows. Qed.

Lemma grows_NewResult mi : grows (NewResult mi).
Proof. unfold NewResult. solve_grows. Qed.

Lemma grows_assert_Args v : grows (assert_Args v).
Proof. unfold assert_Args. solve_grows. Qed.

Lemma grows_assert_Result v : grows (assert_Result v).
Proof. unfold assert_Result. solve_grows. Qed.

#[local] Hint Resolve grows_NewArgs grows_NewResult grows_assert_Args
  grows_assert_Result : grows.

Lemma grows_Methods_at svc key : grows (Methods_at svc key).
Proof. intros w. unfold Methods_at. case_match; apply registry_le_refl. Qed.

Lemma grows_set_GenericMethod svc f : grows (set_GenericMethod svc f).
Proof.
  intros w. unfold set_GenericMethod.
  case_match; [by apply registry_le_same_maps|apply registry_le_refl].
Qed.

Lemma grows_new_ServiceInfo obj : grows (new_ServiceInfo obj).
Proof. intros w. by apply registry_le_same_maps. Qed.

Lemma grows_looked_up (l : World -> lookup) : grows (modify (fun w => looked_up (l w) w)).
Proof. intros w. by apply registry_le_same_maps. Qed.

#[local] Hint Resolve grows_Methods_at grows_set_GenericMethod grows_new_ServiceInfo
  grows_looked_up : grows.

Lemma grows_GenericMethod_func g0 mp svc name : grows (GenericMethod_func g0 mp svc name).
Proof. unfold GenericMethod_func. solve_grows. Qed.

Lemma grows_hook_answer svc name : grows (hook_answer svc name).
Proof.
  intros w. unfold hook_answer.
  destruct (svcInfos w !! svc) as [obj|]; [|apply registry_le_refl].
  destruct (GenericMethod obj); [apply grows_GenericMethod_func|apply registry_le_refl].
Qed.

Lemma grows_ServiceInfo_MethodInfo svc name : grows (ServiceInfo_MethodInfo svc name).
Proof.
  unfold ServiceInfo_MethodInfo.
  apply grows_bind; [apply grows_hook_answer|intros mi].
  apply grows_bind; [|intros _; apply grows_ret].
  exact (grows_looked_up (fun w => {| lk_time := length (trace w); lk_svcInfo := svc;
                                      lk_name := name; lk_result := mi |})).
Qed.

Lemma grows_getStream ctx genericCli method callOpts :
  grows (getStream ctx genericCli method callOpts).
Proof. unfold getStream. solve_grows. Qed.

Lemma grows_recordMode gCli method mode : grows (recordMode gCli method mode).
Proof. unfold recordMode. solve_grows. Qed.

#[local] Hint Resolve grows_ServiceInfo_MethodInfo grows_getStream grows_recordMode : grows.

Lemma grows_NewStreamingClientWithServiceInfo destService g0 svc opts :
  grows (NewStreamingClientWithServiceInfo destService g0 svc opts).
Proof. unfold NewStreamingClientWithServiceInfo. solve_grows. Qed.

Lemma grows_NewStreamingClient destService g0 opts :
  grows (NewStreamingClient destService g0 opts).
Proof.
  unfold NewStreamingClient.
  apply grows_bind; [apply grows_new_ServiceInfo|intros p].
  apply grows_NewStreamingClientWithServiceInfo.
Qed.

Lemma grows_NewClientStreaming ctx genericCli method callOpts :
  grows (NewClientStreaming ctx genericCli method callOpts).
Proof. unfold NewClientStreaming. solve_grows. Qed.

Lemma grows_NewServerStreaming ctx genericCli method req callOpts :
  grows (NewServerStreaming ctx genericCli method req callOpts).
Proof. unfold NewServerStreaming. solve_grows. Qed.

Lemma grows_NewBidirectionalStreaming ctx genericCli method callOpts :
  grows (NewBidirectionalStreaming ctx genericCli method callOpts).
Proof. unfold NewBidirectionalStreaming. solve_grows. Qed.

Lemma grows_cs_Send cs req : grows (deprecatedClientStreamingClient_Send cs req).
Proof. unfold deprecatedClientStreamingClient_Send. solve_grows. Qed.

Lemma grows_cs_CloseAndRecv cs : grows (deprecatedClientStreamingClient_CloseAndRecv cs).
Proof. unfold deprecatedClientStreamingClient_CloseAndRecv. solve_grows. Qed.

Lemma grows_ss_Recv ss : grows (deprecatedServerStreamingClient_Recv ss).
Proof. unfold deprecatedServerStreamingClient_Recv. solve_grows. Qed.

Lemma grows_bs_Send bs req : grows (deprecatedBidirectionalStreamingClient_Send bs req).
Proof. unfold deprecatedBidirectionalStreamingClient_Send. solve_grows. Qed.

Lemma grows_bs_Recv bs : grows (deprecatedBidirectionalStreamingClient_Recv bs).
Proof. unfold deprecatedBidirectionalStreamingClient_Recv. solve_grows. Qed.

#[local] Hint Resolve grows_NewStreamingClient
  grows_NewStreamingClientWithServiceInfo grows_NewClientStreaming
  grows_NewServerStreaming grows_NewBidirectionalStreaming grows_cs_Send
  grows_cs_CloseAndRecv grows_ss_Recv grows_bs_Send grows_bs_Recv : grows.

Lemma on_world_world {A} (c : Go World A) keep s :
  world_preserving keep -> world (snd (on_world c keep s)) = snd (c (world s)).
Proof.
  intros Hkeep. unfold on_world.
  destruct (c (world s)) as [[a|e|] w']; simpl; [by rewrite Hkeep|done..].
Qed.

Lemma on_world_result {A} (c : Go World A) keep s :
  fst (on_world c keep s) =
  match fst (c (world s)) with Ok _ => Ok tt | Err e => Err e | Panic => Panic end.
Proof. unfold on_world. by destruct (c (world s)) as [[a|e|] w']. Qed.



(** ** The operations, path by path *)

Lemma trace_LoadOrStore p key mode w : trace (LoadOrStore p key mode w) = trace w.
Proof. unfold LoadOrStore. by case_match. Qed.

Lemma recordMode_recorded gCli method mode w :
  recordMode gCli method mode w = (Ok tt, recorded gCli method mode w).
Proof. unfold recordMode, recorded. by destruct (modeMap gCli). Qed.

Lemma trace_recorded gCli method mode w : trace (recorded gCli method mode w) = trace w.
Proof. unfold recorded. destruct (modeMap gCli); [apply trace_LoadOrStore|done]. Qed.

Lemma svcInfos_LoadOrStore p key mode w : svcInfos (LoadOrStore p key mode w) = svcInfos w.
Proof. unfold LoadOrStore. by case_match. Qed.

Lemma lookups_LoadOrStore p key mode w : lookups (LoadOrStore p key mode w) = lookups w.
Proof. unfold LoadOrStore. by case_match. Qed.

Lemma svcInfos_recorded gCli method mode w :
  svcInfos (recorded gCli method mode w) = svcInfos w.
Proof. unfold recorded. destruct (modeMap gCli); [apply svcInfos_LoadOrStore|done]. Qed.

Lemma lookups_recorded gCli method mode w :
  lookups (recorded gCli method mode w) = lookups w.
Proof. unfold recorded. destruct (modeMap gCli); [apply lookups_LoadOrStore|done]. Qed.

Lemma Load_looked_up p key l w : Load p key (looked_up l w) = Load p key w.
Proof. reflexivity. Qed.

Lemma getStream_spec ctx gCli method callOpts tp w :
  as_Streaming (kClient gCli) = Some tp ->
  getStream ctx (GenericServiceClient gCli) method callOpts w =
  (match tp_Stream tp (trace w) (NewCtxWithCallOptions ctx callOpts) method with
   | Some err => Err err
   | None => Ok {| stream_id := length (trace w); stream_tp := tp |}
   end,
   log (EvStream (NewCtxWithCallOptions ctx callOpts) method) w).
Proof. intros Htp. unfold getStream. rewrite Htp. by case_match. Qed.

(** The outcome of acquiring a stream depends on the log only. *)
Lemma getStream_result_trace ctx genericCli method callOpts w1 w2 :
  trace w1 = trace w2 ->
  fst (getStream ctx genericCli method callOpts w1) =
  fst (getStream ctx genericCli method callOpts w2).
Proof.
  intros Htr. unfold getStream.
  destruct genericCli as [gCli|]; [|done].
  destruct (as_Streaming (kClient gCli)); [|done].
  rewrite Htr. by case_match.
Qed.

(** The hook only reads. *)
Lemma GenericMethod_func_reads g0 mp svc name w :
  snd (GenericMethod_func g0 mp svc name w) = w.
Proof.
  unfold GenericMethod_func, Methods_at, bind, read, ret, panic.
  destruct (HasIDLInfo g0); simpl.
  - destruct (GetMethod g0 name); by destruct (svcInfos w !! svc).
  - destruct mp; [|done]. by destruct (svcInfos w !! svc).
Qed.

Lemma hook_answer_reads svc name w : snd (hook_answer svc name w) = w.
Proof.
  unfold hook_answer.
  destruct (svcInfos w !! svc) as [obj|]; [|done].
  destruct (GenericMethod obj); [apply GenericMethod_func_reads|done].
Qed.

(** A lookup through the service info: what the hook answers, put on
    record. *)
Lemma ServiceInfo_MethodInfo_spec svc name w :
  ServiceInfo_MethodInfo svc name w =
  match fst (hook_answer svc name w) with
  | Ok mi => (Ok mi, looked_up {| lk_time := length (trace w); lk_svcInfo := svc;
                                  lk_name := name; lk_result := mi |} w)
  | Err e => (Err e, w)
  | Panic => (Panic, w)
  end.
Proof.
  unfold ServiceInfo_MethodInfo, bind, modify, ret.
  pose proof (hook_answer_reads svc name w) as Hreads.
  destruct (hook_answer svc name w) as [[mi|e|] w']; simpl in *; by subst.
Qed.

(** What the three factories share: registration, acquisition, resolution. *)
Lemma factory_prefix {A} gCli ctx method mode callOpts (k : Stream -> MethodInfo -> Go World A) w :
  bind (recordMode gCli method mode) (fun _ =>
    bind (getStream ctx (GenericServiceClient gCli) method callOpts) (fun stream =>
      bind (ServiceInfo_MethodInfo (svcInfo gCli) method) (fun mi => k stream mi))) w =
  let ctx' := NewCtxWithCallOptions ctx callOpts in
  let sid := length (trace w) in
  let w1 := recorded gCli method mode w in
  let w2 := log (EvStream ctx' method) w1 in
  match as_Streaming (kClient gCli) with
  | None => (Err ErrNotSupportStreaming, w1)
  | Some tp =>
      match tp_Stream tp (trace w) ctx' method with
      | Some err => (Err err, w2)
      | None =>
          match fst (hook_answer (svcInfo gCli) method w2) with
          | Ok mi => k {| stream_id := sid; stream_tp := tp |} mi
                       (looked_up (lookup_for sid (svcInfo gCli) method mi) w2)
          | Err e => (Err e, w2)
          | Panic => (Panic, w2)
          end
      end
  end.
Proof.
  unfold bind at 1. rewrite recordMode_recorded.
  destruct (as_Streaming (kClient gCli)) as [tp|] eqn:Htp.
  - unfold bind at 1. rewrite (getStream_spec _ _ _ _ tp) by done.
    rewrite trace_recorded. cbv zeta.
    destruct (tp_Stream tp (trace w) _ method); [done|].
    unfold bind. rewrite ServiceInfo_MethodInfo_spec.
    assert (Hlen : length (trace (log (EvStream (NewCtxWithCallOptions ctx callOpts) method)
                                    (recorded gCli method mode w))) = S (length (trace w))).
    { rewrite trace_log, length_app, trace_recorded. simpl. lia. }
    rewrite Hlen. by destruct (fst (hook_answer _ _ _)).
  - unfold bind, getStream. by rewrite Htp.
Qed.

Lemma NewClientStreaming_paths ctx gCli method callOpts w :
  NewClientStreaming ctx (GenericServiceClient gCli) method callOpts w =
  let ctx' := NewCtxWithCallOptions ctx callOpts in
  let sid := length (trace w) in
  let w1 := recorded gCli method StreamingClient w in
  let w2 := log (EvStream ctx' method) w1 in
  match as_Streaming (kClient gCli) with
  | None => (Err ErrNotSupportStreaming, w1)
  | Some tp =>
      match tp_Stream tp (trace w) ctx' method with
      | Some err => (Err err, w2)
      | None =>
          match fst (hook_answer (svcInfo gCli) method w2) with
          | Ok mi => (Ok {| cs_Stream := {| stream_id := sid; stream_tp := tp |};
                            cs_method := method; cs_methodInfo := mi |},
                      looked_up (lookup_for sid (svcInfo gCli) method mi) w2)
          | Err e => (Err e, w2)
          | Panic => (Panic, w2)
          end
      end
  end.
Proof.
  unfold NewClientStreaming.
  exact (factory_prefix gCli ctx method StreamingClient callOpts
           (fun stream mi => ret {| cs_Stream := stream; cs_method := method;
                                    cs_methodInfo := mi |}) w).
Qed.

Lemma NewBidirectionalStreaming_paths ctx gCli method callOpts w :
  NewBidirectionalStreaming ctx (GenericServiceClient gCli) method callOpts w =
  let ctx' := NewCtxWithCallOptions ctx callOpts in
  let sid := length (trace w) in
  let w1 := recorded gCli method StreamingBidirectional w in
  let w2 := log (EvStream ctx' method) w1 in
  match as_Streaming (kClient gCli) with
  | None => (Err ErrNotSupportStreaming, w1)
  | Some tp =>
      match tp_Stream tp (trace w) ctx' method with
      | Some err => (Err err, w2)
      | None =>
          match fst (hook_answer (svcInfo gCli) method w2) with
          | Ok mi => (Ok {| bs_Stream := {| stream_id := sid; stream_tp := tp |};
                            bs_method := method; bs_methodInfo := mi |},
                      looked_up (lookup_for sid (svcInfo gCli) method mi) w2)
          | Err e => (Err e, w2)
          | Panic => (Panic, w2)
          end
      end
  end.
Proof.
  unfold NewBidirectionalStreaming.
  exact (factory_prefix gCli ctx method StreamingBidirectional callOpts
           (fun stream mi => ret {| bs_Stream := stream; bs_method := method;
                                    bs_methodInfo := mi |}) w).
Qed.

Lemma eager_send_close_paths stream mtInfo method req w :
  eager_send_close stream mtInfo method req w =
  let sid := stream_id stream in
  let tp := stream_tp stream in
  let request := {| Args_Method := method; Args_Request := req |} in
  let w3 := log (EvSendMsg sid request) w in
  let w4 := log (EvClose sid) w3 in
  match embedded mtInfo with
  | None => (Panic, w)
  | Some impl =>
      match impl_NewArgs impl with
      | any_Args _ =>
          match tp_SendMsg tp (trace w) sid request with
          | Some err => (Err err, w3)
          | None =>
              match tp_Close tp (trace w ++ [EvSendMsg sid request]) sid with
              | Some err => (Err err, w4)
              | None => (Ok {| ss_Stream := stream; ss_methodInfo := mtInfo |}, w4)
              end
          end
      | _ => (Panic, w)
      end
  end.
Proof.
  unfold eager_send_close, bind, NewArgs.
  destruct (embedded mtInfo) as [impl|]; [|done]. unfold ret at 1.
  destruct (impl_NewArgs impl) as [a| |]; try done. unfold assert_Args, ret at 1.
  unfold SendMsg, Close, set_Request, set_Method; simpl.
  destruct (tp_SendMsg _ _ _ _); [done|].
  by destruct (tp_Close _ _ _).
Qed.

Lemma NewServerStreaming_paths ctx gCli method req callOpts w :
  NewServerStreaming ctx (GenericServiceClient gCli) method req callOpts w =
  let ctx' := NewCtxWithCallOptions ctx callOpts in
  let sid := length (trace w) in
  let w1 := recorded gCli method StreamingServer w in
  let w2 := log (EvStream ctx' method) w1 in
  match as_Streaming (kClient gCli) with
  | None => (Err ErrNotSupportStreaming, w1)
  | Some tp =>
      match tp_Stream tp (trace w) ctx' method with
      | Some err => (Err err, w2)
      | None =>
          match fst (hook_answer (svcInfo gCli) method w2) with
          | Ok mi =>
              eager_send_close {| stream_id := sid; stream_tp := tp |}
                mi method req (looked_up (lookup_for sid (svcInfo gCli) method mi) w2)
          | Err e => (Err e, w2)
          | Panic => (Panic, w2)
          end
      end
  end.
Proof.
  unfold NewServerStreaming.
  exact (factory_prefix gCli ctx method StreamingServer callOpts
           (fun stream mi => eager_send_close stream mi method req) w).
Qed.

Lemma Send_makes_Args mi st method req w :
  makes_Args mi ->
  bind (NewArgs mi) (fun v => bind (assert_Args v) (fun _args =>
    SendMsg st (set_Request (set_Method _args method) req))) w =
  (sent (tp_SendMsg (stream_tp st) (trace w) (stream_id st)
           {| Args_Method := method; Args_Request := req |}),
   log (EvSendMsg (stream_id st) {| Args_Method := method; Args_Request := req |}) w).
Proof.
  intros (impl & a & Hemb & Hargs).
  unfold bind, NewArgs. rewrite Hemb; simpl. rewrite Hargs; simpl.
  unfold SendMsg, set_Request, set_Method; simpl.
  destruct (tp_SendMsg _ _ _ _); reflexivity.
Qed.

Lemma Recv_makes_Result mi st holder w :
  makes_Result mi holder ->
  bind (NewResult mi) (fun v => bind (assert_Result v) (fun _result =>
    bind (RecvMsg st _result) (fun _result => ret (GetSuccess _result)))) w =
  (received (tp_RecvMsg (stream_tp st) (trace w) (stream_id st) holder),
   log (EvRecvMsg (stream_id st)) w).
Proof.
  intros (impl & Hemb & Hres).
  unfold bind, NewResult. rewrite Hemb; simpl. rewrite Hres; simpl.
  unfold RecvMsg; simpl.
  destruct (tp_RecvMsg _ _ _ _); reflexivity.
Qed.

Lemma Send_paths mi st method req w :
  bind (NewArgs mi) (fun v => bind (assert_Args v) (fun _args =>
    SendMsg st (set_Request (set_Method _args method) req))) w =
  let request := {| Args_Method := method; Args_Request := req |} in
  match embedded mi with
  | None => (Panic, w)
  | Some impl =>
      match impl_NewArgs impl with
      | any_Args _ =>
          (sent (tp_SendMsg (stream_tp st) (trace w) (stream_id st) request),
           log (EvSendMsg (stream_id st) request) w)
      | _ => (Panic, w)
      end
  end.
Proof.
  destruct (embedded mi) as [impl|] eqn:Hemb.
  - destruct (impl_NewArgs impl) as [a| |] eqn:Hargs.
    + apply Send_makes_Args. by exists impl, a.
    + unfold bind, NewArgs. rewrite Hemb. unfold ret. by rewrite Hargs.
    + unfold bind, NewArgs. rewrite Hemb. unfold ret. by rewrite Hargs.
  - unfold bind, NewArgs. by rewrite Hemb.
Qed.

Lemma Recv_paths mi st w :
  bind (NewResult mi) (fun v => bind (assert_Result v) (fun _result =>
    bind (RecvMsg st _result) (fun _result => ret (GetSuccess _result)))) w =
  match embedded mi with
  | None => (Panic, w)
  | Some impl =>
      match impl_NewResult impl with
      | any_Result holder =>
          (received (tp_RecvMsg (stream_tp st) (trace w) (stream_id st) holder),
           log (EvRecvMsg (stream_id st)) w)
      | _ => (Panic, w)
      end
  end.
Proof.
  destruct (embedded mi) as [impl|] eqn:Hemb.
  - destruct (impl_NewResult impl) as [|holder|] eqn:Hres.
    + unfold bind, NewResult. rewrite Hemb. unfold ret at 1. by rewrite Hres.
    + apply Recv_makes_Result. by exists impl.
    + unfold bind, NewResult. rewrite Hemb. unfold ret at 1. by rewrite Hres.
  - unfold bind, NewResult. by rewrite Hemb.
Qed.

Lemma cs_Send_spec cs req w :
  makes_Args (cs_methodInfo cs) ->
  deprecatedClientStreamingClient_Send cs req w =
  (sent (tp_SendMsg (stream_tp (cs_Stream cs)) (trace w) (stream_id (cs_Stream cs))
           {| Args_Method := cs_method cs; Args_Request := req |}),
   log (EvSendMsg (stream_id (cs_Stream cs))
          {| Args_Method := cs_method cs; Args_Request := req |}) w).
Proof. apply Send_makes_Args. Qed.

Lemma bs_Send_spec bs req w :
  makes_Args (bs_methodInfo bs) ->
  deprecatedBidirectionalStreamingClient_Send bs req w =
  (sent (tp_SendMsg (stream_tp (bs_Stream bs)) (trace w) (stream_id (bs_Stream bs))
           {| Args_Method := bs_method bs; Args_Request := req |}),
   log (EvSendMsg (stream_id (bs_Stream bs))
          {| Args_Method := bs_method bs; Args_Request := req |}) w).
Proof. apply Send_makes_Args. Qed.

Lemma ss_Recv_spec ss holder w :
  makes_Result (ss_methodInfo ss) holder ->
  deprecatedServerStreamingClient_Recv ss w =
  (received (tp_RecvMsg (stream_tp (ss_Stream ss)) (trace w) (stream_id (ss_Stream ss)) holder),
   log (EvRecvMsg (stream_id (ss_Stream ss))) w).
Proof. intros H. by apply Recv_makes_Result. Qed.

Lemma cs_CloseAndRecv_paths cs w :
  deprecatedClientStreamingClient_CloseAndRecv cs w =
  let sid := stream_id (cs_Stream cs) in
  let tp := stream_tp (cs_Stream cs) in
  let w1 := log (EvClose sid) w in
  match tp_Close tp (trace w) sid with
  | Some err => (Err err, w1)
  | None =>
      match embedded (cs_methodInfo cs) with
      | None => (Panic, w1)
      | Some impl =>
          match impl_NewResult impl with
          | any_Result holder =>
              (received (tp_RecvMsg tp (trace w ++ [EvClose sid]) sid holder),
               log (EvRecvMsg sid) w1)
          | _ => (Panic, w1)
          end
      end
  end.
Proof.
  unfold deprecatedClientStreamingClient_CloseAndRecv.
  unfold bind at 1, Close. cbv zeta.
  destruct (tp_Close _ _ _); [done|].
  by rewrite Recv_paths.
Qed.

Lemma cs_CloseAndRecv_closed cs holder w :
  makes_Result (cs_methodInfo cs) holder ->
  tp_Close (stream_tp (cs_Stream cs)) (trace w) (stream_id (cs_Stream cs)) = None ->
  deprecatedClientStreamingClient_CloseAndRecv cs w =
  (received (tp_RecvMsg (stream_tp (cs_Stream cs))
               (trace w ++ [EvClose (stream_id (cs_Stream cs))])
               (stream_id (cs_Stream cs)) holder),
   log (EvRecvMsg (stream_id (cs_Stream cs))) (log (EvClose (stream_id (cs_Stream cs))) w)).
Proof.
  intros Hres Hclose. unfold deprecatedClientStreamingClient_CloseAndRecv.
  unfold bind at 1. unfold Close. rewrite Hclose.
  by rewrite (Recv_makes_Result _ _ holder).
Qed.

Lemma cs_CloseAndRecv_close_error cs e w :
  tp_Close (stream_tp (cs_Stream cs)) (trace w) (stream_id (cs_Stream cs)) = Some e ->
  deprecatedClientStreamingClient_CloseAndRecv cs w =
  (Err e, log (EvClose (stream_id (cs_Stream cs))) w).
Proof.
  intros Hclose. unfold deprecatedClientStreamingClient_CloseAndRecv.
  unfold bind at 1. unfold Close. by rewrite Hclose.
Qed.

(** What a successful [NewClientStreaming] returns. *)
Lemma NewClientStreaming_Ok ctx genericCli method callOpts w cs w' :
  NewClientStreaming ctx genericCli method callOpts w = (Ok cs, w') ->
  exists gCli,
    genericCli = GenericServiceClient gCli /\
    cs_method cs = method /\
    stream_id (cs_Stream cs) = length (trace w) /\
    as_Streaming (kClient gCli) = Some (stream_tp (cs_Stream cs)) /\
    trace w' = trace w ++ [EvStream (NewCtxWithCallOptions ctx callOpts) method] /\
    lookups w' =
      lookups w ++ [lookup_for (length (trace w)) (svcInfo gCli) method (cs_methodInfo cs)].
Proof.
  destruct genericCli as [gCli|]; [|done].
  rewrite NewClientStreaming_paths. cbv zeta. intros Hnew. exists gCli.
  destruct (as_Streaming (kClient gCli)) as [tp|]; [|done].
  destruct (tp_Stream tp _ _ method); [done|].
  destruct (fst (hook_answer _ _ _)) as [mi|e|]; [|done..].
  injection Hnew as <- <-.
  cbn [cs_method cs_Stream cs_methodInfo stream_id stream_tp].
  repeat split; try done; cbn [trace lookups looked_up log logged].
  - by rewrite trace_recorded.
  - by rewrite lookups_recorded.
Qed.

(** ** Resolution *)

(** The selector of lines 102-113 picks, for each mode, the slot named after
    it. *)
Lemma selector_slot mode : getGenericStreamingMethodInfoKey mode = slot_named_after mode.
Proof. by destruct mode. Qed.

Lemma Methods_at_obj p obj key w :
  svcInfos w !! p = Some obj -> Methods_at p key w = (Ok (Methods obj key), w).
Proof. intros Hobj. unfold Methods_at. by rewrite Hobj. Qed.

(** While the client's own hook is the one installed, a lookup through its
    service info is answered by the client's own resolver. *)
Lemma hook_answer_installed gCli name w :
  installed gCli w -> hook_answer (svcInfo gCli) name w = resolve gCli name w.
Proof.
  intros (obj & Hobj & Hhook). unfold hook_answer, resolve.
  by rewrite Hobj, Hhook.
Qed.

Lemma resolve_recorded gCli mp name mode obj w :
  schema_absent gCli mp ->
  svcInfos w !! svcInfo gCli = Some obj ->
  Load mp name w = Some mode ->
  resolve gCli name w = (Ok (FromMethods (Methods obj (slot_named_after mode))), w).
Proof.
  intros (Hidl & Hmp) Hobj Hload.
  unfold resolve, GenericMethod_func. rewrite Hidl, Hmp; simpl.
  unfold bind, read. rewrite Hload, selector_slot.
  by rewrite (Methods_at_obj _ obj).
Qed.

Lemma resolve_unrecorded gCli mp name obj w :
  schema_absent gCli mp ->
  svcInfos w !! svcInfo gCli = Some obj ->
  Load mp name w = None ->
  resolve gCli name w = (Ok (FromMethods (Methods obj GenericMethod_key)), w).
Proof.
  intros (Hidl & Hmp) Hobj Hload.
  unfold resolve, GenericMethod_func. rewrite Hidl, Hmp; simpl.
  unfold bind, read. rewrite Hload.
  by rewrite (Methods_at_obj _ obj).
Qed.

Lemma serves_same_svcInfos p w w' :
  svcInfos w' = svcInfos w -> serves p w -> serves p w'.
Proof. intros E (obj & Hobj & H). exists obj. by rewrite E. Qed.

(** Over a generic method table every answer of a constructor's hook, and of
    no hook, is a descriptor that makes generic envelopes. *)
Lemma resolve_generic p name w :
  serves p w ->
  exists mi holder,
    hook_answer p name w = (Ok mi, w) /\
    makes_Args mi /\ makes_Result mi holder.
Proof.
  intros (obj & Hobj & Htable & Hhook).
  assert (Hslot : forall key, exists holder,
             makes_Args (FromMethods (Methods obj key)) /\
             makes_Result (FromMethods (Methods obj key)) holder /\
             (forall o, makes_Args (WithOneway (Methods obj key) o) /\
                        makes_Result (WithOneway (Methods obj key) o) holder)).
  { intros key. destruct (Htable key) as (impl & a & r & Hm & Ha & Hr).
    exists r. unfold makes_Args, makes_Result; simpl. rewrite Hm.
    split; [by exists impl, a|]. split; [by exists impl|].
    intros o. split; [by exists impl, a|by exists impl]. }
  unfold hook_answer. rewrite Hobj.
  destruct (GenericMethod obj) as [f|] eqn:Hf.
  - destruct (Hhook f eq_refl) as [Hp Hmp]. rewrite Hp.
    unfold GenericMethod_func, bind, read.
    destruct (HasIDLInfo (cap_g f)) eqn:Hidl; simpl.
    + destruct (GetMethod (cap_g f) name) as [n|err].
      * rewrite (Methods_at_obj _ obj) by done. unfold ret.
        destruct (Hslot (getGenericStreamingMethodInfoKey (Method_StreamingMode n)))
          as (holder & _ & _ & Hw).
        destruct (Hw (Method_Oneway n)). eauto.
      * rewrite (Methods_at_obj _ obj) by done. unfold ret.
        destruct (Hslot GenericMethod_key) as (holder & ? & ? & _). eauto.
    + destruct (cap_mp f) as [mp|]; [|by destruct Hmp].
      rewrite (Methods_at_obj _ obj) by done. unfold ret.
      destruct (Load mp name w) as [mode|].
      * destruct (Hslot (getGenericStreamingMethodInfoKey mode)) as (holder & ? & ? & _).
        eauto.
      * destruct (Hslot GenericMethod_key) as (holder & ? & ? & _). eauto.
  - destruct (Hslot GenericMethod_key) as (holder & ? & ? & _). eauto.
Qed.

(** C5.  Resolution by the hook of lines 79-97, over the method table of the
    service info it is closed over.  Without schema: a name with no recorded
    mode gets the default (unary) slot, a name with a recorded mode the slot
    named after that mode.  With schema: a failed lookup gets the default
    slot and no error, a successful one the slot named after its streaming
    mode, wrapped to carry the schema's oneway flag.  The default slot is
    the one mode None selects, and the selector of lines 102-113 sends each
    of the four modes to the slot named after it. *)
Theorem resolution_by_registry_or_schema g0 p obj name w :
  svcInfos w !! p = Some obj ->
  (forall mp, HasIDLInfo g0 = false -> Load mp name w = None ->
     GenericMethod_func g0 (Some mp) p name w =
       (Ok (FromMethods (Methods obj GenericMethod_key)), w)) /\
  (forall mp mode, HasIDLInfo g0 = false -> Load mp name w = Some mode ->
     GenericMethod_func g0 (Some mp) p name w =
       (Ok (FromMethods (Methods obj (slot_named_after mode))), w)) /\
  (forall mp err, HasIDLInfo g0 = true -> GetMethod g0 name = inr err ->
     GenericMethod_func g0 mp p name w =
       (Ok (FromMethods (Methods obj GenericMethod_key)), w)) /\
  (forall mp n, HasIDLInfo g0 = true -> GetMethod g0 name = inl n ->
     GenericMethod_func g0 mp p name w =
       (Ok (WithOneway (Methods obj (slot_named_after (Method_StreamingMode n)))
              (Method_Oneway n)), w)) /\
  slot_named_after StreamingNone = GenericMethod_key /\
  getGenericStreamingMethodInfoKey StreamingNone = GenericMethod_key /\
  getGenericStreamingMethodInfoKey StreamingClient = GenericClientStreamingMethod /\
  getGenericStreamingMethodInfoKey StreamingServer = GenericServerStreamingMethod /\
  getGenericStreamingMethodInfoKey StreamingBidirectional =
    GenericBidirectionalStreamingMethod.
Proof.
  intros Hobj. unfold GenericMethod_func, bind, read, ret.
  split; [|split; [|split; [|split]]].
  - intros mp Hidl Hload. rewrite Hidl; simpl. rewrite Hload.
    by rewrite (Methods_at_obj _ obj).
  - intros mp mode Hidl Hload. rewrite Hidl; simpl. rewrite Hload, selector_slot.
    by rewrite (Methods_at_obj _ obj).
  - intros mp err Hidl Hget. rewrite Hidl; simpl. rewrite Hget.
    by rewrite (Methods_at_obj _ obj).
  - intros mp n Hidl Hget. rewrite Hidl; simpl. rewrite Hget, selector_slot.
    by rewrite (Methods_at_obj _ obj).
  - done.
Qed.

(** ** What the operations do to the service infos *)

(** Computation [c] leaves the service infos alone. *)
Lemma svcInfos_bind {A B} (c : Go World A) (k : A -> Go World B) w :
  (forall w, svcInfos (snd (c w)) = svcInfos w) ->
  (forall a w, svcInfos (snd (k a w)) = svcInfos w) ->
  svcInfos (snd (bind c k w)) = svcInfos w.
Proof.
  intros Hc Hk. unfold bind. specialize (Hc w).
  destruct (c w) as [[a|e|] w']; simpl in *; [|done..].
  by rewrite Hk.
Qed.

Lemma svcInfos_Send mi st m req w :
  svcInfos (snd (bind (NewArgs mi) (fun v => bind (assert_Args v) (fun _args =>
    SendMsg st (set_Request (set_Method _args m) req))) w)) = svcInfos w.
Proof.
  rewrite Send_paths. cbv zeta.
  destruct (embedded mi) as [impl|]; [|done]. by destruct (impl_NewArgs impl).
Qed.

Lemma svcInfos_Recv mi st w :
  svcInfos (snd (bind (NewResult mi) (fun v => bind (assert_Result v)
    (fun _result => bind (RecvMsg st _result)
       (fun _result => ret (GetSuccess _result)))) w)) = svcInfos w.
Proof.
  rewrite Recv_paths.
  destruct (embedded mi) as [impl|]; [|done]. by destruct (impl_NewResult impl).
Qed.

Lemma svcInfos_cs_CloseAndRecv cs w :
  svcInfos (snd (deprecatedClientStreamingClient_CloseAndRecv cs w)) = svcInfos w.
Proof.
  rewrite cs_CloseAndRecv_paths. cbv zeta.
  destruct (tp_Close _ _ _); [done|].
  destruct (embedded (cs_methodInfo cs)) as [impl|]; [|done].
  by destruct (impl_NewResult impl).
Qed.

Lemma svcInfos_eager_send_close stream mtInfo method req w :
  svcInfos (snd (eager_send_close stream mtInfo method req w)) = svcInfos w.
Proof.
  rewrite eager_send_close_paths. cbv zeta.
  destruct (embedded mtInfo) as [impl|]; [|done].
  destruct (impl_NewArgs impl); try done.
  destruct (tp_SendMsg _ _ _ _); [done|]. by destruct (tp_Close _ _ _).
Qed.

Lemma svcInfos_factory_prefix {A} gCli ctx method mode callOpts
    (k : Stream -> MethodInfo -> Go World A) w :
  (forall stream mi w2, svcInfos (snd (k stream mi w2)) = svcInfos w2) ->
  svcInfos (snd (bind (recordMode gCli method mode) (fun _ =>
    bind (getStream ctx (GenericServiceClient gCli) method callOpts) (fun stream =>
      bind (ServiceInfo_MethodInfo (svcInfo gCli) method) (fun mi => k stream mi))) w)) =
  svcInfos w.
Proof.
  intros Hk. rewrite factory_prefix. cbv zeta.
  destruct (as_Streaming (kClient gCli)) as [tp|]; [|apply svcInfos_recorded].
  destruct (tp_Stream tp _ _ method); [apply svcInfos_recorded|].
  destruct (fst (hook_answer _ _ _)); [|apply svcInfos_recorded..].
  rewrite Hk. apply svcInfos_recorded.
Qed.

Lemma svcInfos_NewClientStreaming ctx genericCli method callOpts w :
  svcInfos (snd (NewClientStreaming ctx genericCli method callOpts w)) = svcInfos w.
Proof.
  destruct genericCli as [gCli|]; [|done]. unfold NewClientStreaming.
  exact (svcInfos_factory_prefix gCli ctx method StreamingClient callOpts
           (fun stream mi => ret {| cs_Stream := stream; cs_method := method;
                                    cs_methodInfo := mi |}) w (fun _ _ _ => eq_refl)).
Qed.

Lemma svcInfos_NewBidirectionalStreaming ctx genericCli method callOpts w :
  svcInfos (snd (NewBidirectionalStreaming ctx genericCli method callOpts w)) = svcInfos w.
Proof.
  destruct genericCli as [gCli|]; [|done]. unfold NewBidirectionalStreaming.
  exact (svcInfos_factory_prefix gCli ctx method StreamingBidirectional callOpts
           (fun stream mi => ret {| bs_Stream := stream; bs_method := method;
                                    bs_methodInfo := mi |}) w (fun _ _ _ => eq_refl)).
Qed.

Lemma svcInfos_NewServerStreaming ctx genericCli method req callOpts w :
  svcInfos (snd (NewServerStreaming ctx genericCli method req callOpts w)) = svcInfos w.
Proof.
  destruct genericCli as [gCli|]; [|done]. unfold NewServerStreaming.
  exact (svcInfos_factory_prefix gCli ctx method StreamingServer callOpts
           (fun stream mi => eager_send_close stream mi method req) w
           (fun stream mi w2 => svcInfos_eager_send_close stream mi method req w2)).
Qed.

(** The constructor, path by path. *)
Lemma NewStreamingClientWithServiceInfo_paths destService g0 p opts w :
  NewStreamingClientWithServiceInfo destService g0 p opts w =
  match client_NewClient w p (options_of destService g0 opts) with
  | inr err => (Err err, w)
  | inl kc =>
      let mp := if HasIDLInfo g0 then None else Some (fresh (dom (syncMaps w))) in
      let w1 := if HasIDLInfo g0 then w else snd (new_syncMap w) in
      match as_Streaming kc with
      | None => (Panic, w1)
      | Some tp =>
          match svcInfos w !! p with
          | None => (Panic, w1)
          | Some obj =>
              let f := {| cap_g := g0; cap_mp := mp; cap_svcInfo := p |} in
              (Ok (GenericServiceClient
                     {| svcInfo := p; kClient := kc; sClient := tp; g := g0; modeMap := mp |}),
               {| svcInfos := <[p := {| Methods := Methods obj; GenericMethod := Some f |}]>
                                (svcInfos w);
                  syncMaps := syncMaps w1; trace := trace w; lookups := lookups w |})
          end
      end
  end.
Proof.
  unfold NewStreamingClientWithServiceInfo, bind, read, ret, fail, panic, options_of.
  simpl.
  destruct (client_NewClient w p _) as [kc|err]; [|done].
  destruct (HasIDLInfo g0); simpl.
  - destruct (as_Streaming kc); [|done].
    unfold set_GenericMethod. by destruct (svcInfos w !! p).
  - destruct (as_Streaming kc); [|done].
    unfold set_GenericMethod; simpl. by destruct (svcInfos w !! p).
Qed.

(** The constructor writes the service info it is given and no other. *)
Lemma svcInfos_constructor_other destService g0 p opts w q :
  q <> p ->
  svcInfos (snd (NewStreamingClientWithServiceInfo destService g0 p opts w)) !! q =
  svcInfos w !! q.
Proof.
  intros Hne. rewrite NewStreamingClientWithServiceInfo_paths. cbv zeta.
  destruct (client_NewClient w p _) as [kc|err]; [|done].
  destruct (as_Streaming kc); [|by destruct (HasIDLInfo g0)].
  destruct (svcInfos w !! p); [|by destruct (HasIDLInfo g0)].
  simpl. by rewrite lookup_insert_ne.
Qed.

(** Whatever hook it installs, the constructor keeps the method table. *)
Lemma constructor_keeps_table destService g0 p opts w q obj :
  svcInfos w !! q = Some obj ->
  exists obj',
    svcInfos (snd (NewStreamingClientWithServiceInfo destService g0 p opts w)) !! q =
      Some obj' /\
    Methods obj' = Methods obj.
Proof.
  intros Hobj. destruct (decide (q = p)) as [->|Hne].
  - rewrite NewStreamingClientWithServiceInfo_paths. cbv zeta.
    destruct (client_NewClient w p _) as [kc|err]; [|by exists obj].
    destruct (as_Streaming kc); [|exists obj; by destruct (HasIDLInfo g0)].
    rewrite Hobj. simpl. rewrite lookup_insert_eq. by eexists.
  - exists obj. by rewrite svcInfos_constructor_other.
Qed.

Lemma svcInfos_NewStreamingClient_other destService g0 opts w q :
  q ∈ dom (svcInfos w) ->
  svcInfos (snd (NewStreamingClient destService g0 opts w)) !! q = svcInfos w !! q.
Proof.
  intros Hq. unfold NewStreamingClient, bind, new_ServiceInfo.
  set (p := fresh (dom (svcInfos w))).
  assert (Hne : q <> p).
  { intros ->. by apply (is_fresh (dom (svcInfos w))). }
  rewrite svcInfos_constructor_other by done.
  simpl. by rewrite lookup_insert_ne.
Qed.

(** No step of a caller changes the method table of a service info; a step
    that is not a constructor call over it leaves its hook too. *)
Lemma step_svcInfos a s p obj :
  svcInfos (world s) !! p = Some obj ->
  exists obj',
    svcInfos (world (step a s)) !! p = Some obj' /\
    Methods obj' = Methods obj /\
    (keeps_hook p a -> obj' = obj).
Proof.
  intros Hobj.
  assert (Hsame : svcInfos (world (step a s)) = svcInfos (world s) ->
                  exists obj', svcInfos (world (step a s)) !! p = Some obj' /\
                               Methods obj' = Methods obj /\ (keeps_hook p a -> obj' = obj)).
  { intros E. exists obj. by rewrite E. }
  destruct a; unfold step, perform, on_handle in *.
  - rewrite on_world_world by done.
    exists obj. rewrite svcInfos_NewStreamingClient_other; [done|].
    apply elem_of_dom; eauto.
  - rewrite on_world_world by done.
    destruct (constructor_keeps_table destService g0 svcInfo0 opts (world s) p obj Hobj)
      as (obj' & Hobj' & Hm).
    exists obj'. repeat (split; [done|]). simpl. intros Hne.
    rewrite svcInfos_constructor_other in Hobj' by done. congruence.
  - apply Hsame. rewrite on_world_world by done. apply svcInfos_NewClientStreaming.
  - apply Hsame. rewrite on_world_world by done. apply svcInfos_NewServerStreaming.
  - apply Hsame. rewrite on_world_world by done. apply svcInfos_NewBidirectionalStreaming.
  - apply Hsame. destruct (clientStreams s !! i); [|done].
    rewrite on_world_world by done. apply svcInfos_Send.
  - apply Hsame. destruct (clientStreams s !! i); [|done].
    rewrite on_world_world by done. apply svcInfos_cs_CloseAndRecv.
  - apply Hsame. destruct (serverStreams s !! i); [|done].
    rewrite on_world_world by done. apply svcInfos_Recv.
  - apply Hsame. destruct (bidiStreams s !! i); [|done].
    rewrite on_world_world by done. apply svcInfos_Send.
  - apply Hsame. destruct (bidiStreams s !! i); [|done].
    rewrite on_world_world by done. apply svcInfos_Recv.
Qed.

Lemma run_svcInfos acts s p obj :
  svcInfos (world s) !! p = Some obj ->
  exists obj',
    svcInfos (world (run acts s)) !! p = Some obj' /\
    Methods obj' = Methods obj /\
    (Forall (keeps_hook p) acts -> obj' = obj).
Proof.
  revert s obj. induction acts as [|a acts IH]; intros s obj Hobj; simpl.
  - by exists obj.
  - destruct (step_svcInfos a s p obj Hobj) as (obj1 & Hobj1 & Hm1 & Hk1).
    destruct (IH (step a s) obj1 Hobj1) as (obj' & Hobj' & Hm & Hk).
    exists obj'. split; [done|]. split; [congruence|].
    intros Hall. inversion Hall; subst. rewrite Hk by done. by apply Hk1.
Qed.

Lemma installed_run gCli acts s :
  installed gCli (world s) ->
  Forall (keeps_hook (svcInfo gCli)) acts ->
  installed gCli (world (run acts s)).
Proof.
  intros (obj & Hobj & Hhook) Hall.
  destruct (run_svcInfos acts s _ obj Hobj) as (obj' & Hobj' & _ & Hk).
  exists obj'. split; [done|]. by rewrite (Hk Hall).
Qed.

(** ** First write wins *)






Lemma recordMode_then_getStream_fails {A} gCli name mode ctx callOpts
    (k : Stream -> Go World A) e w :
  fst (getStream ctx (GenericServiceClient gCli) name callOpts w) = Err e ->
  fst (bind (recordMode gCli name mode)
         (fun _ => bind (getStream ctx (GenericServiceClient gCli) name callOpts) k) w) = Err e.
Proof.
  intros Hfail. unfold recordMode.
  destruct (modeMap gCli) as [mp|]; unfold bind at 1, modify, ret.
  - pose proof (getStream_result_trace ctx (GenericServiceClient gCli) name callOpts
                  (LoadOrStore mp name mode w) w (trace_LoadOrStore _ _ _ _)) as Heq.
    rewrite Hfail in Heq. unfold bind.
    set (r := getStream _ _ _ _ (LoadOrStore _ _ _ _)) in *.
    destruct r as [[st|e'|] w']; cbn [fst] in *; congruence.
  - unfold bind.
    set (r := getStream _ _ _ _ w) in *.
    destruct r as [[st|e'|] w']; cbn [fst] in *; congruence.
Qed.




(** ** Errors *)

Lemma factory_open_error {A} gCli tp ctx method mode callOpts (k : Stream -> Go World A) e w :
  as_Streaming (kClient gCli) = Some tp ->
  tp_Stream tp (trace w) (NewCtxWithCallOptions ctx callOpts) method = Some e ->
  fst (bind (recordMode gCli method mode)
         (fun _ => bind (getStream ctx (GenericServiceClient gCli) method callOpts) k) w) = Err e.
Proof.
  intros Htp Hopen. apply recordMode_then_getStream_fails.
  rewrite (getStream_spec _ _ _ _ tp) by done. by rewrite Hopen.
Qed.

(** [NewServerStreaming] on a client whose service info serves, over a
    streaming transport, path by path. *)
Lemma NewServerStreaming_spec ctx gCli method req callOpts tp w :
  serves (svcInfo gCli) w ->
  as_Streaming (kClient gCli) = Some tp ->
  let ctx' := NewCtxWithCallOptions ctx callOpts in
  let sid := length (trace w) in
  let request := {| Args_Method := method; Args_Request := req |} in
  let w1 := log (EvStream ctx' method) (recorded gCli method StreamingServer w) in
  exists mi holder,
    makes_Args mi /\ makes_Result mi holder /\
    hook_answer (svcInfo gCli) method w1 = (Ok mi, w1) /\
    let w2 := looked_up (lookup_for sid (svcInfo gCli) method mi) w1 in
    let w3 := log (EvSendMsg sid request) w2 in
    let w4 := log (EvClose sid) w3 in
    NewServerStreaming ctx (GenericServiceClient gCli) method req callOpts w =
    match tp_Stream tp (trace w) ctx' method with
    | Some err => (Err err, w1)
    | None =>
        match tp_SendMsg tp (trace w ++ [EvStream ctx' method]) sid request with
        | Some err => (Err err, w3)
        | None =>
            match tp_Close tp (trace w ++ [EvStream ctx' method; EvSendMsg sid request]) sid with
            | Some err => (Err err, w4)
            | None => (Ok {| ss_Stream := {| stream_id := sid; stream_tp := tp |};
                             ss_methodInfo := mi |}, w4)
            end
        end
    end.
Proof.
  intros Hserves Htp ctx' sid request w1.
  assert (Hserves1 : serves (svcInfo gCli) w1).
  { apply (serves_same_svcInfos _ w); [|done]. apply svcInfos_recorded. }
  destruct (resolve_generic (svcInfo gCli) method w1 Hserves1)
    as (mi & holder & Hmi & Ha & Hr).
  exists mi, holder. repeat (split; [done|]). intros w2 w3 w4.
  rewrite NewServerStreaming_paths. cbv zeta. rewrite Htp. fold ctx' sid w1.
  destruct (tp_Stream tp (trace w) ctx' method); [done|].
  rewrite Hmi. cbn [fst]. fold w2. rewrite eager_send_close_paths. cbv zeta.
  cbn [stream_id stream_tp]. fold request w3 w4.
  destruct Ha as (impl & a & -> & ->).
  assert (trace w2 = trace w ++ [EvStream ctx' method]) as ->.
  { unfold w2, w1. cbn [trace looked_up log logged]. by rewrite trace_recorded. }
  by rewrite <- app_assoc.
Qed.

(** C6.  Each of the three factories, called on a client that is not a
    generic streaming client, returns the invalid-client error and leaves the
    world as it was: no stream is opened, nothing is sent, nothing is
    recorded.  On a generic client the transport's errors come back
    unchanged: the error of a failed stream opening from each factory, and
    from the server-streaming constructor, on a client whose service info
    has a generic method table, also the error of the initial send and of
    the end-of-send. *)
Theorem invalid_client_no_io ctx m (req : Payload) callOpts w :
  NewClientStreaming ctx OtherClient m callOpts w = (Err ErrInvalidClient, w) /\
  NewServerStreaming ctx OtherClient m req callOpts w = (Err ErrInvalidClient, w) /\
  NewBidirectionalStreaming ctx OtherClient m callOpts w = (Err ErrInvalidClient, w) /\
  let ctx' := NewCtxWithCallOptions ctx callOpts in
  let sid := length (trace w) in
  let request := {| Args_Method := m; Args_Request := req |} in
  (forall gCli tp e,
     as_Streaming (kClient gCli) = Some tp ->
     tp_Stream tp (trace w) ctx' m = Some e ->
     fst (NewClientStreaming ctx (GenericServiceClient gCli) m callOpts w) = Err e /\
     fst (NewServerStreaming ctx (GenericServiceClient gCli) m req callOpts w) = Err e /\
     fst (NewBidirectionalStreaming ctx (GenericServiceClient gCli) m callOpts w) = Err e) /\
  (forall gCli tp e,
     serves (svcInfo gCli) w ->
     as_Streaming (kClient gCli) = Some tp ->
     tp_Stream tp (trace w) ctx' m = None ->
     tp_SendMsg tp (trace w ++ [EvStream ctx' m]) sid request = Some e ->
     fst (NewServerStreaming ctx (GenericServiceClient gCli) m req callOpts w) = Err e) /\
  (forall gCli tp e,
     serves (svcInfo gCli) w ->
     as_Streaming (kClient gCli) = Some tp ->
     tp_Stream tp (trace w) ctx' m = None ->
     tp_SendMsg tp (trace w ++ [EvStream ctx' m]) sid request = None ->
     tp_Close tp (trace w ++ [EvStream ctx' m; EvSendMsg sid request]) sid = Some e ->
     fst (NewServerStreaming ctx (GenericServiceClient gCli) m req callOpts w) = Err e).
Proof.
  repeat (split; [reflexivity|]). intros ctx' sid request.
  split; [|split].
  - intros gCli tp e Htp Hopen.
    repeat split; by eapply factory_open_error.
  - intros gCli tp e Hserves Htp Hopen Hsend.
    destruct (NewServerStreaming_spec ctx gCli m req callOpts tp w Hserves Htp)
      as (mi & holder & _ & _ & _ & Hspec).
    cbv zeta in Hspec. rewrite Hspec.
    fold ctx' sid request. by rewrite Hopen, Hsend.
  - intros gCli tp e Hserves Htp Hopen Hsend Hclose.
    destruct (NewServerStreaming_spec ctx gCli m req callOpts tp w Hserves Htp)
      as (mi & holder & _ & _ & _ & Hspec).
    cbv zeta in Hspec. rewrite Hspec.
    fold ctx' sid request. by rewrite Hopen, Hsend, Hclose.
Qed.

(** ** The handles' protocol *)

(** C2.  On the client-streaming handle that [NewClientStreaming] returned
    for method [m], the calls [Send(a); Send(b); CloseAndRecv()], made from
    any later world and with a close that succeeds, put on the raw stream
    exactly the two request envelopes [{m, a}] then [{m, b}], then the
    end-of-send, then exactly one read of a result envelope; what
    [CloseAndRecv] returns is the success payload of the envelope read (or the
    read's error). *)
Theorem client_streaming_send_send_close
    ctx genericCli m callOpts w0 cs w0' (a b : Payload) holder w :
  NewClientStreaming ctx genericCli m callOpts w0 = (Ok cs, w0') ->
  makes_Args (cs_methodInfo cs) ->
  makes_Result (cs_methodInfo cs) holder ->
  let sid := stream_id (cs_Stream cs) in
  let tp := stream_tp (cs_Stream cs) in
  let first := EvSendMsg sid {| Args_Method := m; Args_Request := a |} in
  let second := EvSendMsg sid {| Args_Method := m; Args_Request := b |} in
  tp_Close tp (trace w ++ [first; second]) sid = None ->
  and_then (deprecatedClientStreamingClient_Send cs a)
    (and_then (deprecatedClientStreamingClient_Send cs b)
       (deprecatedClientStreamingClient_CloseAndRecv cs)) w =
  (received (tp_RecvMsg tp (trace w ++ [first; second; EvClose sid]) sid holder),
   logged [first; second; EvClose sid; EvRecvMsg sid] w).
Proof.
  intros Hnew Hargs Hres sid tp first second Hclose.
  destruct (NewClientStreaming_Ok _ _ _ _ _ _ _ Hnew) as (gCli & _ & Hm & _).
  unfold and_then. rewrite !cs_Send_spec by done. cbn [snd].
  rewrite Hm. fold sid tp first second.
  assert (Htr : trace (log second (log first w)) = trace w ++ [first; second]).
  { rewrite !trace_log. by rewrite <- app_assoc. }
  rewrite (cs_CloseAndRecv_closed _ holder) by (by rewrite ?Htr).
  fold sid tp. rewrite Htr. f_equal.
  - by rewrite <- app_assoc.
  - unfold log, logged; simpl. f_equal. by rewrite <- !app_assoc.
Qed.

(** C4.  [CloseAndRecv] first signals end-of-send.  If that close returns an
    error, the operation returns this error and the close is the only call it
    made on the stream: no receive is attempted.  If the close succeeds (and
    the descriptor makes a result envelope) it goes on to exactly one receive.
    On every path the calls it makes are the close alone or the close followed
    by one receive. *)
Theorem close_error_skips_receive cs w :
  let sid := stream_id (cs_Stream cs) in
  let tp := stream_tp (cs_Stream cs) in
  (forall e, tp_Close tp (trace w) sid = Some e ->
     deprecatedClientStreamingClient_CloseAndRecv cs w = (Err e, log (EvClose sid) w)) /\
  (forall holder, tp_Close tp (trace w) sid = None ->
     makes_Result (cs_methodInfo cs) holder ->
     deprecatedClientStreamingClient_CloseAndRecv cs w =
     (received (tp_RecvMsg tp (trace w ++ [EvClose sid]) sid holder),
      log (EvRecvMsg sid) (log (EvClose sid) w))) /\
  (trace (snd (deprecatedClientStreamingClient_CloseAndRecv cs w)) = trace w ++ [EvClose sid] \/
   tp_Close tp (trace w) sid = None /\
   trace (snd (deprecatedClientStreamingClient_CloseAndRecv cs w)) =
     trace w ++ [EvClose sid; EvRecvMsg sid]).
Proof.
  intros sid tp. split; [|split].
  - intros e He. by apply cs_CloseAndRecv_close_error.
  - intros holder Hc Hr. by apply cs_CloseAndRecv_closed.
  - destruct (tp_Close tp (trace w) sid) as [e|] eqn:Hc.
    { left. by rewrite (cs_CloseAndRecv_close_error _ e). }
    destruct (embedded (cs_methodInfo cs)) as [impl|] eqn:Hemb.
    2: { left. unfold deprecatedClientStreamingClient_CloseAndRecv, bind, Close, NewResult.
         fold sid tp. by rewrite Hc, Hemb. }
    destruct (impl_NewResult impl) as [a|holder|] eqn:Hres.
    2: { right. split; [done|].
         rewrite (cs_CloseAndRecv_closed _ holder); [|by exists impl|done].
         simpl. by rewrite <- app_assoc. }
    all: left; unfold deprecatedClientStreamingClient_CloseAndRecv, bind, Close, NewResult;
      fold sid tp; rewrite Hc, Hemb; unfold ret at 1; by rewrite Hres.
Qed.

(** C3.  Constructing a server-streaming handle for [m] with request [r], on
    a client whose service info has a generic method table, when the
    transport accepts the three calls: the constructor returns a handle, and by then the
    log has grown by exactly the opening of the stream, one request envelope
    [{m, r}] on it, and its end-of-send, in that order.  The handle offers the
    caller no send; each [Recv] on it, from any later world, is exactly one
    read of a result envelope on that stream and returns its success payload
    (or the read's error). *)
Theorem server_streaming_construction ctx gCli m (r : Payload) callOpts tp w :
  serves (svcInfo gCli) w ->
  as_Streaming (kClient gCli) = Some tp ->
  let ctx' := NewCtxWithCallOptions ctx callOpts in
  let sid := length (trace w) in
  let request := {| Args_Method := m; Args_Request := r |} in
  tp_Stream tp (trace w) ctx' m = None ->
  tp_SendMsg tp (trace w ++ [EvStream ctx' m]) sid request = None ->
  tp_Close tp (trace w ++ [EvStream ctx' m; EvSendMsg sid request]) sid = None ->
  exists ss w' holder,
    NewServerStreaming ctx (GenericServiceClient gCli) m r callOpts w = (Ok ss, w') /\
    trace w' = trace w ++ [EvStream ctx' m; EvSendMsg sid request; EvClose sid] /\
    ss_Stream ss = {| stream_id := sid; stream_tp := tp |} /\
    forall w2,
      deprecatedServerStreamingClient_Recv ss w2 =
      (received (tp_RecvMsg tp (trace w2) sid holder), log (EvRecvMsg sid) w2).
Proof.
  intros Hserves Htp ctx' sid request Hopen Hsend Hclose.
  destruct (NewServerStreaming_spec ctx gCli m r callOpts tp w Hserves Htp)
    as (mi & holder & Ha & Hr & _ & Hspec).
  cbv zeta in Hspec.
  fold ctx' sid request in Hspec. rewrite Hopen, Hsend, Hclose in Hspec.
  eexists _, _, holder. split; [exact Hspec|].
  split.
  { cbn [trace looked_up log logged]. rewrite trace_recorded. by rewrite <- !app_assoc. }
  split; [done|].
  intros w2. by rewrite (ss_Recv_spec _ holder).
Qed.

(** ** Every request envelope names the method its descriptor was resolved
       with *)

Lemma opened_for_app tr evs sid m :
  opened_for tr sid m -> opened_for (tr ++ evs) sid m.
Proof. intros [ctx H]. exists ctx. by apply lookup_app_l_Some. Qed.

Lemma opened_for_here tr ctx m evs :
  opened_for (tr ++ EvStream ctx m :: evs) (length tr) m.
Proof. exists ctx. by rewrite list_lookup_middle. Qed.

Lemma resolved_for_more w w' lks sid mi m :
  lookups w' = lookups w ++ lks ->
  resolved_for w sid mi m -> resolved_for w' sid mi m.
Proof. intros E [p Hin]. exists p. rewrite E. apply elem_of_app. by left. Qed.

Lemma resolved_for_here w w' lks sid p mi m :
  lookups w' = lookups w ++ lookup_for sid p m mi :: lks ->
  resolved_for w' sid mi m.
Proof.
  intros E. exists p. rewrite E. apply elem_of_app. right. apply elem_of_cons. by left.
Qed.

(** The session goes on to a world with more calls on the log and, perhaps,
    one more lookup on record, made after the calls the log had. *)
Lemma session_ok_extend s w' evs lks :
  session_ok s ->
  trace w' = trace (world s) ++ evs ->
  lookups w' = lookups (world s) ++ lks ->
  (forall sid args, EvSendMsg sid args ∈ evs ->
     opened_for (trace w') sid (Args_Method args) /\
     exists mi, resolved_for w' sid mi (Args_Method args)) ->
  (lks = [] \/
   exists l, lks = [l] /\ length (trace (world s)) < lk_time l <= length (trace w')) ->
  session_ok (set_world w' s).
Proof.
  intros (Hrouted & (Hcs & Hss & Hbs) & Hle & Huniq) Htr Hlk Hevs Hlks.
  split; [|split; [split; [|split]|split]]; cbn [world set_world].
  - intros i sid args Hi. rewrite Htr in Hi.
    apply lookup_app_Some in Hi as [Hi|[_ Hi]].
    + destruct (Hrouted i sid args Hi) as [Hopen [mi Hres]]. split.
      * rewrite Htr. by apply opened_for_app.
      * exists mi. by eapply resolved_for_more.
    + apply Hevs. by eapply list_elem_of_lookup_2.
  - intros cs Hin. destruct (Hcs cs Hin). split.
    + rewrite Htr. by apply opened_for_app.
    + by eapply resolved_for_more.
  - intros ss Hin. destruct (Hss ss Hin) as (m & ? & ?). exists m. split.
    + rewrite Htr. by apply opened_for_app.
    + by eapply resolved_for_more.
  - intros bs Hin. destruct (Hbs bs Hin). split.
    + rewrite Htr. by apply opened_for_app.
    + by eapply resolved_for_more.
  - intros l Hin. rewrite Hlk in Hin. rewrite Htr, length_app.
    apply elem_of_app in Hin as [Hin|Hin].
    + specialize (Hle l Hin). lia.
    + destruct Hlks as [->|(l0 & -> & Hl0)]; [by apply elem_of_nil in Hin|].
      apply list_elem_of_singleton in Hin as ->.
      rewrite Htr, length_app in Hl0. lia.
  - intros l1 l2 Hin1 Hin2 Htime. rewrite Hlk in Hin1, Hin2.
    apply elem_of_app in Hin1 as [Hin1|Hin1]; apply elem_of_app in Hin2 as [Hin2|Hin2].
    + by apply Huniq.
    + destruct Hlks as [->|(l0 & -> & Hl0)]; [by apply elem_of_nil in Hin2|].
      apply list_elem_of_singleton in Hin2 as ->.
      specialize (Hle l1 Hin1). lia.
    + destruct Hlks as [->|(l0 & -> & Hl0)]; [by apply elem_of_nil in Hin1|].
      apply list_elem_of_singleton in Hin1 as ->.
      specialize (Hle l2 Hin2). lia.
    + destruct Hlks as [->|(l0 & -> & Hl0)]; [by apply elem_of_nil in Hin1|].
      apply list_elem_of_singleton in Hin1 as ->.
      by apply list_elem_of_singleton in Hin2 as ->.
Qed.

Lemma session_ok_same s w' :
  session_ok s ->
  trace w' = trace (world s) -> lookups w' = lookups (world s) ->
  session_ok (set_world w' s).
Proof.
  intros Hok Htr Hlk.
  apply (session_ok_extend s w' [] []); [done|by rewrite app_nil_r..| |by left].
  intros sid args Hin. by apply elem_of_nil in Hin.
Qed.

(** More calls on the log, none of them a send, and no lookup. *)
Lemma session_ok_quiet s w' evs :
  session_ok s ->
  trace w' = trace (world s) ++ evs -> lookups w' = lookups (world s) ->
  (forall sid args, EvSendMsg sid args ∉ evs) ->
  session_ok (set_world w' s).
Proof.
  intros Hok Htr Hlk Hquiet.
  apply (session_ok_extend s w' evs []); [done|done|by rewrite app_nil_r| |by left].
  intros sid args Hin. by apply Hquiet in Hin.
Qed.

Lemma session_ok_keep_cs s cs :
  session_ok s ->
  opened_for (trace (world s)) (stream_id (cs_Stream cs)) (cs_method cs) ->
  resolved_for (world s) (stream_id (cs_Stream cs)) (cs_methodInfo cs) (cs_method cs) ->
  session_ok (keep_cs cs s).
Proof.
  intros (Hrouted & (Hcs & Hss & Hbs) & Hord) Hopen Hres.
  split; [done|]. split; [|done]. split; [|done]; simpl.
  intros cs' [Hin| ->%list_elem_of_singleton]%elem_of_app; auto.
Qed.

Lemma session_ok_keep_ss s ss m :
  session_ok s ->
  opened_for (trace (world s)) (stream_id (ss_Stream ss)) m ->
  resolved_for (world s) (stream_id (ss_Stream ss)) (ss_methodInfo ss) m ->
  session_ok (keep_ss ss s).
Proof.
  intros (Hrouted & (Hcs & Hss & Hbs) & Hord) Hopen Hres.
  split; [done|]. split; [|done]. split; [done|]. split; [|done]; simpl.
  intros ss' [Hin| ->%list_elem_of_singleton]%elem_of_app; eauto.
Qed.

Lemma session_ok_keep_bs s bs :
  session_ok s ->
  opened_for (trace (world s)) (stream_id (bs_Stream bs)) (bs_method bs) ->
  resolved_for (world s) (stream_id (bs_Stream bs)) (bs_methodInfo bs) (bs_method bs) ->
  session_ok (keep_bs bs s).
Proof.
  intros (Hrouted & (Hcs & Hss & Hbs) & Hord) Hopen Hres.
  split; [done|]. split; [|done]. split; [done|]. split; [done|]; simpl.
  intros bs' [Hin| ->%list_elem_of_singleton]%elem_of_app; auto.
Qed.

Lemma trace_NewStreamingClientWithServiceInfo destService g0 svc opts w :
  trace (snd (NewStreamingClientWithServiceInfo destService g0 svc opts w)) = trace w.
Proof.
  rewrite NewStreamingClientWithServiceInfo_paths. cbv zeta.
  destruct (client_NewClient w svc _) as [kc|err]; [|done].
  destruct (as_Streaming kc); [|by destruct (HasIDLInfo g0)].
  destruct (svcInfos w !! svc); [done|by destruct (HasIDLInfo g0)].
Qed.

Lemma lookups_NewStreamingClientWithServiceInfo destService g0 svc opts w :
  lookups (snd (NewStreamingClientWithServiceInfo destService g0 svc opts w)) = lookups w.
Proof.
  rewrite NewStreamingClientWithServiceInfo_paths. cbv zeta.
  destruct (client_NewClient w svc _) as [kc|err]; [|done].
  destruct (as_Streaming kc); [|by destruct (HasIDLInfo g0)].
  destruct (svcInfos w !! svc); [done|by destruct (HasIDLInfo g0)].
Qed.

Lemma trace_NewStreamingClient destService g0 opts w :
  trace (snd (NewStreamingClient destService g0 opts w)) = trace w.
Proof.
  unfold NewStreamingClient, bind, new_ServiceInfo.
  by rewrite trace_NewStreamingClientWithServiceInfo.
Qed.

Lemma lookups_NewStreamingClient destService g0 opts w :
  lookups (snd (NewStreamingClient destService g0 opts w)) = lookups w.
Proof.
  unfold NewStreamingClient, bind, new_ServiceInfo.
  by rewrite lookups_NewStreamingClientWithServiceInfo.
Qed.

(** What the three factories share, on a session: after the registration
    the stream is opened, and a lookup that returns is put on record for the
    stream. *)
Lemma session_ok_factory_prefix s gCli ctx method mode :
  session_ok s ->
  let sid := length (trace (world s)) in
  let w1 := recorded gCli method mode (world s) in
  let w2 := log (EvStream ctx method) w1 in
  session_ok (set_world w1 s) /\
  session_ok (set_world w2 s) /\
  forall mi,
    let w3 := looked_up (lookup_for sid (svcInfo gCli) method mi) w2 in
    session_ok (set_world w3 s) /\
    opened_for (trace w3) sid method /\
    resolved_for w3 sid mi method.
Proof.
  intros Hok sid w1 w2.
  assert (Htr1 : trace w1 = trace (world s)) by apply trace_recorded.
  assert (Hlk1 : lookups w1 = lookups (world s)) by apply lookups_recorded.
  assert (Htr2 : trace w2 = trace (world s) ++ [EvStream ctx method]).
  { unfold w2. by rewrite trace_log, Htr1. }
  assert (Hquiet : forall sid' args, EvSendMsg sid' args ∉ [EvStream ctx method]).
  { by intros sid' args ?%list_elem_of_singleton. }
  split; [by apply session_ok_same|].
  split; [by apply (session_ok_quiet s w2 [EvStream ctx method])|].
  intros mi w3. split; [|split].
  - apply (session_ok_extend s w3 [EvStream ctx method]
             [lookup_for sid (svcInfo gCli) method mi]); [done|done| | |].
    + cbn [lookups w3 looked_up w2 log logged]. by rewrite Hlk1.
    + intros sid' args Hin. by apply Hquiet in Hin.
    + right. eexists. split; [done|].
      cbn [lk_time lookup_for trace w3 looked_up]. rewrite Htr2, length_app.
      simpl. unfold sid. lia.
  - cbn [trace w3 looked_up]. rewrite Htr2. apply opened_for_here.
  - apply (resolved_for_here (world s) w3 [] sid (svcInfo gCli)).
    cbn [lookups w3 looked_up w2 log logged]. by rewrite Hlk1.
Qed.

Lemma step_ok_NewClientStreaming ctx genericCli method callOpts s :
  session_ok s -> session_ok (step (act_NewClientStreaming ctx genericCli method callOpts) s).
Proof.
  intros Hok. unfold step, perform, on_world.
  destruct genericCli as [gCli|]; [|by apply session_ok_same].
  rewrite NewClientStreaming_paths. cbv zeta.
  destruct (session_ok_factory_prefix s gCli (NewCtxWithCallOptions ctx callOpts) method
              StreamingClient Hok) as (Hok1 & Hok2 & Hok3).
  destruct (as_Streaming (kClient gCli)) as [tp|]; [|done].
  destruct (tp_Stream tp _ _ method); [done|].
  destruct (fst (hook_answer _ _ _)) as [mi|e|]; [|done..].
  destruct (Hok3 mi) as (Hok' & Hopen & Hres).
  simpl. by apply session_ok_keep_cs.
Qed.

Lemma step_ok_NewBidirectionalStreaming ctx genericCli method callOpts s :
  session_ok s ->
  session_ok (step (act_NewBidirectionalStreaming ctx genericCli method callOpts) s).
Proof.
  intros Hok. unfold step, perform, on_world.
  destruct genericCli as [gCli|]; [|by apply session_ok_same].
  rewrite NewBidirectionalStreaming_paths. cbv zeta.
  destruct (session_ok_factory_prefix s gCli (NewCtxWithCallOptions ctx callOpts) method
              StreamingBidirectional Hok) as (Hok1 & Hok2 & Hok3).
  destruct (as_Streaming (kClient gCli)) as [tp|]; [|done].
  destruct (tp_Stream tp _ _ method); [done|].
  destruct (fst (hook_answer _ _ _)) as [mi|e|]; [|done..].
  destruct (Hok3 mi) as (Hok' & Hopen & Hres).
  simpl. by apply session_ok_keep_bs.
Qed.

(** A send of an envelope for [m] on a stream opened for [m] whose lookup
    was made with [m]. *)
Lemma session_ok_sent s sid mi m req :
  session_ok s ->
  opened_for (trace (world s)) sid m ->
  resolved_for (world s) sid mi m ->
  session_ok (set_world
                (log (EvSendMsg sid {| Args_Method := m; Args_Request := req |}) (world s)) s).
Proof.
  intros Hok Hopen Hres.
  eapply (session_ok_extend s _ _ []); [done|apply trace_log|by rewrite app_nil_r| |by left].
  intros sid' args [= -> ->]%list_elem_of_singleton. split.
  - rewrite trace_log. by apply opened_for_app.
  - by exists mi.
Qed.

Lemma session_ok_logged s e :
  session_ok s ->
  (forall sid args, e <> EvSendMsg sid args) ->
  session_ok (set_world (log e (world s)) s).
Proof.
  intros Hok Hquiet.
  apply (session_ok_quiet s _ [e]); [done|apply trace_log|done|].
  intros sid args ?%list_elem_of_singleton. by edestruct Hquiet.
Qed.

Lemma set_world_set_world w w' s : set_world w' (set_world w s) = set_world w' s.
Proof. reflexivity. Qed.

Lemma step_ok_NewServerStreaming ctx genericCli method req callOpts s :
  session_ok s ->
  session_ok (step (act_NewServerStreaming ctx genericCli method req callOpts) s).
Proof.
  intros Hok. unfold step, perform, on_world.
  destruct genericCli as [gCli|]; [|by apply session_ok_same].
  rewrite NewServerStreaming_paths. cbv zeta.
  set (ctx' := NewCtxWithCallOptions ctx callOpts).
  destruct (session_ok_factory_prefix s gCli ctx' method StreamingServer Hok)
    as (Hok1 & Hok2 & Hok3).
  destruct (as_Streaming (kClient gCli)) as [tp|]; [|done].
  destruct (tp_Stream tp _ _ method); [done|].
  destruct (fst (hook_answer _ _ _)) as [mi|e|]; [|done..].
  destruct (Hok3 mi) as (Hok' & Hopen & Hres). clear Hok1 Hok2 Hok3.
  set (sid := length (trace (world s))) in *.
  set (w3 := looked_up _ _) in *.
  rewrite eager_send_close_paths. cbv zeta. cbn [stream_id stream_tp].
  set (request := {| Args_Method := method; Args_Request := req |}).
  assert (Hsent : session_ok (set_world (log (EvSendMsg sid request) w3) s)).
  { exact (session_ok_sent (set_world w3 s) sid mi method req Hok' Hopen Hres). }
  assert (Hclosed : session_ok
            (set_world (log (EvClose sid) (log (EvSendMsg sid request) w3)) s)).
  { exact (session_ok_logged (set_world (log (EvSendMsg sid request) w3) s) (EvClose sid)
             Hsent ltac:(done)). }
  destruct (embedded mi) as [impl|]; [|done].
  destruct (impl_NewArgs impl); try done.
  destruct (tp_SendMsg tp _ sid request); [done|].
  destruct (tp_Close tp _ sid); [done|].
  simpl. apply (session_ok_keep_ss _ _ method); [done| |].
  - cbn [world set_world ss_Stream stream_id]. rewrite !trace_log.
    by do 2 apply opened_for_app.
  - by apply (resolved_for_more w3 _ []); [rewrite app_nil_r|].
Qed.

Lemma step_ok_Send s mi st m req :
  session_ok s ->
  opened_for (trace (world s)) (stream_id st) m ->
  resolved_for (world s) (stream_id st) mi m ->
  session_ok (snd (on_world
    (bind (NewArgs mi) (fun v => bind (assert_Args v) (fun _args =>
       SendMsg st (set_Request (set_Method _args m) req)))) forget s)).
Proof.
  intros Hok Hopen Hres. unfold on_world. rewrite Send_paths. cbv zeta.
  destruct (embedded mi) as [impl|]; [|by apply session_ok_same].
  destruct (impl_NewArgs impl); try by apply session_ok_same.
  destruct (tp_SendMsg _ _ _ _); simpl; by apply (session_ok_sent s _ mi).
Qed.

Lemma step_ok_Recv s mi st :
  session_ok s ->
  session_ok (snd (on_world
    (bind (NewResult mi) (fun v => bind (assert_Result v) (fun _result =>
       bind (RecvMsg st _result) (fun _result => ret (GetSuccess _result))))) forget s)).
Proof.
  intros Hok. unfold on_world. rewrite Recv_paths.
  destruct (embedded mi) as [impl|]; [|by apply session_ok_same].
  destruct (impl_NewResult impl); try by apply session_ok_same.
  destruct (tp_RecvMsg _ _ _ _); simpl; by apply session_ok_logged.
Qed.

Lemma step_ok_cs_CloseAndRecv s cs :
  session_ok s ->
  session_ok (snd (on_world (deprecatedClientStreamingClient_CloseAndRecv cs) forget s)).
Proof.
  intros Hok. unfold on_world. rewrite cs_CloseAndRecv_paths. cbv zeta.
  set (sid := stream_id (cs_Stream cs)).
  assert (Hclosed : session_ok (set_world (log (EvClose sid) (world s)) s))
    by by apply session_ok_logged.
  assert (Hread : session_ok
            (set_world (log (EvRecvMsg sid) (log (EvClose sid) (world s))) s)).
  { exact (session_ok_logged (set_world (log (EvClose sid) (world s)) s) (EvRecvMsg sid)
             Hclosed ltac:(done)). }
  destruct (tp_Close _ _ _); [done|].
  destruct (embedded (cs_methodInfo cs)) as [impl|]; [|done].
  destruct (impl_NewResult impl); try done.
  by destruct (tp_RecvMsg _ _ _ _).
Qed.

Lemma step_ok a s : session_ok s -> session_ok (step a s).
Proof.
  intros Hok. destruct a.
  - unfold step, perform, on_world.
    pose proof (trace_NewStreamingClient destService g0 opts (world s)) as Htr.
    pose proof (lookups_NewStreamingClient destService g0 opts (world s)) as Hlk.
    destruct (NewStreamingClient _ _ _ _) as [[c|e|] w'];
      by apply session_ok_same.
  - unfold step, perform, on_world.
    pose proof (trace_NewStreamingClientWithServiceInfo destService g0 svcInfo0 opts (world s))
      as Htr.
    pose proof (lookups_NewStreamingClientWithServiceInfo destService g0 svcInfo0 opts
                  (world s)) as Hlk.
    destruct (NewStreamingClientWithServiceInfo _ _ _ _ _) as [[c|e|] w'];
      by apply session_ok_same.
  - by apply step_ok_NewClientStreaming.
  - by apply step_ok_NewServerStreaming.
  - by apply step_ok_NewBidirectionalStreaming.
  - unfold step, perform, on_handle.
    destruct (clientStreams s !! i) as [cs|] eqn:Hi; [|done].
    apply list_elem_of_lookup_2 in Hi.
    destruct Hok as (Hrouted & (Hcs & Hss & Hbs) & Hord).
    destruct (Hcs cs Hi). by apply step_ok_Send.
  - unfold step, perform, on_handle.
    destruct (clientStreams s !! i) as [cs|]; [|done].
    by apply step_ok_cs_CloseAndRecv.
  - unfold step, perform, on_handle.
    destruct (serverStreams s !! i) as [ss|]; [|done].
    by apply step_ok_Recv.
  - unfold step, perform, on_handle.
    destruct (bidiStreams s !! i) as [bs|] eqn:Hi; [|done].
    apply list_elem_of_lookup_2 in Hi.
    destruct Hok as (Hrouted & (Hcs & Hss & Hbs) & Hord).
    destruct (Hbs bs Hi). by apply step_ok_Send.
  - unfold step, perform, on_handle.
    destruct (bidiStreams s !! i) as [bs|]; [|done].
    by apply step_ok_Recv.
Qed.

Lemma run_ok acts s : session_ok s -> session_ok (run acts s).
Proof.
  revert s. induction acts as [|a acts IH]; intros s Hok; simpl; [done|].
  by apply IH, step_ok.
Qed.

Lemma handles_generic_initial s :
  clientStreams s = [] -> serverStreams s = [] -> bidiStreams s = [] ->
  handles_generic s.
Proof.
  intros Hcs Hss Hbs. split; [|split].
  - rewrite Hcs. by intros cs ?%elem_of_nil.
  - rewrite Hss. by intros ss ?%elem_of_nil.
  - rewrite Hbs. by intros bs ?%elem_of_nil.
Qed.

(** A caller that has made no call yet. *)
Lemma session_ok_initial s :
  trace (world s) = [] -> lookups (world s) = [] ->
  clientStreams s = [] -> serverStreams s = [] -> bidiStreams s = [] ->
  session_ok s.
Proof.
  intros Htr Hlk Hcs Hss Hbs. split; [|split; [split; [|split]|split]]; simpl.
  - intros i sid args Hi. rewrite Htr in Hi. by rewrite lookup_nil in Hi.
  - rewrite Hcs. by intros cs ?%elem_of_nil.
  - rewrite Hss. by intros ss ?%elem_of_nil.
  - rewrite Hbs. by intros bs ?%elem_of_nil.
  - rewrite Hlk. by intros l ?%elem_of_nil.
  - rewrite Hlk. by intros l1 l2 ?%elem_of_nil.
Qed.

(** C7.  Whatever calls a caller makes and in whatever order, every request
    envelope in the log of the transport - written by [Send] on a
    client-streaming handle, by [Send] on a bidirectional handle, or by the
    server-streaming constructor - carries in its method field the method
    name the descriptor lookup for its stream was made with, which is also
    the name the stream was opened for.  Every handle held has as descriptor
    what that lookup returned, and the client-streaming and bidirectional
    handles keep that name.  The lookup for a stream is the only one: two
    lookups on record for the same stream are one, so the name and the
    descriptor are tied to each other. *)
Theorem request_envelopes_name_their_method s acts :
  session_ok s ->
  let s' := run acts s in
  let w' := world s' in
  (forall i sid args,
     trace w' !! i = Some (EvSendMsg sid args) ->
     (exists ctx, trace w' !! sid = Some (EvStream ctx (Args_Method args))) /\
     (exists p mi, lookup_for sid p (Args_Method args) mi ∈ lookups w')) /\
  handles_for_method s' /\
  (forall sid p1 m1 mi1 p2 m2 mi2,
     lookup_for sid p1 m1 mi1 ∈ lookups w' ->
     lookup_for sid p2 m2 mi2 ∈ lookups w' ->
     p1 = p2 /\ m1 = m2 /\ mi1 = mi2).
Proof.
  intros Hok s' w'.
  destruct (run_ok acts s Hok) as (Hrouted & Hhandles & _ & Huniq).
  split; [|split; [done|]].
  - intros i sid args Hi. destruct (Hrouted i sid args Hi) as [Hopen [mi [p Hres]]].
    split; [done|]. by exists p, mi.
  - intros sid p1 m1 mi1 p2 m2 mi2 H1 H2.
    by injection (Huniq _ _ H1 H2 eq_refl) as -> -> ->.
Qed.

(** ** What the constructor builds *)

Lemma NewStreamingClientWithServiceInfo_constructs destService g0 p opts kc tp obj w :
  client_NewClient w p (options_of destService g0 opts) = inl kc ->
  as_Streaming kc = Some tp ->
  svcInfos w !! p = Some obj ->
  exists gCli w',
    NewStreamingClientWithServiceInfo destService g0 p opts w =
      (Ok (GenericServiceClient gCli), w') /\
    installed gCli w' /\
    svcInfo gCli = p /\ g gCli = g0 /\ kClient gCli = kc /\
    svcInfos w' !! p = Some {| Methods := Methods obj; GenericMethod := Some (own_hook gCli) |} /\
    sound_hook p (own_hook gCli) /\
    trace w' = trace w /\
    (HasIDLInfo g0 = true -> schema_present gCli) /\
    (HasIDLInfo g0 = false ->
       exists mp, schema_absent gCli mp /\
                  (mp ∉ dom (syncMaps w)) /\
                  (forall name, Load mp name w' = None)).
Proof.
  intros Hnew Htp Hobj. rewrite NewStreamingClientWithServiceInfo_paths. cbv zeta.
  rewrite Hnew, Htp, Hobj.
  eexists _, _. split; [done|].
  assert (Hat : forall f, <[p := {| Methods := Methods obj; GenericMethod := Some f |}]>
                            (svcInfos w) !! p =
                          Some {| Methods := Methods obj; GenericMethod := Some f |}).
  { intros f. by rewrite lookup_insert_eq. }
  split; [eexists; split; [apply Hat|done]|].
  repeat (split; [done|]). split; [apply Hat|].
  destruct (HasIDLInfo g0) eqn:Hidl.
  - split; [split; [done|]; simpl; by rewrite Hidl|].
    split; [done|]. split; [done|]. done.
  - split; [split; [done|]; simpl; by intros _|].
    split; [done|]. split; [done|]. intros _. eexists. split; [done|].
    split; [apply is_fresh|].
    intros name. unfold Load, contents; simpl.
    by rewrite lookup_insert_eq.
Qed.

(** The unchecked assertion of line 73. *)
Lemma NewStreamingClientWithServiceInfo_not_streaming destService g0 p opts kc w :
  client_NewClient w p (options_of destService g0 opts) = inl kc ->
  as_Streaming kc = None ->
  fst (NewStreamingClientWithServiceInfo destService g0 p opts w) = Panic.
Proof.
  intros Hnew Htp. rewrite NewStreamingClientWithServiceInfo_paths. cbv zeta.
  by rewrite Hnew, Htp.
Qed.

(** The checked assertion of lines 231-234, on the same condition. *)
Lemma getStream_not_streaming ctx gCli method callOpts w :
  as_Streaming (kClient gCli) = None ->
  getStream ctx (GenericServiceClient gCli) method callOpts w =
    (Err ErrNotSupportStreaming, w).
Proof. intros Htp. unfold getStream. by rewrite Htp. Qed.

(** A handle whose descriptor is the nil interface. *)
Lemma Send_nil_descriptor cs req w :
  embedded (cs_methodInfo cs) = None ->
  deprecatedClientStreamingClient_Send cs req w = (Panic, w).
Proof.
  intros Hnil. unfold deprecatedClientStreamingClient_Send.
  rewrite Send_paths. cbv zeta. by rewrite Hnil.
Qed.

(** ** Panics *)

Lemma resolve_generic_descriptor p name w :
  serves p w ->
  exists mi, fst (hook_answer p name w) = Ok mi /\ generic_descriptor mi.
Proof.
  intros Hserves.
  destruct (resolve_generic p name w Hserves) as (mi & holder & -> & Ha & Hr).
  exists mi. split; [done|]. split; [done|]. by exists holder.
Qed.

Lemma serves_opened gCli ctx m mode w :
  serves (svcInfo gCli) w ->
  serves (svcInfo gCli) (log (EvStream ctx m) (recorded gCli m mode w)).
Proof. apply serves_same_svcInfos, svcInfos_recorded. Qed.

(** A step that is no constructor call leaves the service infos alone. *)
Lemma svcInfos_step a s :
  match a with
  | act_NewStreamingClient _ _ _ | act_NewStreamingClientWithServiceInfo _ _ _ _ => False
  | _ => True
  end ->
  svcInfos (world (step a s)) = svcInfos (world s).
Proof.
  intros Ha. destruct a; try done; unfold step, perform, on_handle.
  - rewrite on_world_world by done. apply svcInfos_NewClientStreaming.
  - rewrite on_world_world by done. apply svcInfos_NewServerStreaming.
  - rewrite on_world_world by done. apply svcInfos_NewBidirectionalStreaming.
  - destruct (clientStreams s !! i); [|done].
    rewrite on_world_world by done. apply svcInfos_Send.
  - destruct (clientStreams s !! i); [|done].
    rewrite on_world_world by done. apply svcInfos_cs_CloseAndRecv.
  - destruct (serverStreams s !! i); [|done].
    rewrite on_world_world by done. apply svcInfos_Recv.
  - destruct (bidiStreams s !! i); [|done].
    rewrite on_world_world by done. apply svcInfos_Send.
  - destruct (bidiStreams s !! i); [|done].
    rewrite on_world_world by done. apply svcInfos_Recv.
Qed.

Lemma supplied_same_svcInfos w w' a :
  svcInfos w' = svcInfos w -> supplied w a -> supplied w' a.
Proof.
  intros E. destruct a; simpl; try done;
    (destruct genericCli; simpl; [by apply serves_same_svcInfos|done]).
Qed.

Lemma handles_generic_set_world w s : handles_generic s -> handles_generic (set_world w s).
Proof. done. Qed.

Lemma on_world_quiet {A} (c : Go World A) s :
  fst (c (world s)) <> Panic ->
  handles_generic s ->
  fst (on_world c forget s) <> Panic /\ handles_generic (snd (on_world c forget s)).
Proof.
  intros Hc Hs. unfold on_world.
  by destruct (c (world s)) as [[a|e|] w'].
Qed.

Lemma Send_no_panic mi st m req w :
  generic_descriptor mi ->
  fst (bind (NewArgs mi) (fun v => bind (assert_Args v) (fun _args =>
         SendMsg st (set_Request (set_Method _args m) req))) w) <> Panic.
Proof.
  intros [Ha _]. rewrite Send_makes_Args by done. simpl. by destruct (tp_SendMsg _ _ _ _).
Qed.

Lemma Recv_no_panic mi st w :
  generic_descriptor mi ->
  fst (bind (NewResult mi) (fun v => bind (assert_Result v) (fun _result =>
         bind (RecvMsg st _result) (fun _result => ret (GetSuccess _result)))) w) <> Panic.
Proof.
  intros [_ [holder Hr]]. rewrite (Recv_makes_Result _ _ holder) by done.
  simpl. by destruct (tp_RecvMsg _ _ _ _).
Qed.

Lemma cs_CloseAndRecv_no_panic cs w :
  generic_descriptor (cs_methodInfo cs) ->
  fst (deprecatedClientStreamingClient_CloseAndRecv cs w) <> Panic.
Proof.
  intros [_ [holder (impl & Hemb & Hres)]]. rewrite cs_CloseAndRecv_paths. cbv zeta.
  destruct (tp_Close _ _ _); [done|]. rewrite Hemb, Hres.
  simpl. by destruct (tp_RecvMsg _ _ _ _).
Qed.

Lemma perform_no_panic a s :
  handles_generic s ->
  supplied (world s) a ->
  fst (perform a s) <> Panic /\ handles_generic (step a s).
Proof.
  intros Hs Ha. unfold step.
  destruct a as [| | ctx cli m opts | ctx cli m req opts | ctx cli m opts
                 | i req | i | i | i req | i]; simpl in Ha; [done|done|..].
  - unfold perform, on_world. destruct cli as [gCli|]; [|done].
    rewrite NewClientStreaming_paths. cbv zeta.
    destruct (as_Streaming (kClient gCli)) as [tp|]; [|done].
    destruct (tp_Stream tp _ _ m); [done|].
    edestruct (resolve_generic_descriptor (svcInfo gCli) m) as (mi & -> & Hmi);
      [by apply serves_opened|].
    split; [done|]. destruct Hs as (Hcs & Hss & Hbs).
    split; [|done]. simpl.
    intros cs [Hin| ->%list_elem_of_singleton]%elem_of_app; auto.
  - unfold perform, on_world. destruct cli as [gCli|]; [|done].
    rewrite NewServerStreaming_paths. cbv zeta.
    destruct (as_Streaming (kClient gCli)) as [tp|]; [|done].
    destruct (tp_Stream tp _ _ m); [done|].
    edestruct (resolve_generic_descriptor (svcInfo gCli) m) as (mi & -> & Hmi);
      [by apply serves_opened|].
    rewrite eager_send_close_paths. cbv zeta.
    destruct Hmi as [(impl & a0 & Hemb & Hargs) Hres]. rewrite Hemb, Hargs.
    destruct (tp_SendMsg _ _ _ _); [done|].
    destruct (tp_Close _ _ _); [done|].
    split; [done|]. destruct Hs as (Hcs & Hss & Hbs).
    split; [done|]. split; [|done]. simpl.
    intros ss [Hin| ->%list_elem_of_singleton]%elem_of_app; [auto|].
    split; [by exists impl, a0|done].
  - unfold perform, on_world. destruct cli as [gCli|]; [|done].
    rewrite NewBidirectionalStreaming_paths. cbv zeta.
    destruct (as_Streaming (kClient gCli)) as [tp|]; [|done].
    destruct (tp_Stream tp _ _ m); [done|].
    edestruct (resolve_generic_descriptor (svcInfo gCli) m) as (mi & -> & Hmi);
      [by apply serves_opened|].
    split; [done|]. destruct Hs as (Hcs & Hss & Hbs).
    do 2 (split; [done|]). simpl.
    intros bs [Hin| ->%list_elem_of_singleton]%elem_of_app; auto.
  - unfold perform, on_handle.
    destruct (clientStreams s !! i) as [cs|] eqn:Hi; [|done].
    apply on_world_quiet; [|done]. apply Send_no_panic.
    apply list_elem_of_lookup_2 in Hi. by apply Hs.
  - unfold perform, on_handle.
    destruct (clientStreams s !! i) as [cs|] eqn:Hi; [|done].
    apply on_world_quiet; [|done]. apply cs_CloseAndRecv_no_panic.
    apply list_elem_of_lookup_2 in Hi. by apply Hs.
  - unfold perform, on_handle.
    destruct (serverStreams s !! i) as [ss|] eqn:Hi; [|done].
    apply on_world_quiet; [|done]. apply Recv_no_panic.
    apply list_elem_of_lookup_2 in Hi. by apply Hs.
  - unfold perform, on_handle.
    destruct (bidiStreams s !! i) as [bs|] eqn:Hi; [|done].
    apply on_world_quiet; [|done]. apply Send_no_panic.
    apply list_elem_of_lookup_2 in Hi. by apply Hs.
  - unfold perform, on_handle.
    destruct (bidiStreams s !! i) as [bs|] eqn:Hi; [|done].
    apply on_world_quiet; [|done]. apply Recv_no_panic.
    apply list_elem_of_lookup_2 in Hi. by apply Hs.
Qed.

Lemma factories_not_streaming ctx gCli m (req : Payload) callOpts w :
  as_Streaming (kClient gCli) = None ->
  fst (NewClientStreaming ctx (GenericServiceClient gCli) m callOpts w) =
    Err ErrNotSupportStreaming /\
  fst (NewServerStreaming ctx (GenericServiceClient gCli) m req callOpts w) =
    Err ErrNotSupportStreaming /\
  fst (NewBidirectionalStreaming ctx (GenericServiceClient gCli) m callOpts w) =
    Err ErrNotSupportStreaming.
Proof.
  intros Htp.
  rewrite NewClientStreaming_paths, NewServerStreaming_paths, NewBidirectionalStreaming_paths.
  cbv zeta. by rewrite Htp.
Qed.

Lemma nil_descriptor_panic_paths :
  (forall cs (req : Payload) w,
     embedded (cs_methodInfo cs) = None ->
     deprecatedClientStreamingClient_Send cs req w = (Panic, w)) /\
  (forall bs (req : Payload) w,
     embedded (bs_methodInfo bs) = None ->
     deprecatedBidirectionalStreamingClient_Send bs req w = (Panic, w)) /\
  (forall ss w,
     embedded (ss_methodInfo ss) = None ->
     deprecatedServerStreamingClient_Recv ss w = (Panic, w)) /\
  (forall bs w,
     embedded (bs_methodInfo bs) = None ->
     deprecatedBidirectionalStreamingClient_Recv bs w = (Panic, w)).
Proof.
  unfold deprecatedClientStreamingClient_Send, deprecatedBidirectionalStreamingClient_Send,
    deprecatedServerStreamingClient_Recv, deprecatedBidirectionalStreamingClient_Recv.
  repeat split; intros; rewrite ?Send_paths, ?Recv_paths; cbv zeta;
    by match goal with H : embedded _ = None |- _ => rewrite H end.
Qed.

(** C8, as the code has it.  No factory call and no handle operation of a
    program panics when every client it uses is either not a generic client
    or a generic client over a service info whose method table has in every
    slot a descriptor that makes generic envelopes and whose hook, if any, is
    a constructor's: every call returns a value or an error and the handles
    obtained keep such descriptors.  A client that is not generic gets the invalid-client error
    from each factory, and a generic client whose underlying client does not
    support streaming the error of [getStream].  On a handle whose descriptor
    is nil, [Send] and [Recv] panic. *)
Theorem operations_do_not_panic s acts :
  handles_generic s ->
  Forall (supplied (world s)) acts ->
  never_panics acts s /\
  handles_generic (run acts s) /\
  (forall ctx m (req : Payload) callOpts w,
     NewClientStreaming ctx OtherClient m callOpts w = (Err ErrInvalidClient, w) /\
     NewServerStreaming ctx OtherClient m req callOpts w = (Err ErrInvalidClient, w) /\
     NewBidirectionalStreaming ctx OtherClient m callOpts w = (Err ErrInvalidClient, w)) /\
  (forall gCli ctx m (req : Payload) callOpts w,
     as_Streaming (kClient gCli) = None ->
     fst (NewClientStreaming ctx (GenericServiceClient gCli) m callOpts w) =
       Err ErrNotSupportStreaming /\
     fst (NewServerStreaming ctx (GenericServiceClient gCli) m req callOpts w) =
       Err ErrNotSupportStreaming /\
     fst (NewBidirectionalStreaming ctx (GenericServiceClient gCli) m callOpts w) =
       Err ErrNotSupportStreaming) /\
  (forall cs (req : Payload) w,
     embedded (cs_methodInfo cs) = None ->
     deprecatedClientStreamingClient_Send cs req w = (Panic, w)) /\
  (forall bs (req : Payload) w,
     embedded (bs_methodInfo bs) = None ->
     deprecatedBidirectionalStreamingClient_Send bs req w = (Panic, w)) /\
  (forall ss w,
     embedded (ss_methodInfo ss) = None ->
     deprecatedServerStreamingClient_Recv ss w = (Panic, w)) /\
  (forall bs w,
     embedded (bs_methodInfo bs) = None ->
     deprecatedBidirectionalStreamingClient_Recv bs w = (Panic, w)).
Proof.
  intros Hs Hacts.
  assert (Hrun : forall s', handles_generic s' ->
                   svcInfos (world s') = svcInfos (world s) ->
                   never_panics acts s' /\ handles_generic (run acts s')).
  { induction Hacts as [|a acts Ha _ IH]; intros s' Hs' Hheap; [done|].
    assert (Ha' : supplied (world s') a) by by apply (supplied_same_svcInfos (world s)).
    destruct (perform_no_panic a s' Hs' Ha') as [Hnp Hs''].
    assert (Hheap' : svcInfos (world (step a s')) = svcInfos (world s)).
    { rewrite svcInfos_step; [done|]. by destruct a. }
    destruct (IH (step a s') Hs'' Hheap') as [Hnever Hgen].
    split; [split; [exact Hnp|exact Hnever]|exact Hgen]. }
  destruct (Hrun s Hs eq_refl) as [Hnever Hgen].
  split; [done|]. split; [done|]. split; [done|]. split.
  - intros. by apply factories_not_streaming.
  - apply nil_descriptor_panic_paths.
Qed.

(** ** Closing the raw stream *)

Lemma factory_opens_only {A} gCli ctx m mode callOpts tp (h : Stream -> MethodInfo -> A) w :
  as_Streaming (kClient gCli) = Some tp ->
  exists evs,
    trace (snd (bind (recordMode gCli m mode) (fun _ =>
             bind (getStream ctx (GenericServiceClient gCli) m callOpts) (fun stream =>
               bind (ServiceInfo_MethodInfo (svcInfo gCli) m) (fun mi =>
                 ret (h stream mi)))) w)) = trace w ++ evs /\
    forall sid, closes sid evs = 0.
Proof.
  intros Htp. rewrite factory_prefix. cbv zeta. rewrite Htp.
  exists [EvStream (NewCtxWithCallOptions ctx callOpts) m]. split; [|done].
  destruct (tp_Stream tp _ _ m); [cbn [snd]; by rewrite trace_log, trace_recorded|].
  destruct (fst (hook_answer _ _ _)); unfold ret; cbn [snd trace looked_up log logged];
    by rewrite trace_recorded.
Qed.

(** C9, as the code has it.  While the server-streaming constructor runs on
    a stream it acquired (on a client whose service info has a generic method
    table), it calls the stream's close exactly once on every
    path on which the initial send succeeded, the path on which that close
    fails included, and not at all on the path on which the send fails: there
    it returns the send's error and leaves the stream unclosed.
    [CloseAndRecv] on a client-streaming handle calls the close exactly once
    on every path.  The client-streaming and bidirectional factories call no
    close. *)
Theorem close_calls_per_path ctx gCli m (r : Payload) callOpts tp w cs wc :
  serves (svcInfo gCli) w ->
  as_Streaming (kClient gCli) = Some tp ->
  let ctx' := NewCtxWithCallOptions ctx callOpts in
  let sid := length (trace w) in
  let request := {| Args_Method := m; Args_Request := r |} in
  tp_Stream tp (trace w) ctx' m = None ->
  (exists evs,
     trace (snd (NewServerStreaming ctx (GenericServiceClient gCli) m r callOpts w)) =
       trace w ++ EvStream ctx' m :: evs /\
     closes sid evs =
       match tp_SendMsg tp (trace w ++ [EvStream ctx' m]) sid request with
       | None => 1
       | Some _ => 0
       end) /\
  (exists evs,
     trace (snd (deprecatedClientStreamingClient_CloseAndRecv cs wc)) = trace wc ++ evs /\
     closes (stream_id (cs_Stream cs)) evs = 1) /\
  (exists evs,
     trace (snd (NewClientStreaming ctx (GenericServiceClient gCli) m callOpts w)) =
       trace w ++ evs /\
     forall sid', closes sid' evs = 0) /\
  (exists evs,
     trace (snd (NewBidirectionalStreaming ctx (GenericServiceClient gCli) m callOpts w)) =
       trace w ++ evs /\
     forall sid', closes sid' evs = 0).
Proof.
  intros Hserves Htp ctx' sid request Hopen. split; [|split; [|split]].
  - destruct (NewServerStreaming_spec ctx gCli m r callOpts tp w Hserves Htp)
      as (mi & holder & _ & _ & _ & Hspec).
    cbv zeta in Hspec. rewrite Hspec.
    fold ctx' sid request. rewrite Hopen.
    destruct (tp_SendMsg tp _ sid request).
    + exists [EvSendMsg sid request]. split; [|done].
      cbn [snd trace looked_up log logged]. rewrite trace_recorded.
      by rewrite <- app_assoc.
    + exists [EvSendMsg sid request; EvClose sid]. split.
      * destruct (tp_Close tp _ sid); cbn [snd trace looked_up log logged];
          rewrite trace_recorded; by rewrite <- !app_assoc.
      * simpl. by rewrite decide_True.
  - rewrite cs_CloseAndRecv_paths. cbv zeta.
    set (sid' := stream_id (cs_Stream cs)).
    assert (Hone : closes sid' [EvClose sid'] = 1) by (simpl; by rewrite decide_True).
    assert (Htwo : closes sid' [EvClose sid'; EvRecvMsg sid'] = 1)
      by (simpl; by rewrite decide_True).
    destruct (tp_Close _ _ _); [by exists [EvClose sid']|].
    destruct (embedded (cs_methodInfo cs)) as [impl|]; [|by exists [EvClose sid']].
    destruct (impl_NewResult impl); try by exists [EvClose sid'].
    exists [EvClose sid'; EvRecvMsg sid']. split; [|done].
    destruct (tp_RecvMsg _ _ _ _); simpl; by rewrite <- app_assoc.
  - unfold NewClientStreaming.
    exact (factory_opens_only gCli ctx m StreamingClient callOpts tp
             (fun stream mi => {| cs_Stream := stream; cs_method := m; cs_methodInfo := mi |})
             w Htp).
  - unfold NewBidirectionalStreaming.
    exact (factory_opens_only gCli ctx m StreamingBidirectional callOpts tp
             (fun stream mi => {| bs_Stream := stream; bs_method := m; bs_methodInfo := mi |})
             w Htp).
Qed.

(** * Further properties *)

(** ** The constructor *)

(** X1.  Given an underlying client that implements streaming and a service
    info, the constructor returns a client that keeps the caller's pointer to
    the service info, the underlying client and the generic.  It writes its
    hook into the caller's service info - closed over the generic, the
    registry pointer the client holds and that same service info - in place
    of whatever hook was there, and keeps the method table.  It makes no call
    on the transport and no lookup.  With schema information there is no
    registry and the registries are as they were; without, the registry is a
    new empty map at an address no registry had, so every registry that
    existed is as it was. *)
Theorem constructor_builds_client destService g0 p opts kc tp obj w :
  client_NewClient w p (options_of destService g0 opts) = inl kc ->
  as_Streaming kc = Some tp ->
  svcInfos w !! p = Some obj ->
  exists mp' w',
    NewStreamingClientWithServiceInfo destService g0 p opts w =
      (Ok (GenericServiceClient
             {| svcInfo := p; kClient := kc; sClient := tp; g := g0; modeMap := mp' |}), w') /\
    svcInfos w' =
      <[p := {| Methods := Methods obj;
                GenericMethod := Some {| cap_g := g0; cap_mp := mp'; cap_svcInfo := p |} |}]>
        (svcInfos w) /\
    trace w' = trace w /\
    lookups w' = lookups w /\
    if HasIDLInfo g0 then mp' = None /\ syncMaps w' = syncMaps w
    else exists mp, mp' = Some mp /\ (mp ∉ dom (syncMaps w)) /\
                    syncMaps w' = <[mp := ∅]> (syncMaps w).
Proof.
  intros Hnew Htp Hobj. rewrite NewStreamingClientWithServiceInfo_paths. cbv zeta.
  rewrite Hnew, Htp, Hobj.
  destruct (HasIDLInfo g0); simpl.
  - by eexists _, _.
  - eexists _, _. repeat (split; [done|]).
    eexists. split; [done|]. split; [apply is_fresh|done].
Qed.

(** X2.  The constructor without a usable underlying client or service info.
    An error of [client.NewClient] is returned as it is, with the world
    unchanged: no registry is allocated and no hook written.  An underlying
    client that does not implement streaming makes the constructor panic on
    the assertion of line 73, and a nil service info on the assignment of
    line 79; by then it has made no call on the transport, has written no
    hook and has only added to the registries. *)
Theorem constructor_failures destService g0 p opts w :
  (forall err,
     client_NewClient w p (options_of destService g0 opts) = inr err ->
     NewStreamingClientWithServiceInfo destService g0 p opts w = (Err err, w)) /\
  (forall kc,
     client_NewClient w p (options_of destService g0 opts) = inl kc ->
     as_Streaming kc = None \/ svcInfos w !! p = None ->
     fst (NewStreamingClientWithServiceInfo destService g0 p opts w) = Panic /\
     trace (snd (NewStreamingClientWithServiceInfo destService g0 p opts w)) = trace w /\
     svcInfos (snd (NewStreamingClientWithServiceInfo destService g0 p opts w)) = svcInfos w /\
     registry_le w (snd (NewStreamingClientWithServiceInfo destService g0 p opts w))).
Proof.
  split.
  - intros err Hnew. rewrite NewStreamingClientWithServiceInfo_paths. by rewrite Hnew.
  - intros kc Hnew Hbad.
    split; [|split; [apply trace_NewStreamingClientWithServiceInfo|
                     split; [|apply grows_NewStreamingClientWithServiceInfo]]];
      rewrite NewStreamingClientWithServiceInfo_paths; cbv zeta; rewrite Hnew.
    + destruct Hbad as [->| ->]; [done|]. by destruct (as_Streaming kc).
    + destruct Hbad as [->| ->]; [by destruct (HasIDLInfo g0)|].
      destruct (as_Streaming kc); by destruct (HasIDLInfo g0).
Qed.

Lemma factory_supplied a fc w :
  factory a = Some fc -> fit w (fc_client fc) -> supplied w a.
Proof. destruct a; simpl; intros; by simplify_eq. Qed.

Lemma generic_table_Methods obj obj' :
  Methods obj' = Methods obj -> generic_table obj -> generic_table obj'.
Proof. intros E Htable key. rewrite E. apply Htable. Qed.

(** Every step of a caller keeps a service info serving: the method table
    stays, and a hook written by a constructor is a constructor's. *)
Lemma serves_step a s p : serves p (world s) -> serves p (world (step a s)).
Proof.
  intros (obj & Hobj & Htable & Hhook).
  assert (Hsame : svcInfos (world (step a s)) !! p = svcInfos (world s) !! p ->
                  serves p (world (step a s))).
  { intros E. exists obj. by rewrite E. }
  destruct a; try (apply Hsame; by rewrite svcInfos_step).
  - apply Hsame. unfold step, perform. rewrite on_world_world by done.
    apply svcInfos_NewStreamingClient_other. apply elem_of_dom; eauto.
  - unfold step, perform. rewrite on_world_world by done.
    destruct (decide (p = svcInfo0)) as [->|Hne].
    2: { exists obj. by rewrite svcInfos_constructor_other. }
    rewrite NewStreamingClientWithServiceInfo_paths. cbv zeta.
    destruct (client_NewClient _ _ _) as [kc|err]; [|by exists obj].
    destruct (as_Streaming kc) as [tp|]; [|exists obj; by destruct (HasIDLInfo g0)].
    rewrite Hobj. eexists. split; [cbn [snd svcInfos]; apply lookup_insert_eq|].
    split; [by apply (generic_table_Methods obj)|].
    intros f [= <-]. split; [done|]. simpl. intros Hidl. by rewrite Hidl.
Qed.

Lemma serves_run acts s p : serves p (world s) -> serves p (world (run acts s)).
Proof.
  revert s. induction acts as [|a acts IH]; intros s Hs; simpl; [done|].
  by apply IH, serves_step.
Qed.

(** X3.  [NewStreamingClient] builds its client over a new service info that
    holds the method table [generic.ServiceInfoWithGeneric] makes for the
    generic, with the client's own hook installed.  When every slot of that
    table holds a descriptor that makes generic envelopes, the service info
    serves, it goes on serving whatever the caller does next, and each
    factory call on the client in a world where it serves returns a handle or
    an error, never panics, and the handle it returns has such a
    descriptor. *)
Theorem NewStreamingClient_factories_safe destService g0 opts kc tp w :
  let p := fresh (dom (svcInfos w)) in
  let w0 := snd (new_ServiceInfo (generic_ServiceInfoWithGeneric g0) w) in
  client_NewClient w0 p (options_of destService g0 opts) = inl kc ->
  as_Streaming kc = Some tp ->
  generic_table (generic_ServiceInfoWithGeneric g0) ->
  exists gCli w',
    NewStreamingClient destService g0 opts w = (Ok (GenericServiceClient gCli), w') /\
    svcInfo gCli = p /\ (p ∉ dom (svcInfos w)) /\
    svcInfos w' !! p = Some {| Methods := Methods (generic_ServiceInfoWithGeneric g0);
                               GenericMethod := Some (own_hook gCli) |} /\
    g gCli = g0 /\ kClient gCli = kc /\
    installed gCli w' /\
    serves p w' /\
    (forall s acts, serves p (world s) -> serves p (world (run acts s))) /\
    forall a fc s,
      factory a = Some fc ->
      fc_client fc = GenericServiceClient gCli ->
      handles_generic s ->
      serves p (world s) ->
      fst (perform a s) <> Panic /\ handles_generic (step a s).
Proof.
  intros p w0 Hnew Htp Htable.
  assert (Hobj : svcInfos w0 !! p = Some (generic_ServiceInfoWithGeneric g0)).
  { unfold w0, new_ServiceInfo; simpl. by rewrite lookup_insert_eq. }
  destruct (NewStreamingClientWithServiceInfo_constructs destService g0 p opts kc tp
              (generic_ServiceInfoWithGeneric g0) w0 Hnew Htp Hobj)
    as (gCli & w' & Hrun & Hinst & Hp & Hg & Hkc & Hat & Hsound & _).
  exists gCli, w'.
  split; [unfold NewStreamingClient, bind; exact Hrun|].
  split; [done|]. split; [apply is_fresh|]. repeat (split; [done|]).
  split.
  { eexists. split; [exact Hat|]. split; [done|]. by intros f [= <-]. }
  split; [intros s acts; apply serves_run|].
  intros a fc s Hf Hcli Hs Hserves. apply perform_no_panic; [done|].
  apply (factory_supplied a fc _ Hf). rewrite Hcli. simpl. by rewrite Hp.
Qed.

(** X15.  The hook lives in the caller's service info, so a second client
    built over the same service info takes over its resolution: once the
    constructor has returned a client for a service info, the hook found
    there is that client's, lookups through the service info are answered by
    that client's resolver, and no client with another hook is installed
    there any more.  A new client for a generic without schema information
    starts from an empty registry: every name then resolves to the default
    slot, whatever an earlier client over the same service info had
    recorded. *)
Theorem constructor_takes_over_hook destService g0 p opts obj w gCli w' :
  svcInfos w !! p = Some obj ->
  NewStreamingClientWithServiceInfo destService g0 p opts w =
    (Ok (GenericServiceClient gCli), w') ->
  installed gCli w' /\
  (forall name, hook_answer p name w' = resolve gCli name w') /\
  (forall other, svcInfo other = p -> own_hook other <> own_hook gCli -> ~ installed other w') /\
  (forall q key mode, Load q key w = Some mode -> Load q key w' = Some mode) /\
  (HasIDLInfo g0 = false ->
   forall name,
     hook_answer p name w' = (Ok (FromMethods (Methods obj GenericMethod_key)), w')).
Proof.
  intros Hobj. rewrite NewStreamingClientWithServiceInfo_paths. cbv zeta.
  destruct (client_NewClient w p _) as [kc|err] eqn:Hnew; [|done].
  destruct (as_Streaming kc) as [tp|] eqn:Htp; [|done].
  rewrite Hobj. intros [= <- <-].
  set (mp := if HasIDLInfo g0 then None else Some (fresh (dom (syncMaps w)))).
  set (gCli := {| svcInfo := p; kClient := kc; sClient := tp; g := g0; modeMap := mp |}).
  set (w' := {| svcInfos := _; syncMaps := _; trace := _; lookups := _ |}).
  assert (Hat : svcInfos w' !! p =
                Some {| Methods := Methods obj; GenericMethod := Some (own_hook gCli) |}).
  { unfold w'; simpl. by rewrite lookup_insert_eq. }
  assert (Hinst : installed gCli w').
  { eexists. split; [exact Hat|done]. }
  split; [done|].
  split; [intros name; by apply (hook_answer_installed gCli)|].
  split.
  { intros other Hp Hne (obj' & Hobj' & Hhook). rewrite Hp, Hat in Hobj'.
    injection Hobj' as <-. simpl in Hhook. congruence. }
  split.
  { intros q key mode Hload. unfold w'. destruct (HasIDLInfo g0); [done|].
    by apply new_syncMap_grows. }
  intros Hidl name. rewrite (hook_answer_installed gCli) by done.
  rewrite (resolve_unrecorded gCli (fresh (dom (syncMaps w))) name _ w' ltac:(
             split; [done|]; unfold gCli, mp; simpl; by rewrite Hidl) Hat); [done|].
  unfold w'. rewrite Hidl. unfold Load, contents; simpl.
  by rewrite lookup_insert_eq.
Qed.

(** ** What the operations do to the registries *)

Lemma syncMaps_eager_send_close stream mtInfo method req w :
  syncMaps (snd (eager_send_close stream mtInfo method req w)) = syncMaps w.
Proof.
  rewrite eager_send_close_paths. cbv zeta.
  destruct (embedded mtInfo) as [impl|]; [|done].
  destruct (impl_NewArgs impl); try done.
  destruct (tp_SendMsg _ _ _ _); [done|]. by destruct (tp_Close _ _ _).
Qed.

Lemma syncMaps_factory_prefix {A} gCli ctx method mode callOpts
    (k : Stream -> MethodInfo -> Go World A) w :
  (forall stream mi w2, syncMaps (snd (k stream mi w2)) = syncMaps w2) ->
  syncMaps (snd (bind (recordMode gCli method mode) (fun _ =>
    bind (getStream ctx (GenericServiceClient gCli) method callOpts) (fun stream =>
      bind (ServiceInfo_MethodInfo (svcInfo gCli) method) (fun mi => k stream mi))) w)) =
  syncMaps (recorded gCli method mode w).
Proof.
  intros Hk. rewrite factory_prefix. cbv zeta.
  destruct (as_Streaming (kClient gCli)) as [tp|]; [|done].
  destruct (tp_Stream tp _ _ method); [done|].
  destruct (fst (hook_answer _ _ _)); [|done..].
  by rewrite Hk.
Qed.

(** A factory call does to the registries what its registration does, and
    nothing else. *)
Lemma factory_syncMaps a fc gCli s :
  factory a = Some fc ->
  fc_client fc = GenericServiceClient gCli ->
  syncMaps (world (step a s)) =
  syncMaps (recorded gCli (fc_method fc) (fc_mode fc) (world s)).
Proof.
  intros Hf Hcli. unfold step.
  destruct a; simpl in Hf; simplify_eq; simpl in *; subst;
    unfold perform; rewrite on_world_world by done.
  - unfold NewClientStreaming.
    exact (syncMaps_factory_prefix gCli ctx method StreamingClient callOpts
             (fun stream mi => ret {| cs_Stream := stream; cs_method := method;
                                      cs_methodInfo := mi |}) (world s)
             (fun _ _ _ => eq_refl)).
  - unfold NewServerStreaming.
    exact (syncMaps_factory_prefix gCli ctx method StreamingServer callOpts
             (fun stream mi => eager_send_close stream mi method req) (world s)
             (fun stream mi w2 => syncMaps_eager_send_close stream mi method req w2)).
  - unfold NewBidirectionalStreaming.
    exact (syncMaps_factory_prefix gCli ctx method StreamingBidirectional callOpts
             (fun stream mi => ret {| bs_Stream := stream; bs_method := method;
                                      bs_methodInfo := mi |}) (world s)
             (fun _ _ _ => eq_refl)).
Qed.

Lemma Load_LoadOrStore_other q key' mode p key w :
  q <> p \/ key' <> key ->
  Load p key (LoadOrStore q key' mode w) = Load p key w.
Proof.
  intros Hother. unfold LoadOrStore.
  destruct (Load q key' w) eqn:Hq; [done|].
  unfold Load, contents in *; simpl.
  destruct (decide (q = p)) as [->|Hne].
  - rewrite lookup_insert_eq; simpl.
    destruct Hother as [?|Hk]; [done|]. by rewrite lookup_insert_ne.
  - by rewrite lookup_insert_ne.
Qed.

Lemma Load_LoadOrStore_deciding mp name mode w :
  Load mp name (LoadOrStore mp name mode w) = Some (deciding_mode mp name mode w).
Proof.
  unfold deciding_mode. destruct (Load mp name w) as [mode0|] eqn:Hload; simpl.
  - by rewrite (Load_LoadOrStore_present _ _ mode0).
  - by apply Load_LoadOrStore_absent.
Qed.

Lemma Load_syncMaps p key w w' :
  syncMaps w' = syncMaps w -> Load p key w' = Load p key w.
Proof. intros E. unfold Load, contents. by rewrite E. Qed.

(** The descriptor the schema gives a name, over the client's service
    info. *)
Lemma resolve_schema gCli obj name w :
  schema_present gCli ->
  svcInfos w !! svcInfo gCli = Some obj ->
  resolve gCli name w = (Ok (schema_descriptor (g gCli) obj name), w).
Proof.
  intros (Hidl & Hmp) Hobj.
  unfold resolve, GenericMethod_func, schema_descriptor, bind, ret. rewrite Hidl; simpl.
  destruct (GetMethod (g gCli) name); rewrite ?selector_slot;
    by rewrite (Methods_at_obj _ obj).
Qed.

(** X4.  On a client built for a generic with schema information the
    factories record nothing: a factory call, of whatever shape and outcome,
    leaves every registry and every service info as it was, and a name
    resolves before and after it to the descriptor the schema gives - the
    slot named after the mode the schema declares, with the schema's oneway
    flag, or the default slot for a name the schema does not know. *)
Theorem schema_present_records_nothing a fc gCli obj s name :
  factory a = Some fc ->
  fc_client fc = GenericServiceClient gCli ->
  schema_present gCli ->
  svcInfos (world s) !! svcInfo gCli = Some obj ->
  syncMaps (world (step a s)) = syncMaps (world s) /\
  svcInfos (world (step a s)) = svcInfos (world s) /\
  resolve gCli name (world s) =
    (Ok (schema_descriptor (g gCli) obj name), world s) /\
  resolve gCli name (world (step a s)) =
    (Ok (schema_descriptor (g gCli) obj name), world (step a s)).
Proof.
  intros Hf Hcli Hpres Hobj.
  assert (Hheap : svcInfos (world (step a s)) = svcInfos (world s)).
  { apply svcInfos_step. by destruct a. }
  split.
  { rewrite (factory_syncMaps a fc gCli s Hf Hcli). unfold recorded.
    by rewrite (proj2 Hpres). }
  split; [done|].
  split; apply resolve_schema; try done. by rewrite Hheap.
Qed.

(** X5.  A factory call changes at most one registry entry: the entry of its
    method name in the registry of the client it is called on.  Every other
    name of that registry, and every name of every other registry, reads
    after the call as it did before, whatever the call returns. *)
Theorem factory_touches_one_entry a fc gCli s p key :
  factory a = Some fc ->
  fc_client fc = GenericServiceClient gCli ->
  modeMap gCli <> Some p \/ key <> fc_method fc ->
  Load p key (world (step a s)) = Load p key (world s).
Proof.
  intros Hf Hcli Hother.
  rewrite (Load_syncMaps p key _ _ (factory_syncMaps a fc gCli s Hf Hcli)).
  unfold recorded. destruct (modeMap gCli) as [mp|]; [|done].
  apply Load_LoadOrStore_other.
  destruct Hother as [Hp|Hk]; [left; congruence|by right].
Qed.

Lemma on_world_forget_frame {A} (c : Go World A) s :
  syncMaps (snd (c (world s))) = syncMaps (world s) ->
  syncMaps (world (snd (on_world c forget s))) = syncMaps (world s) /\
  clientStreams (snd (on_world c forget s)) = clientStreams s /\
  serverStreams (snd (on_world c forget s)) = serverStreams s /\
  bidiStreams (snd (on_world c forget s)) = bidiStreams s.
Proof.
  intros Hc. unfold on_world.
  by destruct (c (world s)) as [[x|e|] w'].
Qed.

Lemma syncMaps_Send mi st m req w :
  syncMaps (snd (bind (NewArgs mi) (fun v => bind (assert_Args v) (fun _args =>
    SendMsg st (set_Request (set_Method _args m) req))) w)) = syncMaps w.
Proof.
  rewrite Send_paths. cbv zeta.
  destruct (embedded mi) as [impl|]; [|done]. by destruct (impl_NewArgs impl).
Qed.

Lemma syncMaps_Recv mi st w :
  syncMaps (snd (bind (NewResult mi) (fun v => bind (assert_Result v)
    (fun _result => bind (RecvMsg st _result)
       (fun _result => ret (GetSuccess _result)))) w)) = syncMaps w.
Proof.
  rewrite Recv_paths.
  destruct (embedded mi) as [impl|]; [|done]. by destruct (impl_NewResult impl).
Qed.

Lemma syncMaps_cs_CloseAndRecv cs w :
  syncMaps (snd (deprecatedClientStreamingClient_CloseAndRecv cs w)) = syncMaps w.
Proof.
  rewrite cs_CloseAndRecv_paths. cbv zeta.
  destruct (tp_Close _ _ _); [done|].
  destruct (embedded (cs_methodInfo cs)) as [impl|]; [|done].
  by destruct (impl_NewResult impl).
Qed.

(** X6.  The operations on handles - [Send], [Recv], [CloseAndRecv] - never
    touch a registry and hand the caller no new handle, whatever they
    return. *)
Theorem handle_operations_leave_registries a s :
  on_a_handle a ->
  syncMaps (world (step a s)) = syncMaps (world s) /\
  clientStreams (step a s) = clientStreams s /\
  serverStreams (step a s) = serverStreams s /\
  bidiStreams (step a s) = bidiStreams s.
Proof.
  intros Ha. unfold step.
  destruct a; simpl in Ha; try done; unfold perform, on_handle.
  - destruct (clientStreams s !! i); [|done].
    apply on_world_forget_frame, syncMaps_Send.
  - destruct (clientStreams s !! i) as [cs|]; [|done].
    apply on_world_forget_frame, syncMaps_cs_CloseAndRecv.
  - destruct (serverStreams s !! i); [|done].
    apply on_world_forget_frame, syncMaps_Recv.
  - destruct (bidiStreams s !! i); [|done].
    apply on_world_forget_frame, syncMaps_Send.
  - destruct (bidiStreams s !! i); [|done].
    apply on_world_forget_frame, syncMaps_Recv.
Qed.

(** X7.  A factory called for a name whose mode is already recorded, be it
    the mode of another shape, leaves the registries as they are, and the
    handle it returns carries the descriptor of the recorded mode, not of the
    factory's own: on a schema-absent client whose hook is the one installed,
    the slot named after the recorded mode. *)
Theorem later_shape_gets_first_descriptor
    ctx gCli mp obj m (req : Payload) callOpts mode0 w :
  schema_absent gCli mp ->
  svcInfos w !! svcInfo gCli = Some obj ->
  GenericMethod obj = Some (own_hook gCli) ->
  Load mp m w = Some mode0 ->
  let slot := FromMethods (Methods obj (slot_named_after mode0)) in
  (forall cs w',
     NewClientStreaming ctx (GenericServiceClient gCli) m callOpts w = (Ok cs, w') ->
     cs_methodInfo cs = slot /\ syncMaps w' = syncMaps w) /\
  (forall ss w',
     NewServerStreaming ctx (GenericServiceClient gCli) m req callOpts w = (Ok ss, w') ->
     ss_methodInfo ss = slot /\ syncMaps w' = syncMaps w) /\
  (forall bs w',
     NewBidirectionalStreaming ctx (GenericServiceClient gCli) m callOpts w = (Ok bs, w') ->
     bs_methodInfo bs = slot /\ syncMaps w' = syncMaps w).
Proof.
  intros Habs Hobj Hhook Hload slot.
  assert (Hrec : forall mode, recorded gCli m mode w = w).
  { intros mode. unfold recorded. rewrite (proj2 Habs).
    by apply (Load_LoadOrStore_present _ _ mode0). }
  assert (Hres : forall e, fst (hook_answer (svcInfo gCli) m (log e w)) = Ok slot).
  { intros e. rewrite hook_answer_installed by by exists obj.
    by rewrite (resolve_recorded gCli mp m mode0 obj). }
  split; [|split].
  - intros cs w'. rewrite NewClientStreaming_paths. cbv zeta. rewrite Hrec, Hres.
    destruct (as_Streaming (kClient gCli)) as [tp|]; [|done].
    destruct (tp_Stream tp _ _ m); [done|]. by intros [= <- <-].
  - intros ss w'. rewrite NewServerStreaming_paths. cbv zeta. rewrite Hrec, Hres.
    destruct (as_Streaming (kClient gCli)) as [tp|]; [|done].
    destruct (tp_Stream tp _ _ m); [done|].
    rewrite eager_send_close_paths. cbv zeta.
    destruct (embedded slot) as [impl|]; [|done].
    destruct (impl_NewArgs impl); try done.
    destruct (tp_SendMsg _ _ _ _); [done|].
    destruct (tp_Close _ _ _); [done|]. by intros [= <- <-].
  - intros bs w'. rewrite NewBidirectionalStreaming_paths. cbv zeta. rewrite Hrec, Hres.
    destruct (as_Streaming (kClient gCli)) as [tp|]; [|done].
    destruct (tp_Stream tp _ _ m); [done|]. by intros [= <- <-].
Qed.

(** ** Construction of the client-streaming and bidirectional handles *)

(** X8.  [NewClientStreaming] and [NewBidirectionalStreaming] only open the
    stream: on a client whose service info has a generic method table, when
    the transport opens the stream, each returns a handle on the new stream
    that keeps the method name and a descriptor that makes generic
    envelopes, and leaves the world with its mode registered, the one opening
    logged and the lookup of the descriptor, made with the same name, on
    record; nothing is sent and nothing is closed. *)
Theorem lazy_factories_open_only ctx gCli m callOpts tp w :
  serves (svcInfo gCli) w ->
  as_Streaming (kClient gCli) = Some tp ->
  let ctx' := NewCtxWithCallOptions ctx callOpts in
  let sid := length (trace w) in
  let stream := {| stream_id := sid; stream_tp := tp |} in
  tp_Stream tp (trace w) ctx' m = None ->
  exists mi_c mi_b,
    generic_descriptor mi_c /\ generic_descriptor mi_b /\
    NewClientStreaming ctx (GenericServiceClient gCli) m callOpts w =
      (Ok {| cs_Stream := stream; cs_method := m; cs_methodInfo := mi_c |},
       looked_up (lookup_for sid (svcInfo gCli) m mi_c)
         (log (EvStream ctx' m) (recorded gCli m StreamingClient w))) /\
    NewBidirectionalStreaming ctx (GenericServiceClient gCli) m callOpts w =
      (Ok {| bs_Stream := stream; bs_method := m; bs_methodInfo := mi_b |},
       looked_up (lookup_for sid (svcInfo gCli) m mi_b)
         (log (EvStream ctx' m) (recorded gCli m StreamingBidirectional w))).
Proof.
  intros Hserves Htp ctx' sid stream Hopen.
  destruct (resolve_generic_descriptor (svcInfo gCli) m
              (log (EvStream ctx' m) (recorded gCli m StreamingClient w))
              (serves_opened gCli ctx' m StreamingClient w Hserves))
    as (mi_c & Hc & Hgc).
  destruct (resolve_generic_descriptor (svcInfo gCli) m
              (log (EvStream ctx' m) (recorded gCli m StreamingBidirectional w))
              (serves_opened gCli ctx' m StreamingBidirectional w Hserves))
    as (mi_b & Hb & Hgb).
  exists mi_c, mi_b. repeat (split; [done|]).
  rewrite NewClientStreaming_paths, NewBidirectionalStreaming_paths. cbv zeta.
  fold ctx'. by rewrite Htp, Hopen, Hc, Hb.
Qed.

(** ** A conversation on a bidirectional handle *)

Lemma bs_Recv_spec bs holder w :
  makes_Result (bs_methodInfo bs) holder ->
  deprecatedBidirectionalStreamingClient_Recv bs w =
  (received (tp_RecvMsg (stream_tp (bs_Stream bs)) (trace w) (stream_id (bs_Stream bs)) holder),
   log (EvRecvMsg (stream_id (bs_Stream bs))) w).
Proof. intros H. by apply Recv_makes_Result. Qed.

Lemma logged_nil w : logged [] w = w.
Proof. unfold logged. rewrite app_nil_r. by destruct w. Qed.

Lemma logged_log e evs w : logged evs (log e w) = logged (e :: evs) w.
Proof. unfold log, logged; simpl. by rewrite <- app_assoc. Qed.

(** X9.  On a bidirectional handle whose descriptor makes generic envelopes,
    [Send] and [Recv] may be called in any order and number: each call is
    exactly one call on the transport - a send of the envelope
    [{method, payload}] or a read - made in the caller's order, each returns
    what the transport answered (for a read the success payload), an error
    of one call does not keep the next from being made, and nothing else in
    the world is touched. *)
Theorem bidi_any_interleaving bs holder calls w :
  makes_Args (bs_methodInfo bs) ->
  makes_Result (bs_methodInfo bs) holder ->
  bidi_run bs calls w =
  (bidi_answers bs holder (trace w) calls, logged (map (bidi_event bs) calls) w).
Proof.
  intros Ha Hr. revert w.
  induction calls as [|c calls IH]; intros w; simpl.
  - by rewrite logged_nil.
  - destruct c as [req|]; simpl.
    + rewrite bs_Send_spec by done. rewrite IH. by rewrite logged_log.
    + rewrite (bs_Recv_spec bs holder) by done. rewrite IH. by rewrite logged_log.
Qed.

(** ** Panics leave their side effects *)

(** X10.  A missing slot is found out late.  On a schema-absent client with
    its hook installed whose method table has no entry for the mode that
    decides the descriptor - the mode already recorded for the name, or else
    server streaming - the server-streaming constructor panics only after it
    has registered the mode, the transport has opened the stream and the
    lookup has returned the nil descriptor; the stream stays open with
    nothing sent on it.  [CloseAndRecv] on a handle with a nil descriptor
    panics only after the close has gone through. *)
Theorem missing_slot_panics_late
    ctx gCli mp obj m (req : Payload) callOpts tp w cs wc :
  schema_absent gCli mp ->
  svcInfos w !! svcInfo gCli = Some obj ->
  GenericMethod obj = Some (own_hook gCli) ->
  as_Streaming (kClient gCli) = Some tp ->
  let ctx' := NewCtxWithCallOptions ctx callOpts in
  tp_Stream tp (trace w) ctx' m = None ->
  Methods obj (slot_named_after (deciding_mode mp m StreamingServer w)) = None ->
  embedded (cs_methodInfo cs) = None ->
  tp_Close (stream_tp (cs_Stream cs)) (trace wc) (stream_id (cs_Stream cs)) = None ->
  NewServerStreaming ctx (GenericServiceClient gCli) m req callOpts w =
    (Panic,
     looked_up (lookup_for (length (trace w)) (svcInfo gCli) m (FromMethods None))
       (log (EvStream ctx' m) (LoadOrStore mp m StreamingServer w))) /\
  deprecatedClientStreamingClient_CloseAndRecv cs wc =
    (Panic, log (EvClose (stream_id (cs_Stream cs))) wc).
Proof.
  intros Habs Hobj Hhook Htp ctx' Hopen Hslot Hnil Hclose. split.
  - rewrite NewServerStreaming_paths. cbv zeta. fold ctx'.
    unfold recorded. rewrite (proj2 Habs), Htp, Hopen.
    set (w2 := log _ _).
    assert (Hobj2 : svcInfos w2 !! svcInfo gCli = Some obj).
    { unfold w2. cbn [svcInfos log logged]. by rewrite svcInfos_LoadOrStore. }
    rewrite hook_answer_installed by by exists obj.
    rewrite (resolve_recorded gCli mp m (deciding_mode mp m StreamingServer w) obj);
      [|done|done|].
    + cbn [fst]. rewrite Hslot. by rewrite eager_send_close_paths.
    + unfold w2. rewrite Load_log. apply Load_LoadOrStore_deciding.
  - rewrite cs_CloseAndRecv_paths. cbv zeta. by rewrite Hclose, Hnil.
Qed.

(** ** Resolution *)

(** X11.  The hook of lines 79-97 answers every name: it never returns an
    error, it leaves the world as it was (resolving a name records nothing),
    and it panics in two cases only, a generic without schema information
    paired with a nil registry, and a nil service info. *)
Theorem resolution_never_errs g0 mp p name w :
  snd (GenericMethod_func g0 mp p name w) = w /\
  (forall e, fst (GenericMethod_func g0 mp p name w) <> Err e) /\
  (fst (GenericMethod_func g0 mp p name w) = Panic <->
   (HasIDLInfo g0 = false /\ mp = None) \/ svcInfos w !! p = None).
Proof.
  split; [apply GenericMethod_func_reads|].
  unfold GenericMethod_func, Methods_at, bind, read, ret, panic.
  destruct (HasIDLInfo g0); simpl.
  - destruct (GetMethod g0 name); destruct (svcInfos w !! p); simpl;
      (split; [done|]); split; try done; try (by right); by intros [[? ?]|?].
  - destruct mp as [mp|]; simpl.
    + destruct (svcInfos w !! p); simpl;
        (split; [done|]); split; try done; try (by right); by intros [[? ?]|?].
    + split; [done|]. split; [intros _; by left|done].
Qed.

(** ** Names no factory was called for *)

Lemma Load_new_syncMap p key w : Load p key (snd (new_syncMap w)) = Load p key w.
Proof.
  unfold new_syncMap, Load, contents; simpl.
  destruct (decide (fresh (dom (syncMaps w)) = p)) as [<-|Hne].
  - rewrite lookup_insert_eq; simpl.
    assert (Hfresh : syncMaps w !! fresh (dom (syncMaps w)) = None).
    { apply not_elem_of_dom, is_fresh. }
    by rewrite Hfresh.
  - by rewrite lookup_insert_ne.
Qed.

Lemma Load_after_constructor destService g0 svc opts p key w :
  Load p key (snd (NewStreamingClientWithServiceInfo destService g0 svc opts w)) =
  Load p key w.
Proof.
  rewrite NewStreamingClientWithServiceInfo_paths. cbv zeta.
  destruct (client_NewClient w svc _) as [kc|err]; [|done].
  assert (Hw1 : Load p key (if HasIDLInfo g0 then w else snd (new_syncMap w)) = Load p key w).
  { destruct (HasIDLInfo g0); [done|apply Load_new_syncMap]. }
  destruct (as_Streaming kc); [|done].
  destruct (svcInfos w !! svc); [|done].
  cbn [snd]. rewrite <- Hw1. by apply Load_syncMaps.
Qed.

Lemma Load_after_spared_step mp name a s :
  spares mp name a ->
  Load mp name (world (step a s)) = Load mp name (world s).
Proof.
  intros Hsp. unfold spares in Hsp.
  destruct (factory a) as [fc|] eqn:Hf.
  - destruct (fc_client fc) as [gCli|] eqn:Hcli.
    + rewrite (Load_syncMaps mp name _ _ (factory_syncMaps a fc gCli s Hf Hcli)).
      unfold recorded. destruct (modeMap gCli) as [q|]; [|done].
      apply Load_LoadOrStore_other.
      destruct Hsp as [Hq|Hm]; [left; congruence|by right].
    + unfold step. destruct a; simpl in Hf; simplify_eq; by simpl in *; subst.
  - destruct a; try done; unfold step, perform, on_handle.
    + rewrite on_world_world by done.
      unfold NewStreamingClient, bind, new_ServiceInfo.
      by rewrite Load_after_constructor.
    + rewrite on_world_world by done. apply Load_after_constructor.
    + destruct (clientStreams s !! i); [|done].
      apply Load_syncMaps, on_world_forget_frame, syncMaps_Send.
    + destruct (clientStreams s !! i); [|done].
      apply Load_syncMaps, on_world_forget_frame, syncMaps_cs_CloseAndRecv.
    + destruct (serverStreams s !! i); [|done].
      apply Load_syncMaps, on_world_forget_frame, syncMaps_Recv.
    + destruct (bidiStreams s !! i); [|done].
      apply Load_syncMaps, on_world_forget_frame, syncMaps_Send.
    + destruct (bidiStreams s !! i); [|done].
      apply Load_syncMaps, on_world_forget_frame, syncMaps_Recv.
Qed.

(** X12.  A name stays unary until a factory is called for it: on a
    schema-absent client, after any program that makes no factory call for
    name [m] on a client sharing its registry - constructions of clients,
    factory calls for other names or on other clients, operations on
    handles - a name [m] that had no recorded mode has none still, and the
    client's resolver returns the default slot for it.  A lookup of [m]
    through the client's service info returns the default slot too as long
    as the hook found there is the client's own: it is when the program
    handed the client's service info to no constructor. *)
Theorem unused_name_stays_default gCli mp obj m s acts :
  schema_absent gCli mp ->
  svcInfos (world s) !! svcInfo gCli = Some obj ->
  Load mp m (world s) = None ->
  Forall (spares mp m) acts ->
  let s' := run acts s in
  let slot := FromMethods (Methods obj GenericMethod_key) in
  Load mp m (world s') = None /\
  resolve gCli m (world s') = (Ok slot, world s') /\
  (installed gCli (world s) ->
   Forall (keeps_hook (svcInfo gCli)) acts ->
   installed gCli (world s') /\
   hook_answer (svcInfo gCli) m (world s') = (Ok slot, world s') /\
   fst (ServiceInfo_MethodInfo (svcInfo gCli) m (world s')) = Ok slot).
Proof.
  intros Habs Hobj Hnone Hacts s' slot.
  assert (Hload : Load mp m (world s') = None).
  { unfold s'. clear s' Hobj. revert s Hnone.
    induction Hacts as [|a acts Ha _ IH]; intros s Hnone; [done|].
    simpl. apply IH. by rewrite Load_after_spared_step. }
  destruct (run_svcInfos acts s _ obj Hobj) as (obj' & Hobj' & Hm & _).
  assert (Hres : resolve gCli m (world s') = (Ok slot, world s')).
  { rewrite (resolve_unrecorded gCli mp m obj') by done. unfold slot. by rewrite Hm. }
  repeat (split; [done|]).
  intros Hinst Hall.
  assert (Hinst' : installed gCli (world s')) by by apply installed_run.
  assert (Hans : hook_answer (svcInfo gCli) m (world s') = (Ok slot, world s')).
  { by rewrite hook_answer_installed. }
  repeat (split; [done|]).
  by rewrite ServiceInfo_MethodInfo_spec, Hans.
Qed.

(** ** Repeated calls on a handle *)

Lemma cs_send_all_world cs reqs w :
  makes_Args (cs_methodInfo cs) ->
  cs_send_all cs reqs w =
  logged (map (fun req => EvSendMsg (stream_id (cs_Stream cs))
                            {| Args_Method := cs_method cs; Args_Request := req |}) reqs) w.
Proof.
  intros Ha. revert w. induction reqs as [|req reqs IH]; intros w; simpl.
  - by rewrite logged_nil.
  - rewrite cs_Send_spec by done. rewrite IH. cbn [snd]. by rewrite logged_log.
Qed.

(** X13.  A client-streaming call with any number of requests.  On a handle
    whose descriptor makes generic envelopes, after the caller has sent the
    requests [reqs] - whatever each [Send] returned - a [CloseAndRecv] whose
    close the transport accepts leaves the log grown by one envelope
    [{method, req}] per request, in the caller's order, then the one close
    and the one read, and returns what the read answered.  Nothing else in
    the world is touched. *)
Theorem client_streaming_any_sends cs holder reqs w :
  makes_Args (cs_methodInfo cs) ->
  makes_Result (cs_methodInfo cs) holder ->
  let sid := stream_id (cs_Stream cs) in
  let tp := stream_tp (cs_Stream cs) in
  let sends := map (fun req => EvSendMsg sid {| Args_Method := cs_method cs;
                                                Args_Request := req |}) reqs in
  tp_Close tp (trace w ++ sends) sid = None ->
  deprecatedClientStreamingClient_CloseAndRecv cs (cs_send_all cs reqs w) =
  (received (tp_RecvMsg tp ((trace w ++ sends) ++ [EvClose sid]) sid holder),
   logged (sends ++ [EvClose sid; EvRecvMsg sid]) w).
Proof.
  intros Ha Hr sid tp sends Hclose.
  rewrite cs_send_all_world by done. fold sid sends.
  rewrite (cs_CloseAndRecv_closed cs holder) by done.
  cbn [trace logged]. fold sid tp. f_equal.
  unfold log, logged; simpl. by rewrite <- !app_assoc.
Qed.

Lemma ss_recv_times_spec ss holder n w :
  makes_Result (ss_methodInfo ss) holder ->
  ss_recv_times ss n w =
  (read_answers (stream_tp (ss_Stream ss)) (stream_id (ss_Stream ss)) holder (trace w) n,
   logged (replicate n (EvRecvMsg (stream_id (ss_Stream ss)))) w).
Proof.
  intros Hr. revert w. induction n as [|n IH]; intros w; simpl.
  - by rewrite logged_nil.
  - rewrite (ss_Recv_spec ss holder) by done. rewrite IH. by rewrite logged_log.
Qed.

(** X14.  A server-streaming call from construction to its last read.  On a
    client whose service info has a generic method table, when the transport
    accepts the opening, the request and the close, the constructor returns a
    handle on which any number [n] of [Recv] calls are [n] reads on the new
    stream and nothing else: after them the log has grown by the opening,
    the one request envelope, the one close and [n] reads, each [Recv] has
    returned what its read answered, an error of one read does not keep the
    next from being made, and the rest of the world is as the constructor
    left it: the registries with the mode recorded, the service infos as
    they were, and the one lookup of the handle's descriptor on record. *)
Theorem server_streaming_reads ctx gCli m (r : Payload) callOpts tp w :
  serves (svcInfo gCli) w ->
  as_Streaming (kClient gCli) = Some tp ->
  let ctx' := NewCtxWithCallOptions ctx callOpts in
  let sid := length (trace w) in
  let request := {| Args_Method := m; Args_Request := r |} in
  tp_Stream tp (trace w) ctx' m = None ->
  tp_SendMsg tp (trace w ++ [EvStream ctx' m]) sid request = None ->
  tp_Close tp (trace w ++ [EvStream ctx' m; EvSendMsg sid request]) sid = None ->
  exists ss w' holder,
    NewServerStreaming ctx (GenericServiceClient gCli) m r callOpts w = (Ok ss, w') /\
    trace w' = trace w ++ [EvStream ctx' m; EvSendMsg sid request; EvClose sid] /\
    syncMaps w' = syncMaps (recorded gCli m StreamingServer w) /\
    svcInfos w' = svcInfos w /\
    lookups w' = lookups w ++ [lookup_for sid (svcInfo gCli) m (ss_methodInfo ss)] /\
    forall n,
      ss_recv_times ss n w' =
      (read_answers tp sid holder (trace w') n, logged (replicate n (EvRecvMsg sid)) w').
Proof.
  intros Hserves Htp ctx' sid request Hopen Hsend Hclose.
  destruct (NewServerStreaming_spec ctx gCli m r callOpts tp w Hserves Htp)
    as (mi & holder & Ha & Hr & _ & Hspec).
  cbv zeta in Hspec.
  fold ctx' sid request in Hspec. rewrite Hopen, Hsend, Hclose in Hspec.
  eexists _, _, holder. split; [exact Hspec|].
  split.
  { cbn [trace looked_up log logged]. rewrite trace_recorded. by rewrite <- !app_assoc. }
  split; [done|].
  split; [cbn [svcInfos looked_up log logged]; apply svcInfos_recorded|].
  split; [cbn [lookups looked_up log logged ss_methodInfo]; by rewrite lookups_recorded|].
  intros n. by rewrite (ss_recv_times_spec _ holder).
Qed.

End GenericClient.

(** * Concrete runs

    The echo service with string payloads: fresh envelopes carry the empty
    string, the transport answers [pong].  The caller's service infos are the
    echo table at address 0 and the table with the default slot only at
    address 1; [generic.ServiceInfoWithGeneric] builds the echo table. *)

Local Open Scope string_scope.
Local Open Scope list_scope.

Local Abbreviation reliable' := (@reliable string nat "pong").
Local Abbreviation refusing' := (@refusing string nat "pong").
Local Abbreviation broken_pipe' := (@broken_pipe string nat "pong").
Local Abbreviation close_fails' := (@close_fails string nat "pong").
Local Abbreviation two_replies' := (@two_replies string nat "pong").
Local Abbreviation slot' := (@generic_impl string "").
Local Abbreviation echo_table' := (@echo_table string "").
Local Abbreviation unary_only_table' := (@unary_only_table string "").
Local Abbreviation echo_client' := (@echo_client string nat).
Local Abbreviation echo_call' := (@echo_call string nat).
Local Abbreviation idl_client' := (@idl_client string nat).
Local Abbreviation unary_only_client' := (@unary_only_client string nat "pong").
Local Abbreviation without_streaming' := (@without_streaming string nat "pong").
Local Abbreviation echo_handle' := (@echo_handle string nat "").
Local Abbreviation chat_handle' := (@chat_handle string nat "").
Local Abbreviation bare_handle' := (@bare_handle string nat).
Local Abbreviation new_world' := (@new_world string nat "").
Local Abbreviation fresh_world' := (@fresh_world string nat "").
Local Abbreviation unary_world' := (@unary_world string nat "").
Local Abbreviation idl_world' := (@idl_world string nat "").
Local Abbreviation learned_world' := (@learned_world string nat "").
Local Abbreviation echo_opened' := (@echo_opened string nat "").
Local Abbreviation session_in' := (@session_in string nat).
Local Abbreviation fresh_session' := (@fresh_session string nat "").
Local Abbreviation over tp := (@NewClient_over string nat nat tp).
Local Abbreviation NewClient_without_streaming' :=
  (@NewClient_without_streaming string nat nat).
Local Abbreviation NewClient_failing' := (@NewClient_failing string nat nat).
Local Abbreviation echo_tables := (fun _ : Generic => echo_table').
Local Abbreviation step' := (@step string nat nat (over reliable') echo_tables).
Local Abbreviation run' := (@run string nat nat (over reliable') echo_tables).
Local Abbreviation perform' := (@perform string nat nat (over reliable') echo_tables).
Local Abbreviation never_panics' :=
  (@never_panics string nat nat (over reliable') echo_tables).

(** The object at address [p] once the constructor has written the hook for
    generic [g0] into it. *)
Local Abbreviation hooked p g0 table :=
  (@with_hook string {| cap_g := g0; cap_mp := registry_of g0; cap_svcInfo := p |} table).

Example echo_client_constructed :
  NewStreamingClientWithServiceInfo (over reliable') "echo" binary_generic 0 [] new_world' =
  (Ok (GenericServiceClient (echo_client' reliable')), fresh_world').
Proof. reflexivity. Qed.

Example idl_client_constructed :
  NewStreamingClientWithServiceInfo (over reliable') "echo" idl_generic 0 [] new_world' =
  (Ok (GenericServiceClient (idl_client' reliable')), idl_world').
Proof. reflexivity. Qed.

Lemma echo_client_schema_absent tp : schema_absent (echo_client' tp) 0.
Proof. by split. Qed.

Lemma echo_object :
  svcInfos fresh_world' !! 0 = Some (hooked 0 binary_generic echo_table').
Proof. reflexivity. Qed.

Lemma echo_installed tp : installed (echo_client' tp) fresh_world'.
Proof. eexists. split; [exact echo_object|reflexivity]. Qed.

Lemma echo_table_generic : generic_table echo_table'.
Proof. intros key. by eexists _, _, _. Qed.

Lemma fresh_world_serves : serves 0 fresh_world'.
Proof.
  eexists. split; [exact echo_object|]. split; [exact echo_table_generic|].
  by intros f [= <-].
Qed.

Lemma echo_call_fit tp : fit fresh_world' (echo_call' tp).
Proof. exact fresh_world_serves. Qed.

Lemma slot_makes_Args key : makes_Args (FromMethods (Some (slot' key))).
Proof. by eexists _, _. Qed.

Lemma slot_makes_Result key :
  makes_Result (FromMethods (Some (slot' key))) {| Result_Success := "" |}.
Proof. by eexists. Qed.

Lemma fresh_session_ok : session_ok fresh_session'.
Proof. by apply session_ok_initial. Qed.



Lemma client_streaming_send_send_close_witness :
  and_then (deprecatedClientStreamingClient_Send (echo_handle' reliable') "a")
    (and_then (deprecatedClientStreamingClient_Send (echo_handle' reliable') "b")
       (deprecatedClientStreamingClient_CloseAndRecv (echo_handle' reliable'))) echo_opened' =
  (Ok "pong",
   logged [EvSendMsg 0 (envelope "a"); EvSendMsg 0 (envelope "b"); EvClose 0; EvRecvMsg 0]
     echo_opened').
Proof.
  exact (client_streaming_send_send_close ctx_Background (echo_call' reliable') "Echo" []
           fresh_world' (echo_handle' reliable') echo_opened' "a" "b"
           {| Result_Success := "" |} echo_opened'
           eq_refl (slot_makes_Args _) (slot_makes_Result _) eq_refl).
Defined.

Lemma server_streaming_construction_witness :
  exists ss w' holder,
    NewServerStreaming ctx_Background (echo_call' reliable') "Echo" "hi" [] fresh_world' =
      (Ok ss, w') /\
    trace w' = [opened_Echo; EvSendMsg 0 (envelope "hi"); EvClose 0] /\
    ss_Stream ss = {| stream_id := 0; stream_tp := reliable' |} /\
    forall w2,
      deprecatedServerStreamingClient_Recv ss w2 =
      (received (tp_RecvMsg reliable' (trace w2) 0 holder), log (EvRecvMsg 0) w2).
Proof.
  exact (server_streaming_construction ctx_Background (echo_client' reliable') "Echo" "hi" []
           reliable' fresh_world' fresh_world_serves eq_refl eq_refl eq_refl eq_refl).
Defined.

Lemma close_error_skips_receive_witness :
  deprecatedClientStreamingClient_CloseAndRecv (echo_handle' close_fails') echo_opened' =
    (Err (Foreign "close failed"), log (EvClose 0) echo_opened') /\
  deprecatedClientStreamingClient_CloseAndRecv (echo_handle' reliable') echo_opened' =
    (Ok "pong", log (EvRecvMsg 0) (log (EvClose 0) echo_opened')).
Proof.
  split.
  - exact (proj1 (close_error_skips_receive (echo_handle' close_fails') echo_opened')
             (Foreign "close failed") eq_refl).
  - exact (proj1 (proj2 (close_error_skips_receive (echo_handle' reliable') echo_opened'))
             {| Result_Success := "" |} eq_refl (slot_makes_Result _)).
Defined.

Lemma resolution_by_registry_or_schema_witness :
  (GenericMethod_func binary_generic (Some 0) 0 "Ping" learned_world' =
     (Ok (FromMethods (Some (slot' GenericMethod_key))), learned_world') /\
   GenericMethod_func binary_generic (Some 0) 0 "Echo" learned_world' =
     (Ok (FromMethods (Some (slot' GenericClientStreamingMethod))), learned_world') /\
   GenericMethod_func binary_generic (Some 0) 0 "Watch" learned_world' =
     (Ok (FromMethods (Some (slot' GenericServerStreamingMethod))), learned_world') /\
   GenericMethod_func binary_generic (Some 0) 0 "Chat" learned_world' =
     (Ok (FromMethods (Some (slot' GenericBidirectionalStreamingMethod))), learned_world')) /\
  (GenericMethod_func idl_generic None 0 "Echo" idl_world' =
     (Ok (FromMethods (Some (slot' GenericMethod_key))), idl_world') /\
   GenericMethod_func idl_generic None 0 "Upload" idl_world' =
     (Ok (WithOneway (Some (slot' GenericClientStreamingMethod)) false), idl_world') /\
   GenericMethod_func idl_generic None 0 "Watch" idl_world' =
     (Ok (WithOneway (Some (slot' GenericServerStreamingMethod)) false), idl_world') /\
   GenericMethod_func idl_generic None 0 "Chat" idl_world' =
     (Ok (WithOneway (Some (slot' GenericBidirectionalStreamingMethod)) false), idl_world') /\
   GenericMethod_func idl_generic None 0 "Ping" idl_world' =
     (Ok (WithOneway (Some (slot' GenericMethod_key)) true), idl_world')).
Proof.
  pose (learned name :=
          resolution_by_registry_or_schema binary_generic 0
            (hooked 0 binary_generic echo_table') name learned_world' eq_refl).
  pose (declared name :=
          resolution_by_registry_or_schema idl_generic 0
            (hooked 0 idl_generic echo_table') name idl_world' eq_refl).
  split; [split; [|split; [|split]]|split; [|split; [|split; [|split]]]].
  - exact (proj1 (learned "Ping") 0 eq_refl eq_refl).
  - exact (proj1 (proj2 (learned "Echo")) 0 StreamingClient eq_refl eq_refl).
  - exact (proj1 (proj2 (learned "Watch")) 0 StreamingServer eq_refl eq_refl).
  - exact (proj1 (proj2 (learned "Chat")) 0 StreamingBidirectional eq_refl eq_refl).
  - exact (proj1 (proj2 (proj2 (declared "Echo"))) None (Foreign "unknown method")
             eq_refl eq_refl).
  - exact (proj1 (proj2 (proj2 (proj2 (declared "Upload")))) None
             {| Method_StreamingMode := StreamingClient; Method_Oneway := false |}
             eq_refl eq_refl).
  - exact (proj1 (proj2 (proj2 (proj2 (declared "Watch")))) None
             {| Method_StreamingMode := StreamingServer; Method_Oneway := false |}
             eq_refl eq_refl).
  - exact (proj1 (proj2 (proj2 (proj2 (declared "Chat")))) None
             {| Method_StreamingMode := StreamingBidirectional; Method_Oneway := false |}
             eq_refl eq_refl).
  - exact (proj1 (proj2 (proj2 (proj2 (declared "Ping")))) None
             {| Method_StreamingMode := StreamingNone; Method_Oneway := true |}
             eq_refl eq_refl).
Defined.

Lemma invalid_client_no_io_witness :
  fst (NewClientStreaming ctx_Background (echo_call' refusing') "Echo" [] fresh_world') =
    Err (Foreign "connection refused") /\
  fst (NewServerStreaming ctx_Background (echo_call' broken_pipe') "Echo" "hi" []
         fresh_world') = Err (Foreign "broken pipe") /\
  fst (NewServerStreaming ctx_Background (echo_call' close_fails') "Echo" "hi" []
         fresh_world') = Err (Foreign "close failed").
Proof.
  destruct (invalid_client_no_io ctx_Background "Echo" "hi" [] fresh_world')
    as (_ & _ & _ & Hopen & Hsend & Hclose).
  split; [|split].
  - exact (proj1 (Hopen (echo_client' refusing') refusing' (Foreign "connection refused")
                    eq_refl eq_refl)).
  - exact (Hsend (echo_client' broken_pipe') broken_pipe' (Foreign "broken pipe")
             fresh_world_serves eq_refl eq_refl eq_refl).
  - exact (Hclose (echo_client' close_fails') close_fails' (Foreign "close failed")
             fresh_world_serves eq_refl eq_refl eq_refl eq_refl).
Defined.

Lemma request_envelopes_name_their_method_witness :
  let program :=
    [act_NewClientStreaming ctx_Background (echo_call' reliable') "Echo" [];
     act_cs_Send 0 "a";
     act_NewServerStreaming ctx_Background (echo_call' reliable') "Watch" "hi" [];
     act_NewBidirectionalStreaming ctx_Background (echo_call' reliable') "Chat" [];
     act_bs_Send 0 "b";
     act_cs_CloseAndRecv 0] in
  let s' := run' program fresh_session' in
  let w' := world s' in
  (forall i sid args,
     trace w' !! i = Some (EvSendMsg sid args) ->
     (exists ctx, trace w' !! sid = Some (EvStream ctx (Args_Method args))) /\
     (exists p mi, lookup_for sid p (Args_Method args) mi ∈ lookups w')) /\
  handles_for_method s' /\
  (forall sid p1 m1 mi1 p2 m2 mi2,
     lookup_for sid p1 m1 mi1 ∈ lookups w' ->
     lookup_for sid p2 m2 mi2 ∈ lookups w' ->
     p1 = p2 /\ m1 = m2 /\ mi1 = mi2).
Proof.
  intros program.
  exact (request_envelopes_name_their_method (over reliable') echo_tables fresh_session'
           program fresh_session_ok).
Defined.

(** What that program leaves in the log of the transport and on the record
    of lookups. *)
Example echo_program_trace :
  let w' := world (run'
    [act_NewClientStreaming ctx_Background (echo_call' reliable') "Echo" [];
     act_cs_Send 0 "a";
     act_NewServerStreaming ctx_Background (echo_call' reliable') "Watch" "hi" [];
     act_NewBidirectionalStreaming ctx_Background (echo_call' reliable') "Chat" [];
     act_bs_Send 0 "b";
     act_cs_CloseAndRecv 0] fresh_session') in
  trace w' =
    [EvStream (ctx_WithCallOptions ctx_Background []) "Echo";
     EvSendMsg 0 {| Args_Method := "Echo"; Args_Request := "a" |};
     EvStream (ctx_WithCallOptions ctx_Background []) "Watch";
     EvSendMsg 2 {| Args_Method := "Watch"; Args_Request := "hi" |};
     EvClose 2;
     EvStream (ctx_WithCallOptions ctx_Background []) "Chat";
     EvSendMsg 5 {| Args_Method := "Chat"; Args_Request := "b" |};
     EvClose 0;
     EvRecvMsg 0] /\
  lookups w' =
    [lookup_for 0 0 "Echo" (FromMethods (Some (slot' GenericClientStreamingMethod)));
     lookup_for 2 0 "Watch" (FromMethods (Some (slot' GenericServerStreamingMethod)));
     lookup_for 5 0 "Chat" (FromMethods (Some (slot' GenericBidirectionalStreamingMethod)))].
Proof. by split. Qed.

Lemma close_calls_per_path_witness :
  (exists evs,
     trace (snd (NewServerStreaming ctx_Background (echo_call' broken_pipe') "Echo" "hi" []
                   fresh_world')) = opened_Echo :: evs /\
     closes 0 evs = 0) /\
  (exists evs,
     trace (snd (deprecatedClientStreamingClient_CloseAndRecv (echo_handle' close_fails')
                   echo_opened')) = trace echo_opened' ++ evs /\
     closes 0 evs = 1).
Proof.
  destruct (close_calls_per_path ctx_Background (echo_client' broken_pipe') "Echo" "hi" []
              broken_pipe' fresh_world' (echo_handle' close_fails') echo_opened'
              fresh_world_serves eq_refl eq_refl)
    as (Hserver & Hclient & _).
  split; [exact Hserver|exact Hclient].
Defined.

(** C9 as stated fails: the server-streaming constructor acquires the stream,
    the initial send fails, and the constructor returns the send's error
    with the stream never closed. *)
Lemma stream_left_open_when_send_fails :
  let call := NewServerStreaming ctx_Background (echo_call' broken_pipe') "Echo" "hi" [] in
  fst (call fresh_world') = Err (Foreign "broken pipe") /\
  trace (snd (call fresh_world')) = [opened_Echo; EvSendMsg 0 (envelope "hi")] /\
  closes 0 (trace (snd (call fresh_world'))) = 0 /\
  ~ closed_once call fresh_world'.
Proof.
  intros call. repeat split. unfold closed_once. by vm_compute.
Qed.

Lemma operations_do_not_panic_witness :
  let program :=
    [act_NewClientStreaming ctx_Background (echo_call' reliable') "Echo" [];
     act_cs_Send 0 "a";
     act_NewServerStreaming ctx_Background (echo_call' broken_pipe') "Watch" "hi" [];
     act_NewBidirectionalStreaming ctx_Background OtherClient "Chat" [];
     act_bs_Recv 0;
     act_cs_CloseAndRecv 0] in
  never_panics' program fresh_session' /\
  fst (NewClientStreaming ctx_Background (GenericServiceClient without_streaming') "Echo" []
         fresh_world') = Err ErrNotSupportStreaming.
Proof.
  intros program.
  destruct (operations_do_not_panic (over reliable') echo_tables fresh_session' program
              (handles_generic_initial fresh_session' eq_refl eq_refl eq_refl))
    as (Hnever & _ & _ & Herr & _).
  { unfold program.
    repeat match goal with
           | |- Forall _ (_ :: _) => constructor
           | |- Forall _ [] => constructor
           end; try exact I; apply echo_call_fit. }
  split; [exact Hnever|].
  exact (proj1 (Herr without_streaming' ctx_Background "Echo" "" [] fresh_world' eq_refl)).
Defined.

(** C8 as stated fails.  The constructor accepts a service info whose method
    table has the default slot only; on the client it returns, the
    server-streaming constructor panics on the nil descriptor after the
    stream was opened, and [Send] on the handle that [NewClientStreaming]
    returned panics. *)
Lemma nil_descriptor_panics :
  NewStreamingClientWithServiceInfo (over reliable') "echo" binary_generic 1 [] new_world' =
    (Ok (GenericServiceClient unary_only_client'), unary_world') /\
  fst (NewServerStreaming ctx_Background (GenericServiceClient unary_only_client')
         "Echo" "hi" [] unary_world') = Panic /\
  fst (perform' (act_cs_Send 0 "a")
         (step' (act_NewClientStreaming ctx_Background
                   (GenericServiceClient unary_only_client') "Echo" [])
            (session_in' unary_world'))) = Panic /\
  ~ never_panics'
      [act_NewClientStreaming ctx_Background (GenericServiceClient unary_only_client')
         "Echo" [];
       act_cs_Send 0 "a"] (session_in' unary_world').
Proof.
  repeat split. intros (_ & Hsend & _). by apply Hsend.
Qed.

(** The unchecked assertion of line 73 next to the checked one of lines
    231-234: given an underlying client that does not implement streaming the
    constructor panics, where [getStream] answers with an error. *)
Example constructor_asserts_streaming :
  fst (NewStreamingClientWithServiceInfo NewClient_without_streaming' "echo" binary_generic
         0 [] new_world') = Panic /\
  getStream ctx_Background (GenericServiceClient without_streaming') "Echo" [] fresh_world' =
    (Err ErrNotSupportStreaming, fresh_world').
Proof. by split. Qed.

(** The hook is in the caller's service info: a second client built over the
    service info of the echo client takes the lookups over.  The first
    client's registry still holds the mode it learned for [Echo], and a
    lookup of [Echo] through the service info now returns the default
    slot. *)
Example second_client_over_the_same_service_info :
  let s1 := step' (act_NewClientStreaming ctx_Background (echo_call' reliable') "Echo" [])
              fresh_session' in
  let s2 := step' (act_NewStreamingClientWithServiceInfo "again" binary_generic 0 []) s1 in
  fst (ServiceInfo_MethodInfo 0 "Echo" (world s1)) =
    Ok (FromMethods (Some (slot' GenericClientStreamingMethod))) /\
  Load 0 "Echo" (world s2) = Some StreamingClient /\
  fst (ServiceInfo_MethodInfo 0 "Echo" (world s2)) =
    Ok (FromMethods (Some (slot' GenericMethod_key))).
Proof. by repeat split. Qed.

(** From then on the lookups through the shared service info follow the
    second client's registry: a factory call for [Chat] on the second client
    records nothing in the first client's registry, the first client's own
    resolver still answers [Chat] with the default slot, and a lookup of
    [Chat] through the service info returns the bidirectional slot. *)
Example shared_service_info_follows_the_last_client :
  let second :=
    {| svcInfo := 0; kClient := {| as_Streaming := Some reliable' |};
       sClient := reliable'; g := binary_generic; modeMap := Some 1 |} in
  let s1 := step' (act_NewStreamingClientWithServiceInfo "again" binary_generic 0 [])
              fresh_session' in
  let s2 := step' (act_NewBidirectionalStreaming ctx_Background
                     (GenericServiceClient second) "Chat" []) s1 in
  NewStreamingClientWithServiceInfo (over reliable') "again" binary_generic 0 []
    fresh_world' = (Ok (GenericServiceClient second), world s1) /\
  Load 0 "Chat" (world s2) = None /\
  Load 1 "Chat" (world s2) = Some StreamingBidirectional /\
  resolve (echo_client' reliable') "Chat" (world s2) =
    (Ok (FromMethods (Some (slot' GenericMethod_key))), world s2) /\
  fst (ServiceInfo_MethodInfo 0 "Chat" (world s2)) =
    Ok (FromMethods (Some (slot' GenericBidirectionalStreamingMethod))).
Proof. by repeat split. Qed.

(** * Concrete runs of the further properties *)

Lemma idl_client_schema_present tp : schema_present (idl_client' tp).
Proof. by split. Qed.

Lemma idl_object : svcInfos idl_world' !! 0 = Some (hooked 0 idl_generic echo_table').
Proof. reflexivity. Qed.

Lemma unary_only_client_schema_absent : schema_absent unary_only_client' 0.
Proof. by split. Qed.

Lemma unary_object :
  svcInfos unary_world' !! 1 = Some (hooked 1 binary_generic unary_only_table').
Proof. reflexivity. Qed.

Lemma echo_opened_object :
  svcInfos echo_opened' !! 0 = Some (hooked 0 binary_generic echo_table').
Proof. reflexivity. Qed.

Lemma constructor_builds_client_witness :
  exists mp' w',
    NewStreamingClientWithServiceInfo (over reliable') "echo" binary_generic 0 [] new_world' =
      (Ok (GenericServiceClient
             {| svcInfo := 0; kClient := {| as_Streaming := Some reliable' |};
                sClient := reliable'; g := binary_generic; modeMap := mp' |}), w') /\
    svcInfos w' =
      <[0 := {| Methods := Methods echo_table';
                GenericMethod :=
                  Some {| cap_g := binary_generic; cap_mp := mp'; cap_svcInfo := 0 |} |}]>
        (svcInfos new_world') /\
    trace w' = trace new_world' /\
    lookups w' = lookups new_world' /\
    exists mp, mp' = Some mp /\ (mp ∉ dom (syncMaps new_world')) /\
               syncMaps w' = <[mp := ∅]> (syncMaps new_world').
Proof.
  exact (constructor_builds_client (over reliable') "echo" binary_generic 0 []
           {| as_Streaming := Some reliable' |} reliable' echo_table' new_world'
           eq_refl eq_refl eq_refl).
Defined.

Lemma constructor_failures_witness :
  NewStreamingClientWithServiceInfo NewClient_failing' "echo" binary_generic 0 []
    new_world' = (Err (Foreign "dial failed"), new_world') /\
  fst (NewStreamingClientWithServiceInfo NewClient_without_streaming' "echo" binary_generic
         0 [] new_world') = Panic /\
  fst (NewStreamingClientWithServiceInfo (over reliable') "echo" binary_generic
         7 [] new_world') = Panic.
Proof.
  split; [|split].
  - exact (proj1 (constructor_failures NewClient_failing' "echo" binary_generic 0
                    [] new_world') (Foreign "dial failed") eq_refl).
  - exact (proj1 (proj2 (constructor_failures NewClient_without_streaming' "echo"
                           binary_generic 0 [] new_world')
                    {| as_Streaming := None |} eq_refl (or_introl eq_refl))).
  - exact (proj1 (proj2 (constructor_failures (over reliable') "echo"
                           binary_generic 7 [] new_world')
                    {| as_Streaming := Some reliable' |} eq_refl (or_intror eq_refl))).
Defined.

Lemma NewStreamingClient_factories_safe_witness :
  exists gCli w',
    NewStreamingClient (over reliable') echo_tables "echo" binary_generic [] new_world' =
      (Ok (GenericServiceClient gCli), w') /\
    svcInfos w' !! svcInfo gCli =
      Some {| Methods := Methods echo_table'; GenericMethod := Some (own_hook gCli) |} /\
    svcInfos w' !! 0 = Some echo_table' /\
    fst (perform' (act_NewServerStreaming ctx_Background (GenericServiceClient gCli)
                     "Watch" "hi" []) (session_in' w')) <> Panic.
Proof.
  destruct (NewStreamingClient_factories_safe (over reliable') echo_tables "echo"
              binary_generic [] {| as_Streaming := Some reliable' |} reliable' new_world'
              eq_refl eq_refl echo_table_generic)
    as (gCli & w' & Hrun & Hp & _ & Hat & _ & _ & _ & Hserves & _ & Hsafe).
  exists gCli, w'. split; [exact Hrun|]. split; [rewrite Hp; exact Hat|].
  split; [by injection Hrun as <- <-|].
  exact (proj1 (Hsafe (act_NewServerStreaming ctx_Background (GenericServiceClient gCli)
                         "Watch" "hi" [])
                  {| fc_ctx := ctx_Background; fc_client := GenericServiceClient gCli;
                     fc_method := "Watch"; fc_callOpts := []; fc_mode := StreamingServer |}
                  (session_in' w') eq_refl eq_refl
                  (handles_generic_initial (session_in' w') eq_refl eq_refl eq_refl)
                  Hserves)).
Defined.

Lemma constructor_takes_over_hook_witness :
  let second :=
    {| svcInfo := 0; kClient := {| as_Streaming := Some reliable' |};
       sClient := reliable'; g := binary_generic; modeMap := Some 1 |} in
  let r := NewStreamingClientWithServiceInfo (over reliable') "again" binary_generic 0 []
             echo_opened' in
  r = (Ok (GenericServiceClient second), snd r) /\
  installed (echo_client' reliable') echo_opened' /\
  ~ installed (echo_client' reliable') (snd r) /\
  installed second (snd r) /\
  Load 0 "Echo" (snd r) = Some StreamingClient /\
  hook_answer 0 "Echo" echo_opened' =
    (Ok (FromMethods (Some (slot' GenericClientStreamingMethod))), echo_opened') /\
  hook_answer 0 "Echo" (snd r) =
    (Ok (FromMethods (Some (slot' GenericMethod_key))), snd r).
Proof.
  intros second r.
  destruct (constructor_takes_over_hook (over reliable') "again" binary_generic 0 []
              (hooked 0 binary_generic echo_table') echo_opened' second (snd r)
              echo_opened_object eq_refl)
    as (Hinst & _ & Hothers & Hkept & Hdefault).
  split; [reflexivity|].
  split; [eexists; split; [exact echo_opened_object|reflexivity]|].
  split; [apply Hothers; [reflexivity|discriminate]|].
  split; [exact Hinst|].
  split; [apply Hkept; reflexivity|].
  split; [reflexivity|].
  exact (Hdefault eq_refl "Echo").
Defined.

Lemma schema_present_records_nothing_witness :
  let a := act_NewServerStreaming ctx_Background (GenericServiceClient (idl_client' reliable'))
             "Watch" "hi" [] in
  let s' := step' a (session_in' idl_world') in
  syncMaps (world s') = syncMaps idl_world' /\
  svcInfos (world s') = svcInfos idl_world' /\
  resolve (idl_client' reliable') "Watch" (world s') =
    (Ok (WithOneway (Some (slot' GenericServerStreamingMethod)) false), world s') /\
  resolve (idl_client' reliable') "Echo" (world s') =
    (Ok (FromMethods (Some (slot' GenericMethod_key))), world s').
Proof.
  intros a s'.
  pose (after name :=
          schema_present_records_nothing (over reliable') echo_tables a
            {| fc_ctx := ctx_Background;
               fc_client := GenericServiceClient (idl_client' reliable');
               fc_method := "Watch"; fc_callOpts := []; fc_mode := StreamingServer |}
            (idl_client' reliable') (hooked 0 idl_generic echo_table')
            (session_in' idl_world') name
            eq_refl eq_refl (idl_client_schema_present reliable') idl_object).
  destruct (after "Watch") as (Hmaps & Hheap & _ & Hwatch).
  destruct (after "Echo") as (_ & _ & _ & Hecho).
  split; [exact Hmaps|]. split; [exact Hheap|]. split; [exact Hwatch|exact Hecho].
Defined.

Lemma factory_touches_one_entry_witness :
  let a := act_NewClientStreaming ctx_Background (echo_call' reliable') "Echo" [] in
  Load 0 "Watch" (world (step' a fresh_session')) = Load 0 "Watch" fresh_world'.
Proof.
  intros a.
  apply (factory_touches_one_entry (over reliable') echo_tables a
           {| fc_ctx := ctx_Background; fc_client := echo_call' reliable';
              fc_method := "Echo"; fc_callOpts := []; fc_mode := StreamingClient |}
           (echo_client' reliable') fresh_session' 0 "Watch");
    [reflexivity|reflexivity|right; discriminate].
Defined.

Lemma handle_operations_leave_registries_witness :
  let s := step' (act_NewClientStreaming ctx_Background (echo_call' reliable') "Echo" [])
             fresh_session' in
  let s' := step' (act_cs_Send 0 "a") s in
  syncMaps (world s') = syncMaps (world s) /\
  clientStreams s' = clientStreams s /\
  serverStreams s' = serverStreams s /\
  bidiStreams s' = bidiStreams s.
Proof.
  intros s s'.
  exact (handle_operations_leave_registries (over reliable') echo_tables
           (act_cs_Send 0 "a") s I).
Defined.

Lemma later_shape_gets_first_descriptor_witness :
  let r := NewServerStreaming ctx_Background (echo_call' reliable') "Echo" "hi" []
             echo_opened' in
  let ss := {| ss_Stream := {| stream_id := 1; stream_tp := reliable' |};
               ss_methodInfo := FromMethods (Some (slot' GenericClientStreamingMethod)) |} in
  r = (Ok ss, snd r) /\
  ss_methodInfo ss = FromMethods (Some (slot' GenericClientStreamingMethod)) /\
  syncMaps (snd r) = syncMaps echo_opened'.
Proof.
  intros r ss. split; [reflexivity|].
  exact (proj1 (proj2 (later_shape_gets_first_descriptor ctx_Background
                         (echo_client' reliable') 0 (hooked 0 binary_generic echo_table')
                         "Echo" "hi" [] StreamingClient echo_opened'
                         (echo_client_schema_absent reliable') echo_opened_object
                         eq_refl eq_refl))
           ss (snd r) eq_refl).
Defined.

Lemma lazy_factories_open_only_witness :
  exists mi_c mi_b,
    generic_descriptor mi_c /\ generic_descriptor mi_b /\
    NewClientStreaming ctx_Background (echo_call' reliable') "Chat" [] fresh_world' =
      (Ok {| cs_Stream := {| stream_id := 0; stream_tp := reliable' |};
             cs_method := "Chat"; cs_methodInfo := mi_c |},
       looked_up (lookup_for 0 0 "Chat" mi_c)
         (log (EvStream (ctx_WithCallOptions ctx_Background []) "Chat")
            (LoadOrStore 0 "Chat" StreamingClient fresh_world'))) /\
    NewBidirectionalStreaming ctx_Background (echo_call' reliable') "Chat" [] fresh_world' =
      (Ok {| bs_Stream := {| stream_id := 0; stream_tp := reliable' |};
             bs_method := "Chat"; bs_methodInfo := mi_b |},
       looked_up (lookup_for 0 0 "Chat" mi_b)
         (log (EvStream (ctx_WithCallOptions ctx_Background []) "Chat")
            (LoadOrStore 0 "Chat" StreamingBidirectional fresh_world'))).
Proof.
  exact (lazy_factories_open_only ctx_Background (echo_client' reliable') "Chat" []
           reliable' fresh_world' fresh_world_serves eq_refl eq_refl).
Defined.

Lemma bidi_any_interleaving_witness :
  let w := snd (NewBidirectionalStreaming ctx_Background (echo_call' two_replies') "Chat" []
                  fresh_world') in
  bidi_run (chat_handle' two_replies')
    [bidi_Recv; bidi_Send "a"; bidi_Recv; bidi_Recv; bidi_Send "b"] w =
  ([answer_Recv (Ok "pong"); answer_Send (Ok tt); answer_Recv (Ok "pong");
    answer_Recv (Err (Foreign "EOF")); answer_Send (Ok tt)],
   logged [EvRecvMsg 0;
           EvSendMsg 0 {| Args_Method := "Chat"; Args_Request := "a" |};
           EvRecvMsg 0; EvRecvMsg 0;
           EvSendMsg 0 {| Args_Method := "Chat"; Args_Request := "b" |}] w).
Proof.
  intros w.
  exact (bidi_any_interleaving (chat_handle' two_replies') {| Result_Success := "" |}
           [bidi_Recv; bidi_Send "a"; bidi_Recv; bidi_Recv; bidi_Send "b"] w
           (slot_makes_Args _) (slot_makes_Result _)).
Defined.

Lemma missing_slot_panics_late_witness :
  NewServerStreaming ctx_Background (GenericServiceClient unary_only_client') "Echo" "hi" []
    unary_world' =
    (Panic,
     looked_up (lookup_for 0 1 "Echo" (FromMethods None))
       (log (EvStream (ctx_WithCallOptions ctx_Background []) "Echo")
          (LoadOrStore 0 "Echo" StreamingServer unary_world'))) /\
  deprecatedClientStreamingClient_CloseAndRecv (bare_handle' reliable') echo_opened' =
    (Panic, log (EvClose 0) echo_opened').
Proof.
  exact (missing_slot_panics_late ctx_Background unary_only_client' 0
           (hooked 1 binary_generic unary_only_table') "Echo" "hi" []
           reliable' unary_world' (bare_handle' reliable') echo_opened'
           unary_only_client_schema_absent unary_object eq_refl eq_refl eq_refl eq_refl
           eq_refl eq_refl).
Defined.

Lemma unused_name_stays_default_witness :
  let program :=
    [act_NewClientStreaming ctx_Background (echo_call' reliable') "Echo" [];
     act_cs_Send 0 "a";
     act_NewStreamingClientWithServiceInfo "other" binary_generic 1 [];
     act_NewStreamingClient "third" binary_generic [];
     act_NewBidirectionalStreaming ctx_Background
       (GenericServiceClient (idl_client' reliable')) "Chat" [];
     act_cs_CloseAndRecv 0] in
  let s' := run' program fresh_session' in
  Load 0 "Chat" (world s') = None /\
  resolve (echo_client' reliable') "Chat" (world s') =
    (Ok (FromMethods (Some (slot' GenericMethod_key))), world s') /\
  fst (ServiceInfo_MethodInfo 0 "Chat" (world s')) =
    Ok (FromMethods (Some (slot' GenericMethod_key))).
Proof.
  intros program.
  destruct (unused_name_stays_default (over reliable') echo_tables (echo_client' reliable') 0
              (hooked 0 binary_generic echo_table') "Chat" fresh_session' program
              (echo_client_schema_absent reliable') echo_object eq_refl)
    as (Hload & Hres & Hhook).
  { unfold program.
    repeat match goal with
           | |- Forall _ (_ :: _) => constructor
           | |- Forall _ [] => constructor
           end; try exact I.
    - right. discriminate.
    - left. discriminate. }
  split; [exact Hload|]. split; [exact Hres|].
  apply Hhook; [exact (echo_installed reliable')|].
  unfold program.
  repeat match goal with
         | |- Forall _ (_ :: _) => constructor
         | |- Forall _ [] => constructor
         end; try exact I.
  simpl. discriminate.
Defined.

Lemma client_streaming_any_sends_witness :
  deprecatedClientStreamingClient_CloseAndRecv (echo_handle' reliable')
    (cs_send_all (echo_handle' reliable') ["a"; "b"; "c"] echo_opened') =
  (Ok "pong",
   logged [EvSendMsg 0 (envelope "a"); EvSendMsg 0 (envelope "b");
           EvSendMsg 0 (envelope "c"); EvClose 0; EvRecvMsg 0] echo_opened').
Proof.
  exact (client_streaming_any_sends (echo_handle' reliable') {| Result_Success := "" |}
           ["a"; "b"; "c"] echo_opened' (slot_makes_Args _) (slot_makes_Result _)
           eq_refl).
Defined.

Lemma server_streaming_reads_witness :
  exists ss w',
    NewServerStreaming ctx_Background (echo_call' two_replies') "Watch" "hi" [] fresh_world' =
      (Ok ss, w') /\
    fst (ss_recv_times ss 3 w') = [Ok "pong"; Ok "pong"; Err (Foreign "EOF")] /\
    trace (snd (ss_recv_times ss 3 w')) =
      [EvStream (ctx_WithCallOptions ctx_Background []) "Watch";
       EvSendMsg 0 {| Args_Method := "Watch"; Args_Request := "hi" |};
       EvClose 0; EvRecvMsg 0; EvRecvMsg 0; EvRecvMsg 0].
Proof.
  destruct (server_streaming_reads ctx_Background (echo_client' two_replies') "Watch" "hi" []
              two_replies' fresh_world' fresh_world_serves eq_refl eq_refl eq_refl eq_refl)
    as (ss & w' & holder & Hnew & _ & _ & _ & _ & Hreads).
  exists ss, w'. split; [exact Hnew|].
  injection Hnew as <- <-. by rewrite (Hreads 3).
Defined.
